(** * Where-expressions: the parser and the formatter of [examples/whereexp.py]

    The development embeds [examples/whereexp.py] (a pyparsing grammar for a
    small SQL-like filter language, its semantic actions and the formatter
    [_format]) and checks the properties its specification states.

    Layout:
    - [Py]        the Python 2 builtins the source calls (string methods,
                  [repr], [ast.literal_eval]);
    - [Re]        a backtracking matcher for the regular expressions the
                  grammar is built from;
    - [QzWhere]   the expression-tree model ([qz.data.where]);
    - [Pyparsing] the combinators of the pyparsing library the grammar uses;
    - [Whereexp]  the source file itself;
    - the theorems. *)

From Stdlib Require Import List Ascii ZArith QArith Lia Bool Arith.
From Stdlib Require Import DecimalPos DecimalN DecimalZ.
Import ListNotations.
Close Scope Q_scope.

Scheme All for option.
Scheme All for list.

(** Python 2 [str] values are byte strings: lists of 8-bit characters. *)
Definition str := list ascii.

Declare Scope str_scope.
Delimit Scope str_scope with str.
Bind Scope str_scope with str.

Inductive lstr := LNil | LCons (a : ascii) (l : lstr).

Fixpoint lstr_of_bytes (l : list Byte.byte) : lstr :=
  match l with
  | [] => LNil
  | b :: l' => LCons (ascii_of_byte b) (lstr_of_bytes l')
  end.

Fixpoint bytes_of_lstr (l : lstr) : list Byte.byte :=
  match l with
  | LNil => []
  | LCons a l' => byte_of_ascii a :: bytes_of_lstr l'
  end.

#[warnings="-via-type-mismatch,-via-type-remapping"]
String Notation str lstr_of_bytes bytes_of_lstr
  (via lstr mapping [[nil] => LNil, [cons] => LCons]) : str_scope.

Open Scope str_scope.

(** ** Exceptions and results

    A call either returns or raises.  [ParseException] is pyparsing's
    ordinary, backtrackable failure; [ParseFatalException] stops the parse.
    Both carry the unparsed remainder of the input at the failure position
    (pyparsing's [loc] is the length of the input minus the length of that
    remainder) and the message.  [ValueError] and [SyntaxError] come from the
    semantic actions and from [ast.literal_eval]; [AttributeError],
    [TypeError], [KeyError] and [IndexError] from applying an operation to an
    object of the wrong kind or shape.
    [RecursionError] stands for unbounded recursion or iteration of the
    grammar (a grammar that loops without consuming input).  [NotModelled]
    marks the results this development does not compute: the [repr] of a
    binary floating-point number and the text of foreign objects. *)
Inductive exn :=
| ParseException (rest : str) (msg : str)
| ParseFatalException (rest : str) (msg : str)
| ValueError (msg : str)
| SyntaxError (msg : str)
| AttributeError (msg : str)
| TypeError (msg : str)
| KeyError (key : str)
| IndexError (msg : str)
| RecursionError
| NotModelled (what : str).

Inductive res (A : Type) :=
| Ok (a : A)
| Raise (e : exn).
Arguments Ok {A} a.
Arguments Raise {A} e.

Definition bind {A B} (m : res A) (f : A -> res B) : res B :=
  match m with
  | Ok a => f a
  | Raise e => Raise e
  end.

Notation "x <- m ;; k" := (bind m (fun x => k))
  (at level 61, m at next level, right associativity).

(** ** Python builtins *)
Module Py.

Definition nl : ascii := "010"%char.
Definition cr : ascii := "013"%char.
Definition tab : ascii := "009"%char.
Definition squote : ascii := "'"%char.
Definition dquote : ascii := "034"%char.
Definition bslash : ascii := "\"%char.

Definition ord (c : ascii) : N := N_of_ascii c.

Definition between (lo hi c : ascii) : bool :=
  (ord lo <=? ord c)%N && (ord c <=? ord hi)%N.

Definition isdigit (c : ascii) : bool := between "0" "9" c.
Definition isupper (c : ascii) : bool := between "A" "Z" c.
Definition islower (c : ascii) : bool := between "a" "z" c.
Definition isalpha (c : ascii) : bool := isupper c || islower c.
Definition isalnum (c : ascii) : bool := isalpha c || isdigit c.

Definition upper_char (c : ascii) : ascii :=
  if islower c then ascii_of_N (ord c - 32) else c.
Definition lower_char (c : ascii) : ascii :=
  if isupper c then ascii_of_N (ord c + 32) else c.

(** [s.upper()], [s.lower()] *)
Definition upper (s : str) : str := map upper_char s.
Definition lower (s : str) : str := map lower_char s.

Fixpoint eqb (a b : str) : bool :=
  match a, b with
  | [], [] => true
  | x :: a', y :: b' => Ascii.eqb x y && eqb a' b'
  | _, _ => false
  end.

(** [s.startswith(p)] *)
Fixpoint startswith (s p : str) {struct p} : bool :=
  match p, s with
  | [], _ => true
  | x :: p', y :: s' => Ascii.eqb x y && startswith s' p'
  | _ :: _, [] => false
  end.

Arguments startswith : simpl never.

(** [s.endswith(p)] *)
Definition endswith (s p : str) : bool := startswith (rev s) (rev p).

(** [sub in s] on strings: substring test *)
Fixpoint contains (s sub : str) : bool :=
  startswith s sub ||
  match s with
  | [] => false
  | _ :: s' => contains s' sub
  end.

(** [s.count(c)] for a one-character [c] *)
Fixpoint count (s : str) (c : ascii) : nat :=
  match s with
  | [] => 0
  | x :: s' => (if Ascii.eqb x c then 1 else 0) + count s' c
  end.

(** [d[k]] of a dict literal with string keys: [None] is [KeyError]. *)
Fixpoint dict_get {V : Type} (d : list (str * V)) (k : str) : option V :=
  match d with
  | [] => None
  | (k', v) :: d' => if eqb k k' then Some v else dict_get d' k
  end.

(** [sep.join(l)] *)
Fixpoint join (sep : str) (l : list str) : str :=
  match l with
  | [] => []
  | [x] => x
  | x :: l' => x ++ sep ++ join sep l'
  end.

(** [s.splitlines()] of a byte string: lines end at "\n", "\r" or "\r\n";
    the terminators are dropped and a final terminator opens no empty line. *)
Fixpoint splitlines_from (cur : str) (s : str) : list str :=
  match s with
  | [] => match cur with [] => [] | _ => [rev cur] end
  | c :: s' =>
      if Ascii.eqb c cr then
        match s' with
        | c' :: s'' =>
            if Ascii.eqb c' nl then rev cur :: splitlines_from [] s''
            else rev cur :: splitlines_from [] s'
        | [] => rev cur :: splitlines_from [] s'
        end
      else if Ascii.eqb c nl then rev cur :: splitlines_from [] s'
      else splitlines_from (c :: cur) s'
  end.

Definition splitlines (s : str) : list str := splitlines_from [] s.

(** [s.expandtabs()]: a tab becomes spaces up to the next multiple of 8
    columns; the column restarts after "\n" and "\r". *)
Fixpoint expandtabs_from (col : nat) (s : str) : str :=
  match s with
  | [] => []
  | c :: s' =>
      if Ascii.eqb c tab then
        let n := 8 - Nat.modulo col 8 in
        repeat " "%char n ++ expandtabs_from (col + n) s'
      else if Ascii.eqb c nl || Ascii.eqb c cr then c :: expandtabs_from 0 s'
      else c :: expandtabs_from (S col) s'
  end.

Definition expandtabs (s : str) : str := expandtabs_from 0 s.

(** *** Numbers as text *)

Definition digit_of_nat (n : nat) : ascii := ascii_of_nat (48 + n).

Fixpoint chars_of_uint (d : Decimal.uint) : str :=
  match d with
  | Decimal.Nil => []
  | Decimal.D0 d' => "0"%char :: chars_of_uint d'
  | Decimal.D1 d' => "1"%char :: chars_of_uint d'
  | Decimal.D2 d' => "2"%char :: chars_of_uint d'
  | Decimal.D3 d' => "3"%char :: chars_of_uint d'
  | Decimal.D4 d' => "4"%char :: chars_of_uint d'
  | Decimal.D5 d' => "5"%char :: chars_of_uint d'
  | Decimal.D6 d' => "6"%char :: chars_of_uint d'
  | Decimal.D7 d' => "7"%char :: chars_of_uint d'
  | Decimal.D8 d' => "8"%char :: chars_of_uint d'
  | Decimal.D9 d' => "9"%char :: chars_of_uint d'
  end.

(** The digits of a digit string; [None] when a character is no digit. *)
Fixpoint uint_of_chars (s : str) : option Decimal.uint :=
  match s with
  | [] => Some Decimal.Nil
  | c :: s' =>
      match uint_of_chars s' with
      | None => None
      | Some d =>
          match c with
          | "0"%char => Some (Decimal.D0 d)
          | "1"%char => Some (Decimal.D1 d)
          | "2"%char => Some (Decimal.D2 d)
          | "3"%char => Some (Decimal.D3 d)
          | "4"%char => Some (Decimal.D4 d)
          | "5"%char => Some (Decimal.D5 d)
          | "6"%char => Some (Decimal.D6 d)
          | "7"%char => Some (Decimal.D7 d)
          | "8"%char => Some (Decimal.D8 d)
          | "9"%char => Some (Decimal.D9 d)
          | _ => None
          end
      end
  end.

(** [sys.maxint] of a 64-bit build: larger integers are [long]s. *)
Definition maxint : Z := 2 ^ 63 - 1.

(** [str(z)] of an integer: its decimal digits. *)
Definition str_int (z : Z) : str :=
  match Z.to_int z with
  | Decimal.Pos d => chars_of_uint d
  | Decimal.Neg d => "-"%char :: chars_of_uint d
  end.

(** [repr(z)]: a [long] carries the suffix [L]. *)
Definition repr_int (z : Z) : str :=
  if ((- maxint - 1 <=? z) && (z <=? maxint))%Z then str_int z
  else str_int z ++ "L".

Definition hexdigit (n : N) : ascii :=
  if (n <? 10)%N then ascii_of_N (48 + n) else ascii_of_N (87 + n).

(** One character of [repr(s)] inside the quote [q]. *)
Definition repr_char (q c : ascii) : str :=
  if Ascii.eqb c q || Ascii.eqb c bslash then [bslash; c]
  else if Ascii.eqb c tab then "\t"
  else if Ascii.eqb c nl then "\n"
  else if Ascii.eqb c cr then "\r"
  else if (ord c <? 32)%N || (127 <=? ord c)%N
       then [bslash; "x"%char; hexdigit (ord c / 16); hexdigit (ord c mod 16)]
  else [c].

(** [repr(s)] of a byte string: single quotes, unless the string holds a
    single quote and no double quote. *)
Definition repr_quote (s : str) : ascii :=
  if existsb (Ascii.eqb squote) s && negb (existsb (Ascii.eqb dquote) s)
  then dquote else squote.

Definition repr_str (s : str) : str :=
  let q := repr_quote s in
  q :: flat_map (repr_char q) s ++ [q].

(** *** Values

    The values the grammar produces: [None], byte strings, integers and
    floats, and lists of them.  A float is kept as the exact rational its
    decimal literal denotes; rounding to binary64 is not modelled. *)
Inductive value :=
| VNone
| VStr (s : str)
| VInt (z : Z)
| VFloat (q : Q).

Inductive pyobj :=
| Scalar (v : value)
| PyList (l : list value).

(** [isinstance(b, basestring)] *)
Definition is_basestring (o : pyobj) : bool :=
  match o with
  | Scalar (VStr _) => true
  | _ => false
  end.

Definition repr_value (v : value) : res str :=
  match v with
  | VNone => Ok "None"
  | VStr s => Ok (repr_str s)
  | VInt z => Ok (repr_int z)
  | VFloat _ => Raise (NotModelled "repr of a float")
  end.

Fixpoint repr_items (l : list value) : res (list str) :=
  match l with
  | [] => Ok []
  | v :: l' =>
      x <- repr_value v ;;
      xs <- repr_items l' ;;
      Ok (x :: xs)
  end.

(** [repr(o)] *)
Definition repr (o : pyobj) : res str :=
  match o with
  | Scalar v => repr_value v
  | PyList l =>
      xs <- repr_items l ;;
      Ok ("[" ++ join ", " xs ++ "]")
  end.

(** [str(o)], as ["%s" % o] computes it *)
Definition to_str (o : pyobj) : res str :=
  match o with
  | Scalar (VStr s) => Ok s
  | Scalar (VInt z) => Ok (str_int z)
  | _ => repr o
  end.

(** *** [ast.literal_eval] on the three kinds of literal the grammar matches *)

Definition octal_digit (c : ascii) : option N :=
  if between "0" "7" c then Some (ord c - 48)%N else None.

Definition hex_digit (c : ascii) : option N :=
  if isdigit c then Some (ord c - 48)%N
  else if between "a" "f" c then Some (ord c - 87)%N
  else if between "A" "F" c then Some (ord c - 55)%N
  else None.

(** The body of a string literal with its backslash escapes decoded. *)
Fixpoint unescape (s : str) : res str :=
  match s with
  | [] => Ok []
  | c :: s1 =>
      if negb (Ascii.eqb c bslash) then r <- unescape s1 ;; Ok (c :: r)
      else
        match s1 with
        | [] => Raise (ValueError "Trailing \ in string")
        | e :: s2 =>
            let simple (x : ascii) := r <- unescape s2 ;; Ok (x :: r) in
            if Ascii.eqb e nl then unescape s2
            else if Ascii.eqb e bslash then simple bslash
            else if Ascii.eqb e squote then simple squote
            else if Ascii.eqb e dquote then simple dquote
            else if Ascii.eqb e "b" then simple "008"%char
            else if Ascii.eqb e "f" then simple "012"%char
            else if Ascii.eqb e "t" then simple tab
            else if Ascii.eqb e "n" then simple nl
            else if Ascii.eqb e "r" then simple cr
            else if Ascii.eqb e "v" then simple "011"%char
            else if Ascii.eqb e "a" then simple "007"%char
            else if Ascii.eqb e "x" then
              match s2 with
              | h1 :: h2 :: s4 =>
                  match hex_digit h1, hex_digit h2 with
                  | Some a, Some b =>
                      r <- unescape s4 ;; Ok (ascii_of_N (16 * a + b) :: r)
                  | _, _ => Raise (ValueError "invalid \x escape")
                  end
              | _ => Raise (ValueError "invalid \x escape")
              end
            else
              match octal_digit e with
              | None => r <- unescape s2 ;; Ok (bslash :: e :: r)
              | Some a =>
                  match s2 with
                  | o2 :: s3 =>
                      match octal_digit o2 with
                      | None => r <- unescape s2 ;; Ok (ascii_of_N a :: r)
                      | Some b =>
                          match s3 with
                          | o3 :: s4 =>
                              match octal_digit o3 with
                              | None =>
                                  r <- unescape s3 ;;
                                  Ok (ascii_of_N (8 * a + b) :: r)
                              | Some c3 =>
                                  r <- unescape s4 ;;
                                  Ok (ascii_of_N ((8 * (8 * a + b) + c3) mod 256) :: r)
                              end
                          | [] => Ok [ascii_of_N (8 * a + b)]
                          end
                      end
                  | [] => Ok [ascii_of_N a]
                  end
              end
        end
  end.

Fixpoint octal_value (acc : N) (s : str) : option N :=
  match s with
  | [] => Some acc
  | c :: s' =>
      match octal_digit c with
      | Some d => octal_value (8 * acc + d) s'
      | None => None
      end
  end.

(** An integer literal without its sign.  In Python 2 a leading zero makes
    the literal octal. *)
Definition eval_digits (ds : str) : res Z :=
  match ds with
  | "0"%char :: _ :: _ =>
      match octal_value 0 ds with
      | Some n => Ok (Z.of_N n)
      | None => Raise (SyntaxError "invalid token")
      end
  | _ =>
      match uint_of_chars ds with
      | Some d => Ok (Z.of_N (N.of_uint d))
      | None => Raise (SyntaxError "invalid syntax")
      end
  end.

Fixpoint split_at_dot (s : str) : option (str * str) :=
  match s with
  | [] => None
  | c :: s' =>
      if Ascii.eqb c "." then Some ([], s')
      else match split_at_dot s' with
           | Some (a, b) => Some (c :: a, b)
           | None => None
           end
  end.

Definition eval_number (neg : bool) (s : str) : res value :=
  let sgn (z : Z) := if neg then (- z)%Z else z in
  match split_at_dot s with
  | None => z <- eval_digits s ;; Ok (VInt (sgn z))
  | Some (ip, fp) =>
      match uint_of_chars (ip ++ fp) with
      | Some d =>
          Ok (VFloat (Qred (Qmake (sgn (Z.of_N (N.of_uint d)))
                                  (Z.to_pos (10 ^ Z.of_nat (length fp))))))
      | None => Raise (SyntaxError "invalid syntax")
      end
  end.

Definition literal_eval (text : str) : res value :=
  match text with
  | [] => Raise (SyntaxError "unexpected EOF while parsing")
  | c :: t =>
      if Ascii.eqb c squote || Ascii.eqb c dquote then
        s <- unescape (removelast t) ;; Ok (VStr s)
      else if Ascii.eqb c "-" then eval_number true t
      else eval_number false text
  end.

End Py.

(** ** Regular expressions

    The fragment of Python's [re] the grammar uses, with the backtracking
    semantics of [re.match]: alternatives are tried left to right,
    quantifiers are greedy, and the first way to match is the match. *)
Module Re.

Inductive regex :=
| Chr (c : ascii)                 (* a literal character *)
| Cls (p : ascii -> bool)         (* a character class *)
| Seq (r1 r2 : regex)
| Alt (r1 r2 : regex)             (* r1|r2 *)
| Opt (r : regex)                 (* r? *)
| Star (r : regex)                (* r* *)
| Plus (r : regex)                (* r+ *)
| NotAhead (r : regex).           (* (?!r) *)

Definition cont := str -> option str.

(** Greedy iteration of the matcher [m]; an iteration that consumes nothing
    ends the loop. *)
Fixpoint star (m : str -> cont -> option str) (n : nat) (s : str) (k : cont)
  : option str :=
  match n with
  | 0 => k s
  | S n' =>
      match m s (fun s' => if length s' <? length s then star m n' s' k
                           else None) with
      | Some x => Some x
      | None => k s
      end
  end.

(** [rmatch r s k]: match [r] at the start of [s] and continue with [k] on
    the rest; [None] when no way of matching lets [k] succeed. *)
Fixpoint rmatch (r : regex) (s : str) (k : cont) : option str :=
  match r with
  | Chr c =>
      match s with
      | x :: s' => if Ascii.eqb x c then k s' else None
      | [] => None
      end
  | Cls p =>
      match s with
      | x :: s' => if p x then k s' else None
      | [] => None
      end
  | Seq r1 r2 => rmatch r1 s (fun s' => rmatch r2 s' k)
  | Alt r1 r2 =>
      match rmatch r1 s k with
      | Some x => Some x
      | None => rmatch r2 s k
      end
  | Opt r1 =>
      match rmatch r1 s k with
      | Some x => Some x
      | None => k s
      end
  | Star r1 => star (rmatch r1) (length s) s k
  | Plus r1 => rmatch r1 s (fun s' => star (rmatch r1) (length s') s' k)
  | NotAhead r1 =>
      match rmatch r1 s (fun s' => Some s') with
      | Some _ => None
      | None => k s
      end
  end.

(** [re.match(r, s)]: the matched text and the rest of [s]. *)
Definition re_match (r : regex) (s : str) : option (str * str) :=
  match rmatch r s (fun s' => Some s') with
  | Some rest => Some (firstn (length s - length rest) s, rest)
  | None => None
  end.

(** [\d], [.] and negated sets *)
Definition digit : regex := Cls Py.isdigit.
Definition dot : regex :=
  Cls (fun c => negb (Ascii.eqb c Py.nl)).
Definition NoneOf (cs : str) : regex :=
  Cls (fun c => negb (existsb (Ascii.eqb c) cs)).

End Re.

(** ** The expression tree

    Modelled from the spec: the classes of [qz.data.where] ([Where],
    [Column], [Const] and the infix operators [like], [startsWith],
    [endsWith], [isNull], [isNotNull], [inlist], [notinlist]) are imported by
    the source and are not part of it.  The tree is the tagged union of the
    specification: a column reference wraps a name, a constant wraps a
    value, a composite node has an operator tag, a left operand and (for all
    but [not]) a right operand.  The attributes [_format] reads are those of
    this model: [Where(name).left] is [Column(name)], whose [left] is the
    name; [Const(v).left] is [v]; a leaf carries no operator tag. *)
Module QzWhere.

Inductive node :=
| ColumnRef (name : str)
| Const (v : Py.pyobj)
| Composite (op : str) (left : node) (right : option node).

(** [Where(name)] *)
Definition Where (name : str) : node := ColumnRef name.

(** The overloaded Python operators [==], [!=], [<], [>], [<=], [>=], [&],
    [|] and the infix operators [a << op >> b] build a composite node with
    the operator's tag; [~a] builds the unary [not]. *)
Definition binary (op : str) (l r : node) : node := Composite op l (Some r).
Definition invert (w : node) : node := Composite "not" w None.

End QzWhere.

(** ** pyparsing

    The combinators of the pyparsing library the grammar is written with.
    A parser element is a function of the [doActions] flag and of the input
    at the current position; it returns the tokens and the rest of the
    input, or raises.  Every token-level element first skips the default
    whitespace characters.  Packrat memoisation only caches results and is
    not modelled. *)
Module Pyparsing.
Import QzWhere.

(** A token of a [ParseResults] list: a Python value (matched text is a
    string), a tree node, or a nested group. *)
Inductive tok :=
| TObj (o : Py.pyobj)
| TNode (w : node)
| TGroup (g : list tok).

Definition tokens := list tok.
Definition text (s : str) : tok := TObj (Py.Scalar (Py.VStr s)).

Definition parser := bool -> str -> res (tokens * str).

Definition alphas (c : ascii) : bool := Py.isalpha c.
Definition alphanums (c : ascii) : bool := Py.isalnum c.

Definition whitespace (c : ascii) : bool :=
  existsb (Ascii.eqb c) [" "%char; Py.nl; Py.tab; Py.cr].

Fixpoint preParse (s : str) : str :=
  match s with
  | c :: s' => if whitespace c then preParse s' else s
  | [] => []
  end.

Definition Literal (m : str) : parser := fun _ s =>
  let s := preParse s in
  if Py.startswith s m then Ok ([text m], skipn (length m) s)
  else Raise (ParseException s ("Expected " ++ m)).

(** [Keyword.DEFAULT_KEYWORD_CHARS], upper-cased as [Keyword] stores it for
    a caseless keyword. *)
Definition identChars (c : ascii) : bool :=
  Py.isupper c || Py.isdigit c || Ascii.eqb c "_" || Ascii.eqb c "$".

(** [CaselessKeyword(m)]: the next characters equal [m] up to case and the
    character after them is no identifier character; the token is [m] as
    the grammar spells it. *)
Definition CaselessKeyword (m : str) : parser := fun _ s =>
  let s := preParse s in
  if Py.eqb (Py.upper (firstn (length m) s)) (Py.upper m) &&
     match skipn (length m) s with
     | [] => true
     | c :: _ => negb (identChars (Py.upper_char c))
     end
  then Ok ([text m], skipn (length m) s)
  else Raise (ParseException s ("Expected " ++ m)).

Fixpoint span (p : ascii -> bool) (s : str) : str * str :=
  match s with
  | c :: s' => if p c then let (a, b) := span p s' in (c :: a, b) else ([], s)
  | [] => ([], [])
  end.

(** [Word(initChars, bodyChars)] *)
Definition Word (initChars bodyChars : ascii -> bool) : parser := fun _ s =>
  let s := preParse s in
  match s with
  | c :: s' =>
      if initChars c then
        let (body, rest) := span bodyChars s' in Ok ([text (c :: body)], rest)
      else Raise (ParseException s "Expected W:(...)")
  | [] => Raise (ParseException s "Expected W:(...)")
  end.

(** [Regex(r)] *)
Definition Regex (r : Re.regex) : parser := fun _ s =>
  let s := preParse s in
  match Re.re_match r s with
  | Some (m, rest) => Ok ([text m], rest)
  | None => Raise (ParseException s "Expected Re:(...)")
  end.

(** The pattern [QuotedString] compiles for a single-line string: the
    opening quote, then characters other than the end quote, a line break
    and the escape character, or the escape character and any character,
    then the end quote. *)
Definition quoted_pattern (quoteChar : ascii) (escChar : option ascii)
    (endQuoteChar : ascii) : Re.regex :=
  let plain :=
    Re.NoneOf ([endQuoteChar; Py.nl; Py.cr] ++
               match escChar with Some e => [e] | None => [] end) in
  let item :=
    match escChar with
    | Some e => Re.Alt plain (Re.Seq (Re.Chr e) Re.dot)
    | None => plain
    end in
  Re.Seq (Re.Chr quoteChar) (Re.Seq (Re.Star item) (Re.Chr endQuoteChar)).

(** Unquoting drops the escape character in front of an escaped character. *)
Fixpoint drop_escapes (e : ascii) (s : str) : str :=
  match s with
  | c :: s' =>
      if Ascii.eqb c e then
        match s' with
        | x :: s'' =>
            if Ascii.eqb x Py.nl then c :: drop_escapes e s'
            else x :: drop_escapes e s''
        | [] => [c]
        end
      else c :: drop_escapes e s'
  | [] => []
  end.

(** [QuotedString(quoteChar, escChar=.., unquoteResults=.., endQuoteChar=..)] *)
Definition QuotedString (quoteChar : ascii) (escChar : option ascii)
    (unquoteResults : bool) (endQuoteChar : ascii) : parser := fun _ s =>
  let s := preParse s in
  match Re.re_match (quoted_pattern quoteChar escChar endQuoteChar) s with
  | Some (m, rest) =>
      if unquoteResults then
        let inner := removelast (tl m) in
        Ok ([text (match escChar with
                   | Some e => drop_escapes e inner
                   | None => inner
                   end)], rest)
      else Ok ([text m], rest)
  | None => Raise (ParseException s "Expected quoted string")
  end.

(** [And([e1, e2, ...])], written [e1 + e2 + ...] in the grammar *)
Fixpoint And (exprs : list parser) : parser := fun doActions s =>
  match exprs with
  | [] => Ok ([], s)
  | e :: exprs' =>
      r1 <- e doActions s ;;
      r2 <- And exprs' doActions (snd r1) ;;
      Ok (fst r1 ++ fst r2, snd r2)
  end.

(** [MatchFirst([e1, e2, ...])], written [e1 | e2 | ...]: the first
    alternative that matches; when none does, the failure that got furthest. *)
Fixpoint MatchFirst_from (maxExc : option (str * str)) (exprs : list parser)
  : parser := fun doActions s =>
  match exprs with
  | [] =>
      match maxExc with
      | Some (r, m) => Raise (ParseException r m)
      | None => Raise (ParseException s "no defined alternatives to match")
      end
  | e :: exprs' =>
      match e doActions s with
      | Raise (ParseException r m) =>
          let maxExc' :=
            match maxExc with
            | Some (r0, _) => if length r <? length r0 then Some (r, m) else maxExc
            | None => Some (r, m)
            end in
          MatchFirst_from maxExc' exprs' doActions s
      | other => other
      end
  end.

Definition MatchFirst (exprs : list parser) : parser := MatchFirst_from None exprs.

Definition Optional (e : parser) : parser := fun doActions s =>
  match e doActions s with
  | Raise (ParseException _ _) => Ok ([], preParse s)
  | other => other
  end.

(** The loop of [ZeroOrMore] and [OneOrMore]: repeat [e] until it fails.
    An iteration that matches without consuming input would repeat for
    ever. *)
Fixpoint repeat_expr (e : parser) (n : nat) : parser := fun doActions s =>
  match n with
  | 0 => Raise RecursionError
  | S n' =>
      match e doActions s with
      | Ok (t, s') =>
          if length s' <? length s then
            r <- repeat_expr e n' doActions s' ;;
            Ok (t ++ fst r, snd r)
          else Raise RecursionError
      | Raise (ParseException _ _) => Ok ([], s)
      | Raise x => Raise x
      end
  end.

Definition ZeroOrMore (e : parser) : parser := fun doActions s =>
  repeat_expr e (S (length s)) doActions (preParse s).

Definition OneOrMore (e : parser) : parser := fun doActions s =>
  r1 <- e doActions s ;;
  r2 <- repeat_expr e (S (length (snd r1))) doActions (snd r1) ;;
  Ok (fst r1 ++ fst r2, snd r2).

(** [FollowedBy(e)]: lookahead through [tryParse], which runs [e] without
    its parse actions and turns a fatal failure into an ordinary one. *)
Definition FollowedBy (e : parser) : parser := fun _ s =>
  match e false s with
  | Ok _ => Ok ([], preParse s)
  | Raise (ParseFatalException _ _) =>
      Raise (ParseException (preParse s) "Expected lookahead")
  | Raise x => Raise x
  end.

Definition Group (e : parser) : parser := fun doActions s =>
  r <- e doActions s ;; Ok ([TGroup (fst r)], snd r).

Definition Suppress (e : parser) : parser := fun doActions s =>
  r <- e doActions s ;; Ok ([], snd r).

(** [e.setParseAction(fn)]: [fn] rewrites the tokens of a match, unless the
    match is a lookahead. *)
Definition setParseAction (e : parser) (fn : tokens -> res tokens) : parser :=
  fun doActions s =>
    r <- e doActions s ;;
    if doActions then t <- fn (fst r) ;; Ok (t, snd r) else Ok r.

(** [e.setFailAction(fn)]: [fn] is called with the position and the error
    when [e] fails to parse; unless [fn] raises, the error is raised again. *)
Definition setFailAction (e : parser) (fn : str -> exn -> res unit) : parser :=
  fun doActions s =>
    match e doActions s with
    | Raise (ParseException r m) =>
        _ <- fn (preParse s) (ParseException r m) ;; Raise (ParseException r m)
    | Raise (ParseFatalException r m) =>
        _ <- fn (preParse s) (ParseFatalException r m) ;;
        Raise (ParseFatalException r m)
    | other => other
    end.

(** [Forward()]: a parser that refers to itself.  Each reference is
    unfolded once more; the grammar may recurse only after consuming input,
    so a depth beyond the length of the input is unbounded recursion. *)
Fixpoint Forward_depth (n : nat) (body : parser -> parser) : parser :=
  fun doActions s =>
    match n with
    | 0 => Raise RecursionError
    | S n' => body (Forward_depth n' body) doActions s
    end.

Definition Forward (body : parser -> parser) : parser := fun doActions s =>
  Forward_depth (S (length s)) body doActions s.

Inductive opAssoc := LEFT | RIGHT.

Definition opDef : Type := parser * nat * opAssoc * (tokens -> res tokens).

(** One level of [operatorPrecedence]: [thisExpr <<= matchExpr | lastExpr]. *)
Definition opLevel (lastExpr : parser) (operDef : opDef) : parser :=
  let '(opExpr, arity, rightLeftAssoc, pa) := operDef in
  Forward (fun thisExpr =>
    let matchExpr :=
      match rightLeftAssoc, arity with
      | LEFT, 1 =>
          And [FollowedBy (And [lastExpr; opExpr]);
               Group (And [lastExpr; OneOrMore opExpr])]
      | LEFT, 2 =>
          And [FollowedBy (And [lastExpr; opExpr; lastExpr]);
               Group (And [lastExpr; OneOrMore (And [opExpr; lastExpr])])]
      | RIGHT, 1 =>
          And [FollowedBy (And [opExpr; thisExpr]);
               Group (And [Optional opExpr; thisExpr])]
      | RIGHT, 2 =>
          And [FollowedBy (And [lastExpr; opExpr; thisExpr]);
               Group (And [lastExpr; OneOrMore (And [opExpr; thisExpr])])]
      | _, _ => fun _ _ =>
          Raise (ValueError "operator must be unary (1), binary (2), or ternary (3)")
      end in
    MatchFirst [setParseAction matchExpr pa; lastExpr]).

(** [operatorPrecedence(baseExpr, opList)].  The result [ret] is the
    [Forward] the bracketed sub-expression refers to; [onRet] is what the
    caller attaches to that object after building it (the source sets a
    fail action on it), so that the references inside see it too. *)
Definition operatorPrecedence (baseExpr : parser) (opList : list opDef)
    (onRet : parser -> parser) : parser :=
  Forward (fun ret =>
    onRet (fold_left opLevel opList
             (MatchFirst [baseExpr;
                          And [Suppress (Literal "("); ret; Suppress (Literal ")")]]))).

Definition StringStart : parser := fun _ s => Ok ([], s).

Definition StringEnd : parser := fun _ s =>
  match preParse s with
  | [] => Ok ([], [])
  | s' => Raise (ParseException s' "Expected end of text")
  end.

(** [e.parseString(instring)] *)
Definition parseString (e : parser) (instring : str) : res tokens :=
  r <- e true (Py.expandtabs instring) ;; Ok (fst r).

End Pyparsing.

(** ** [examples/whereexp.py] *)
Module Whereexp.
Import QzWhere Pyparsing.

Definition STRING_CONSTANT : parser :=
  MatchFirst [QuotedString Py.squote (Some Py.bslash) false Py.squote;
              QuotedString Py.dquote (Some Py.bslash) false Py.dquote].

(** [-?\d+(?!\.)] *)
Definition INT_CONSTANT_re : Re.regex :=
  Re.Seq (Re.Opt (Re.Chr "-"))
         (Re.Seq (Re.Plus Re.digit) (Re.NotAhead (Re.Chr "."))).
Definition INT_CONSTANT : parser := Regex INT_CONSTANT_re.

(** [-?\d*\.\d+] *)
Definition FLOAT_CONSTANT_re : Re.regex :=
  Re.Seq (Re.Opt (Re.Chr "-"))
         (Re.Seq (Re.Star Re.digit) (Re.Seq (Re.Chr ".") (Re.Plus Re.digit))).
Definition FLOAT_CONSTANT : parser := Regex FLOAT_CONSTANT_re.

(** [lambda toks: ast.literal_eval(toks[0])] *)
Definition eval_constant (toks : tokens) : res tokens :=
  match toks with
  | TObj (Py.Scalar (Py.VStr t)) :: _ =>
      v <- Py.literal_eval t ;; Ok [TObj (Py.Scalar v)]
  | _ :: _ => Raise (ValueError "malformed string")
  | [] => Raise (IndexError "list index out of range")
  end.

Definition CONSTANT : parser :=
  setParseAction (MatchFirst [STRING_CONSTANT; FLOAT_CONSTANT; INT_CONSTANT])
                 eval_constant.

Definition COMMA : parser := Literal ",".

(** [toks[1:-1:2]] *)
Fixpoint every_other {A} (l : list A) : list A :=
  match l with
  | x :: _ :: l' => x :: every_other l'
  | l' => l'
  end.

Definition slice_1_m1_2 {A} (l : list A) : list A :=
  every_other (removelast (tl l)).

Fixpoint values_of (toks : tokens) : res (list Py.value) :=
  match toks with
  | [] => Ok []
  | TObj (Py.Scalar v) :: toks' => vs <- values_of toks' ;; Ok (v :: vs)
  | _ :: _ => Raise (NotModelled "a list of objects other than constants")
  end.

(** [return [toks[1:-1:2]]]: the returned list holds one token, the list
    of the constants. *)
Definition parseList (toks : tokens) : res tokens :=
  vs <- values_of (slice_1_m1_2 toks) ;; Ok [TObj (Py.PyList vs)].

(** [fail(expr, name)]: a fail action that raises [ParseFatalException]
    unless the failure already is one. *)
Definition fail (expr : parser) (name : str) : parser :=
  setFailAction expr (fun loc err =>
    match err with
    | ParseFatalException _ _ => Ok tt
    | _ => Raise (ParseFatalException loc ("Expected " ++ name))
    end).

Definition LIST : parser :=
  fail (setParseAction
          (And [Literal "["; CONSTANT; ZeroOrMore (And [COMMA; CONSTANT]);
                Optional COMMA; Literal "]"])
          parseList)
       "list".

(** [lambda toks: Where(toks[0])] *)
Definition make_identifier (toks : tokens) : res tokens :=
  match toks with
  | TObj (Py.Scalar (Py.VStr n)) :: _ => Ok [TNode (Where n)]
  | _ :: _ => Raise (NotModelled "Where of an object other than a name")
  | [] => Raise (IndexError "list index out of range")
  end.

Definition IDENTIFIER : parser :=
  setParseAction
    (MatchFirst [Word alphas alphanums;
                 QuotedString "[" None true "]"])
    make_identifier.

Definition VALUE : parser := MatchFirst [CONSTANT; IDENTIFIER].

(** [==?] *)
Definition OPERATOR : parser :=
  MatchFirst [Regex (Re.Seq (Re.Chr "=") (Re.Opt (Re.Chr "=")));
              Literal "!=";
              Literal "<>";
              Literal ">=";
              Literal "<=";
              Literal ">";
              Literal "<";
              CaselessKeyword "like"].

(** Modelled from the spec: the operators of [qz.data.where] applied to the
    tokens of a match.  The left operand is a tree node; a right operand
    that is a plain Python value is wrapped into a [Const]. *)
Definition operand (t : tok) : res node :=
  match t with
  | TNode w => Ok w
  | TObj o => Ok (Const o)
  | TGroup _ => Raise (NotModelled "a ParseResults object as an operand")
  end.

Definition apply_op (op : str) (l r : tok) : res node :=
  match l with
  | TNode a => b <- operand r ;; Ok (binary op a b)
  | _ => Raise (NotModelled "an operator applied to an object other than a Where")
  end.

Definition operator_eq := apply_op "==".
Definition operator_ne := apply_op "!=".
Definition operator_lt := apply_op "<".
Definition operator_gt := apply_op ">".
Definition operator_le := apply_op "<=".
Definition operator_ge := apply_op ">=".
Definition operator_and_ := apply_op "and".
Definition operator_or_ := apply_op "or".
Definition operator_invert (v : tok) : res node :=
  match v with
  | TNode a => Ok (invert a)
  | _ => Raise (TypeError "bad operand type for unary ~")
  end.

Definition like := apply_op "like".
Definition startsWith := apply_op "startsWith".
Definition endsWith := apply_op "endsWith".
Definition isNull := apply_op "isNull".
Definition isNotNull := apply_op "isNotNull".
Definition inlist := apply_op "inlist".
Definition notinlist := apply_op "notinlist".

Definition None_ : tok := TObj (Py.Scalar Py.VNone).

Definition make_like (a b : tok) : res node :=
  if negb (match b with TObj o => Py.is_basestring o | _ => false end) then
    Raise (ValueError "LIKE operator requires a string on the rhs.")
  else
    match b with
    | TObj (Py.Scalar (Py.VStr s)) =>
        let ps := Py.count s "%" in
        if ps =? 0 then operator_eq a b
        else
          match
            (if ps =? 1 then
               if Py.startswith s "%" then Some (endsWith a (text (tl s)))
               else if Py.endswith s "%" then Some (startsWith a (text (removelast s)))
               else None
             else None)
          with
          | Some r => r
          | None =>
              match
                (if ps =? 2 then
                   if Py.startswith s "%" && Py.endswith s "%"
                   then Some (like a (text (removelast (tl s))))
                   else None
                 else None)
              with
              | Some r => r
              | None =>
                  Raise (ValueError ("Unsupported LIKE pattern '" ++ s ++ "'."))
              end
          end
    | _ => Raise (ValueError "LIKE operator requires a string on the rhs.")
    end.

Definition OPS : list (str * (tok -> tok -> res node)) :=
  [("==", operator_eq);
   ("=", operator_eq);
   ("!=", operator_ne);
   ("<>", operator_ne);
   ("<", operator_lt);
   (">", operator_gt);
   ("<=", operator_le);
   (">=", operator_ge);
   ("like", make_like)].

Definition INFIX_TEST_expr : parser := And [IDENTIFIER; OPERATOR; VALUE].

Definition IS : parser := CaselessKeyword "is".
Definition NOT : parser := CaselessKeyword "not".
Definition NULL : parser := CaselessKeyword "null".
Definition IN : parser := CaselessKeyword "in".

Definition unpack_error : exn := ValueError "wrong number of values to unpack".

Definition parseTest (toks : tokens) : res tokens :=
  match toks with
  | [l; TObj (Py.Scalar (Py.VStr op)); r] =>
      match Py.dict_get OPS op with
      | Some f => w <- f l r ;; Ok [TNode w]
      | None => Raise (KeyError op)
      end
  | [_; _; _] => Raise (KeyError [])
  | _ => Raise unpack_error
  end.

Definition parseNullTest (toks : tokens) : res tokens :=
  match toks with
  | t0 :: _ => w <- isNull t0 None_ ;; Ok [TNode w]
  | [] => Raise (IndexError "list index out of range")
  end.

Definition parseNotNullTest (toks : tokens) : res tokens :=
  match toks with
  | t0 :: _ => w <- isNotNull t0 None_ ;; Ok [TNode w]
  | [] => Raise (IndexError "list index out of range")
  end.

Definition parseInList (toks : tokens) : res tokens :=
  match toks with
  | t0 :: _ :: t2 :: _ => w <- inlist t0 t2 ;; Ok [TNode w]
  | _ => Raise (IndexError "list index out of range")
  end.

Definition parseNotInList (toks : tokens) : res tokens :=
  match toks with
  | t0 :: _ :: _ :: t3 :: _ => w <- notinlist t0 t3 ;; Ok [TNode w]
  | _ => Raise (IndexError "list index out of range")
  end.

Definition INFIX_TEST : parser := setParseAction INFIX_TEST_expr parseTest.
Definition NULL_TEST : parser :=
  setParseAction (And [IDENTIFIER; IS; NULL]) parseNullTest.
Definition NOT_NULL_TEST : parser :=
  setParseAction (And [IDENTIFIER; IS; NOT; NULL]) parseNotNullTest.
Definition INLIST_TEST : parser :=
  setParseAction (And [IDENTIFIER; IN; LIST]) parseInList.
Definition NOT_INLIST_TEST : parser :=
  setParseAction (And [IDENTIFIER; NOT; IN; LIST]) parseNotInList.

Definition TEST : parser :=
  MatchFirst [INFIX_TEST; NULL_TEST; NOT_NULL_TEST; INLIST_TEST; NOT_INLIST_TEST].

Definition INFIX_OPS : list (str * (tok -> tok -> res node)) :=
  [("and", operator_and_);
   ("or", operator_or_)].

(** The loop of [infix]: [toks] is what is left of the group after [v]. *)
Fixpoint infix_loop (v : tok) (toks : tokens) : res tok :=
  match toks with
  | [] => Ok v
  | [_] => Raise unpack_error
  | op :: r :: toks' =>
      match op with
      | TObj (Py.Scalar (Py.VStr o)) =>
          match Py.dict_get INFIX_OPS (Py.lower o) with
          | Some f => w <- f v r ;; infix_loop (TNode w) toks'
          | None => Raise (ValueError ("Invalid op " ++ o))
          end
      | _ => Raise (AttributeError "lower")
      end
  end.

Definition infix (toks : tokens) : res tokens :=
  match toks with
  | TGroup (v :: toks0) :: _ => w <- infix_loop v toks0 ;; Ok [w]
  | TGroup [] :: _ => Raise (IndexError "pop from empty list")
  | _ :: _ => Raise (AttributeError "pop")
  | [] => Raise (IndexError "list index out of range")
  end.

Definition unary (op : tok -> res node) (toks : tokens) : res tokens :=
  match toks with
  | TGroup [_; v] :: _ => w <- op v ;; Ok [TNode w]
  | TGroup _ :: _ => Raise unpack_error
  | _ :: _ => Raise (TypeError "object is not iterable")
  | [] => Raise (IndexError "list index out of range")
  end.

Definition EXPRESSION : parser :=
  operatorPrecedence TEST
    [(NOT, 1, RIGHT, unary operator_invert);
     (MatchFirst [CaselessKeyword "and"; CaselessKeyword "or"], 2, LEFT, infix)]
    (fun ret => fail ret "expression").

Definition WHEREEXP : parser := And [StringStart; EXPRESSION; StringEnd].

(** [where(expr)]: [WHEREEXP.parseString(expr)[0]] *)
Definition where_ (expr : str) : res tok :=
  toks <- parseString WHEREEXP expr ;;
  match toks with
  | t :: _ => Ok t
  | [] => Raise (IndexError "list index out of range")
  end.

Definition LOGICAL : list str := ["and"; "or"].

(** [w.op] of a node; a leaf has none. *)
Definition node_op (w : node) : option str :=
  match w with
  | Composite op _ _ => Some op
  | _ => None
  end.

Definition same_op (a : option str) (op : str) : bool :=
  match a with
  | Some x => Py.eqb x op
  | None => false
  end.

Definition no_left : exn :=
  AttributeError "'NoneType' object has no attribute 'left'".

(** [w.right.left] *)
Definition right_left (r : option node) : res Py.pyobj :=
  match r with
  | Some (Const v) => Ok v
  | Some (ColumnRef _) => Raise (NotModelled "the text of a Column object")
  | Some (Composite _ _ _) => Raise (NotModelled "the text of a Where object")
  | None => Raise no_left
  end.

Definition indent : str := repeat " "%char 4.

Fixpoint _format (w : node) (bracket breakAfterLogicOp : bool) : res str :=
  match w with
  | ColumnRef n =>
      if Py.contains n " " then Ok ("[" ++ n ++ "]") else Ok n
  | Const v => Py.repr v
  | Composite op l r =>
      let right (bracket : bool) : res str :=
        match r with
        | Some x => _format x bracket false
        | None => Raise no_left
        end in
      match op with
      | [] => Raise (ValueError "Unsupported object")
      | _ =>
          if Py.contains "!= == <> >= <=" op then
            a <- _format l false false ;;
            b <- right false ;;
            Ok (a ++ " " ++ op ++ " " ++ b)
          else if Py.eqb op "isNull" then
            a <- _format l false false ;; Ok (a ++ " IS NULL")
          else if Py.eqb op "isNotNull" then
            a <- _format l false false ;; Ok (a ++ " IS NOT NULL")
          else if Py.eqb op "like" then
            a <- _format l false false ;;
            v <- right_left r ;;
            t <- Py.to_str v ;;
            Ok (a ++ " LIKE " ++ Py.repr_str ("%" ++ t ++ "%"))
          else if Py.eqb op "startsWith" then
            a <- _format l false false ;;
            v <- right_left r ;;
            t <- Py.to_str v ;;
            Ok (a ++ " LIKE " ++ Py.repr_str (t ++ "%"))
          else if Py.eqb op "endsWith" then
            a <- _format l false false ;;
            v <- right_left r ;;
            t <- Py.to_str v ;;
            Ok (a ++ " LIKE " ++ Py.repr_str ("%" ++ t))
          else if Py.eqb op "inlist" then
            a <- _format l false false ;;
            v <- right_left r ;;
            t <- Py.repr v ;;
            Ok (a ++ " IN " ++ t)
          else if Py.eqb op "notinlist" then
            a <- _format l false false ;;
            v <- right_left r ;;
            t <- Py.repr v ;;
            Ok (a ++ " NOT IN " ++ t)
          else if Py.eqb op "not" then
            a <- _format l true true ;; Ok ("NOT " ++ a)
          else if existsb (Py.eqb op) LOGICAL then
            let chained := same_op (node_op l) op in
            a <- (if chained then _format l false true else _format l true false) ;;
            b <- right true ;;
            let breakAfterLogicOp := if chained then true else breakAfterLogicOp in
            let exp :=
              if breakAfterLogicOp
              then a ++ " " ++ Py.upper op ++ [Py.nl] ++ b
              else Py.join " " [a; Py.upper op; b] in
            if bracket then
              Ok ("(" ++ [Py.nl] ++
                  Py.join [Py.nl] (map (fun l => indent ++ l) (Py.splitlines exp)) ++
                  [Py.nl] ++ ")")
            else Ok exp
          else Raise (ValueError ("Unknown operation " ++ op))
      end
  end.

(** [formatWhere(where)] *)
Definition formatWhere (w : node) : res str := _format w false false.

End Whereexp.

(** ** Vocabulary of the properties *)

Import QzWhere Pyparsing Whereexp.

(** Abbreviations for the trees of the examples. *)
Definition str_const (s : str) : node := Const (Py.Scalar (Py.VStr s)).
Definition int_const (z : Z) : node := Const (Py.Scalar (Py.VInt z)).
Definition list_const (l : list Py.value) : node := Const (Py.PyList l).

(** The tokens of a match of [<identifier> like <value>] and the result the
    semantic action [parseTest] computes from them. *)
Definition like_tokens (a : node) (b : tok) : tokens :=
  [TNode a; text "like"; b].

(** The comparison [name == z] of the examples. *)
Definition eq_int (name : str) (z : Z) : node :=
  Composite "==" (ColumnRef name) (Some (int_const z)).

(** The tokens of a tier-2 group: the first operand, then operator tokens
    and operands in turn. *)
Fixpoint chain_tokens (rest : list (str * node)) : tokens :=
  match rest with
  | [] => []
  | (op, r) :: rest' => text op :: TNode r :: chain_tokens rest'
  end.

(** The left-nested tree of a chain. *)
Definition fold_chain (v : node) (rest : list (str * node)) : node :=
  fold_left (fun acc p => Composite (fst p) acc (Some (snd p))) rest v.

(** The tokens of a list literal: the brackets, the constants with a comma
    between them, and the optional trailing comma. *)
Fixpoint comma_separated (vs : list Py.value) (trailing : bool) : tokens :=
  match vs with
  | [] => []
  | [v] => TObj (Py.Scalar v) :: (if trailing then [text ","] else [])
  | v :: vs' => TObj (Py.Scalar v) :: text "," :: comma_separated vs' trailing
  end.

Definition list_tokens (vs : list Py.value) (trailing : bool) : tokens :=
  text "[" :: comma_separated vs trailing ++ [text "]"].

Definition digits (s : str) : Prop := Forall (fun c => Py.isdigit c = true) s.

(** The shape of a float literal in the words of the specification:
    an optional [-], digits, a decimal point, digits, where "digits" is one
    or more. *)
Definition float_shape_claimed (s : str) : Prop :=
  exists sign ip fp,
    s = sign ++ ip ++ "." ++ fp /\ (sign = [] \/ sign = "-") /\
    digits ip /\ ip <> [] /\ digits fp /\ fp <> [].

(** The shape with no digit required before the point. *)
Definition float_shape (s : str) : Prop :=
  exists sign ip fp,
    s = sign ++ ip ++ "." ++ fp /\ (sign = [] \/ sign = "-") /\
    digits ip /\ digits fp /\ fp <> [].

(** The operator tags of the specification. *)
Definition vocabulary : list str :=
  ["=="; "!="; "<>"; "<"; ">"; "<="; ">="; "like"; "startsWith"; "endsWith";
   "isNull"; "isNotNull"; "inlist"; "notinlist"; "not"; "and"; "or"].

(** The layout of a bracketed AND/OR node: the rendered expression between
    parentheses on lines of their own, each of its lines behind four
    spaces. *)
Definition bracketed (exp : str) : str :=
  "(" ++ [Py.nl] ++
  Py.join [Py.nl] (map (fun l => "    " ++ l) (Py.splitlines exp)) ++
  [Py.nl] ++ ")".

(** [raises_only allowed p]: whatever [p] raises is [allowed]. *)
Definition raises_only (allowed : exn -> Prop) (p : parser) : Prop :=
  forall b s e, p b s = Raise e -> allowed e.

(** With its actions run, [p] yields exactly one token, a tree node. *)
Definition single (p : parser) : Prop :=
  forall s toks rest, p true s = Ok (toks, rest) -> exists w, toks = [TNode w].

(** The error of the invalid-operator branch of [infix]. *)
Definition invalid_op (e : exn) : Prop :=
  exists o, e = ValueError ("Invalid op " ++ o).

Definition logical_op (p : str * node) : Prop := fst p = "and" \/ fst p = "or".

(** The invariant of the expression grammar: no invalid-operator error,
    and one node per match. *)
Definition no_invalid_op (p : parser) : Prop :=
  raises_only (fun e => ~ invalid_op e) p.

Definition good (p : parser) : Prop := no_invalid_op p /\ single p.

(** The operator expression of tier 2. *)
Definition AND_OR : parser := MatchFirst [CaselessKeyword "and"; CaselessKeyword "or"].

Definition all_ws (ws : str) : Prop := Forall (fun c => whitespace c = true) ws.

(** The next character, if any, ends a number, a name or a keyword. *)
Definition boundary (rest : str) : Prop :=
  forall c r, rest = c :: r ->
    Py.isalnum c = false /\ c <> "."%char /\ c <> "_"%char /\ c <> "$"%char.

(** [p] fails at [s] with an ordinary, backtrackable error. *)
Definition fails (p : parser) (b : bool) (s : str) : Prop :=
  exists r m, p b s = Raise (ParseException r m).

(** [p] matches [s] up to [rest]; with its actions run it yields [toks]. *)
Definition yields (p : parser) (b : bool) (s : str) (toks : tokens) (rest : str) : Prop :=
  exists t, p b s = Ok (t, rest) /\ (b = true -> t = toks).

(** One item of a quoted string with escape character [\]: a plain
    character, or a backslash and the character it escapes. *)
Definition string_plain (q : ascii) : ascii -> bool :=
  fun c => negb (existsb (Ascii.eqb c) ([q; Py.nl; Py.cr] ++ [Py.bslash])).
Definition string_item (q : ascii) : Re.regex :=
  Re.Alt (Re.Cls (string_plain q)) (Re.Seq (Re.Chr Py.bslash) Re.dot).

(** No line break and no tab. *)
Definition plain_text (s : str) : Prop :=
  Forall (fun c => c <> Py.nl /\ c <> Py.cr /\ c <> Py.tab) s.

(** *** The trees that survive the round trip *)

Definition int_in_range (z : Z) : bool :=
  ((- Py.maxint - 1 <=? z) && (z <=? Py.maxint))%Z.

(** Constants: strings and machine integers. *)
Definition value_ok (v : Py.value) : bool :=
  match v with
  | Py.VInt z => int_in_range z
  | Py.VStr _ => true
  | _ => false
  end.

Definition bare_name (n : str) : bool :=
  match n with
  | c :: cs => Py.isalpha c && forallb Py.isalnum cs
  | [] => false
  end.

Definition bracket_char (c : ascii) : bool :=
  negb (Ascii.eqb c "]" || Ascii.eqb c Py.nl || Ascii.eqb c Py.cr ||
        Ascii.eqb c Py.tab).

(** Names: a letter followed by letters and digits, or a name with a space
    and without [']'], line break and tab. *)
Definition name_ok (n : str) : bool :=
  if Py.contains n " " then forallb bracket_char n else bare_name n.

(** The name of a left operand is not the keyword NOT. *)
Definition left_name_ok (n : str) : bool :=
  name_ok n && negb (Py.eqb (Py.upper n) "NOT").

Definition operand_ok (w : node) : bool :=
  match w with
  | Const (Py.Scalar v) => value_ok v
  | ColumnRef n => name_ok n
  | _ => false
  end.

Definition comparison_ops : list str := ["=="; "!="; "<"; ">"; "<="; ">="].

Definition no_percent (s : str) : bool := negb (existsb (Ascii.eqb "%") s).

Definition test_ok (op : str) (r : option node) : bool :=
  if existsb (Py.eqb op) comparison_ops then
    match r with Some w => operand_ok w | None => false end
  else if Py.eqb op "like" || Py.eqb op "endsWith" then
    match r with
    | Some (Const (Py.Scalar (Py.VStr s))) => no_percent s
    | _ => false
    end
  else if Py.eqb op "startsWith" then
    match r with
    | Some (Const (Py.Scalar (Py.VStr (c :: s)))) => no_percent (c :: s)
    | _ => false
    end
  else if Py.eqb op "isNull" || Py.eqb op "isNotNull" then
    match r with
    | Some (Const (Py.Scalar Py.VNone)) => true
    | _ => false
    end
  else if Py.eqb op "inlist" || Py.eqb op "notinlist" then
    match r with
    | Some (Const (Py.PyList (v :: vs))) => forallb value_ok (v :: vs)
    | _ => false
    end
  else false.

Fixpoint canonical (w : node) : bool :=
  match w with
  | Composite op l r =>
      if Py.eqb op "not" then
        match r with None => canonical l | Some _ => false end
      else if existsb (Py.eqb op) LOGICAL then
        match r with Some x => canonical l && canonical x | None => false end
      else
        match l with
        | ColumnRef n => left_name_ok n && test_ok op r
        | _ => false
        end
  | _ => false
  end.

(** The text [_format] writes for a column name. *)
Definition name_text (n : str) : str :=
  if Py.contains n " " then "[" ++ n ++ "]" else n.

(** The token of a right operand, and the text [_format] writes for it. *)
Definition operand_token (w : node) : tok :=
  match w with
  | Const o => TObj o
  | _ => TNode w
  end.

Definition value_text (v : Py.value) : str :=
  match v with
  | Py.VInt z => Py.str_int z
  | Py.VStr x => Py.repr_str x
  | _ => []
  end.

Definition operand_text (w : node) : str :=
  match w with
  | Const (Py.Scalar v) => value_text v
  | ColumnRef n => name_text n
  | _ => []
  end.

(** The first character is no whitespace. *)
Definition starts_token (s : str) : Prop :=
  exists c t, s = c :: t /\ whitespace c = false.

(** The text and the tokens of the items of a list after the first. *)
Definition more_items_text (vs : list Py.value) : str :=
  flat_map (fun v => ", " ++ value_text v) vs.

Definition more_items_tokens (vs : list Py.value) : tokens :=
  flat_map (fun v => [text ","; TObj (Py.Scalar v)]) vs.

Definition list_text (v : Py.value) (vs : list Py.value) : str :=
  "[" ++ value_text v ++ more_items_text vs ++ "]".

Definition None_const : node := Const (Py.Scalar Py.VNone).

(** *** Layout *)

(** [k] more levels of indentation: [4 * k] spaces after every line break. *)
Definition reindent (k : nat) (s : str) : str :=
  flat_map (fun c => if Ascii.eqb c Py.nl then Py.nl :: repeat " "%char (4 * k)
                     else [c]) s.

(** A rendered expression: no carriage return and no tab, a first
    character that is no whitespace, and no line break at the end. *)
Definition good_text (s : str) : Prop :=
  Forall (fun c => c <> Py.cr /\ c <> Py.tab) s /\
  starts_token s /\
  exists t c, s = t ++ [c] /\ c <> Py.nl.

(** *** The tiers of the expression grammar *)

Definition NOT_def : opDef := (NOT, 1, RIGHT, unary operator_invert).
Definition AND_OR_def : opDef := (AND_OR, 2, LEFT, infix).

(** The base of the tiers: a test or a bracketed expression. *)
Definition ATOM (ret : parser) : parser :=
  MatchFirst [TEST; And [Suppress (Literal "("); ret; Suppress (Literal ")")]].

(** The tier of NOT, [thisExpr <<= matchExpr | lastExpr]. *)
Definition NOT_body (last this : parser) : parser :=
  MatchFirst [setParseAction
                (And [FollowedBy (And [NOT; this]);
                      Group (And [Optional NOT; this])])
                (unary operator_invert);
              last].

(** An operand of AND and OR, with [m] references to itself left. *)
Definition OPERAND_depth (m : nat) (ret : parser) : parser :=
  Forward_depth m (NOT_body (ATOM ret)).

Definition OPERAND (ret : parser) : parser := opLevel (ATOM ret) NOT_def.

(** The tier of AND and OR: an operator and an operand; a chain of them. *)
Definition PAIR (last : parser) : parser := And [AND_OR; last].

Definition CHAIN (last : parser) : parser :=
  And [FollowedBy (And [last; AND_OR; last]);
       Group (And [last; OneOrMore (PAIR last)])].

(** The expression a reference to [ret] stands for, and [ret] with [n]
    references to itself left. *)
Definition RET_body (ret : parser) : parser :=
  fail (opLevel (OPERAND ret) AND_OR_def) "expression".

Definition RET (n : nat) : parser := Forward_depth n RET_body.

(** What follows an expression: the end of the text or a closing bracket. *)
Definition closes (rest : str) : Prop :=
  preParse rest = [] \/ exists r, preParse rest = ")" ++ r.

(** [p] matches the operator and the operand of each pair of [ps] in
    turn, from [s] up to [rest]. *)
Fixpoint steps (p : parser) (b : bool) (s : str) (ps : list (str * node))
    (rest : str) : Prop :=
  match ps with
  | [] => s = rest
  | q :: ps' =>
      exists s', yields p b s [text (fst q); TNode (snd q)] s' /\
                 length s' < length s /\ steps p b s' ps' rest
  end.

(** *** The round trip, operand by operand *)

(** [txt], at any depth of indentation and read as an operand, gives [T]. *)
Definition parses_operand (T : node) (txt : str) : Prop :=
  forall n m b ws k rest,
    length txt <= n -> length txt < m -> all_ws ws -> boundary rest ->
    yields (OPERAND_depth m (RET n)) b (ws ++ reindent k txt ++ rest) [TNode T] rest.

(** [txt] reads as the operand [w0] and the pairs [ps] after it. *)
Definition parses_chain (w0 : node) (ps : list (str * node)) (txt : str) : Prop :=
  forall n b ws k rest,
    length txt <= n -> all_ws ws -> boundary rest ->
    exists s1,
      yields (OPERAND (RET n)) b (ws ++ reindent k txt ++ rest) [TNode w0] s1 /\
      steps (PAIR (OPERAND (RET n))) b s1 ps rest.

(** What [_format] writes for [T] with brackets requested reads back as
    the operand [T]; what it writes without reads back as a chain that
    folds to [T]. *)
Definition operand_inv (T : node) : Prop :=
  forall brk, exists txt,
    _format T true brk = Ok txt /\ good_text txt /\ parses_operand T txt.

Definition chain_inv (T : node) : Prop :=
  forall brk, exists txt w0 ps,
    _format T false brk = Ok txt /\ good_text txt /\
    fold_chain w0 ps = T /\ Forall logical_op ps /\ parses_chain w0 ps txt.

(** A tree with every kind of node: tests on a plain and on a bracketed
    column name, a string that needs escaping, a list, NOT, and AND and OR
    nested in each other. *)
Definition example_tree : node :=
  Composite "or"
    (Composite "and" (eq_int "a" 1)
       (Some (Composite "not"
                (Composite "or"
                   (Composite "like" (ColumnRef "b c") (Some (str_const "x'y")))
                   (Some (Composite "isNull" (ColumnRef "d") (Some None_const))))
                None)))
    (Some (Composite "notinlist" (ColumnRef "e")
             (Some (list_const [Py.VInt (-3); Py.VStr "z"])))).

(** *** The trees the parser builds *)

(** The operator tokens of the grammar. *)
Definition operators : list str :=
  ["="; "=="; "!="; "<>"; ">="; "<="; ">"; "<"; "like"].

(** A test as the semantic actions build it: a comparison with a constant
    or a column; a LIKE node on a string without [%]; a null test; a
    membership test on a list that is not empty. *)
Definition parsed_test (op : str) (r : option node) : bool :=
  if existsb (Py.eqb op) comparison_ops then
    match r with
    | Some (Const (Py.Scalar Py.VNone)) => false
    | Some (Const (Py.Scalar _)) => true
    | Some (ColumnRef _) => true
    | _ => false
    end
  else if Py.eqb op "like" || Py.eqb op "endsWith" then
    match r with
    | Some (Const (Py.Scalar (Py.VStr s))) => no_percent s
    | _ => false
    end
  else if Py.eqb op "startsWith" then
    match r with
    | Some (Const (Py.Scalar (Py.VStr (c :: s)))) => no_percent (c :: s)
    | _ => false
    end
  else if Py.eqb op "isNull" || Py.eqb op "isNotNull" then
    match r with
    | Some (Const (Py.Scalar Py.VNone)) => true
    | _ => false
    end
  else if Py.eqb op "inlist" || Py.eqb op "notinlist" then
    match r with
    | Some (Const (Py.PyList (_ :: _))) => true
    | _ => false
    end
  else false.

Fixpoint parsed (w : node) : bool :=
  match w with
  | Composite op l r =>
      if Py.eqb op "not" then
        match r with None => parsed l | Some _ => false end
      else if existsb (Py.eqb op) LOGICAL then
        match r with Some x => parsed l && parsed x | None => false end
      else
        match l with
        | ColumnRef _ => parsed_test op r
        | _ => false
        end
  | _ => false
  end.

(** With its actions run, [p] yields one token, a tree node with [P]. *)
Definition builds (P : node -> Prop) (p : parser) : Prop :=
  forall s toks rest, p true s = Ok (toks, rest) -> exists w, toks = [TNode w] /\ P w.

(** An error that no alternative and no lookahead catches. *)
Definition escapes (e : exn) : Prop := forall r m, e <> ParseException r m.

(** The left-nested chain of [w0] and the operands [ws] under one operator. *)
Definition chain_of (op : str) (w0 : node) (ws : list node) : node :=
  fold_chain w0 (map (fun w => (op, w)) ws).

(* ==== end of definitions ==== *)

(** * Properties *)

(** ** The LIKE table *)

Lemma parseTest_like (a : node) (b : tok) :
  parseTest (like_tokens a b) = (w <- make_like (TNode a) b ;; Ok [TNode w]).
Proof. reflexivity. Qed.

(** C2.  The LIKE table, its cases read in order.  For the tokens of
    [<identifier> like <value>]: a string without [%] gives an equality
    node; one [%], leading, gives [endsWith] with the [%] stripped; one
    [%], trailing (and not leading), gives [startsWith] with the [%]
    stripped; two [%], one leading and one trailing, give [like] with both
    stripped; any other count or placement, and a right operand that is no
    string, raise [ValueError] and no node is produced. *)
Theorem make_like_table (a : node) (b : tok) :
  (forall s, b = text s -> Py.count s "%" = 0 ->
     parseTest (like_tokens a b) = Ok [TNode (Composite "==" a (Some (str_const s)))]) /\
  (forall s, b = text s -> Py.count s "%" = 1 -> Py.startswith s "%" = true ->
     parseTest (like_tokens a b) =
     Ok [TNode (Composite "endsWith" a (Some (str_const (tl s))))]) /\
  (forall s, b = text s -> Py.count s "%" = 1 -> Py.startswith s "%" = false ->
     Py.endswith s "%" = true ->
     parseTest (like_tokens a b) =
     Ok [TNode (Composite "startsWith" a (Some (str_const (removelast s))))]) /\
  (forall s, b = text s -> Py.count s "%" = 2 -> Py.startswith s "%" = true ->
     Py.endswith s "%" = true ->
     parseTest (like_tokens a b) =
     Ok [TNode (Composite "like" a (Some (str_const (removelast (tl s)))))]) /\
  (forall s, b = text s ->
     (Py.count s "%" = 1 /\ Py.startswith s "%" = false /\ Py.endswith s "%" = false) \/
     (Py.count s "%" = 2 /\ Py.startswith s "%" && Py.endswith s "%" = false) \/
     3 <= Py.count s "%" ->
     parseTest (like_tokens a b) =
     Raise (ValueError ("Unsupported LIKE pattern '" ++ s ++ "'."))) /\
  ((forall s, b <> text s) ->
     parseTest (like_tokens a b) =
     Raise (ValueError "LIKE operator requires a string on the rhs.")).
Proof.
  rewrite parseTest_like.
  repeat split.
  - intros s -> H0. unfold make_like. simpl. rewrite H0. reflexivity.
  - intros s -> H1 Hs. unfold make_like. simpl. rewrite H1, Hs. reflexivity.
  - intros s -> H1 Hs He. unfold make_like. simpl. rewrite H1, Hs, He. reflexivity.
  - intros s -> H2 Hs He. unfold make_like. simpl. rewrite H2, Hs, He. reflexivity.
  - intros s -> H. unfold make_like. simpl.
    destruct H as [(H1 & Hs & He) | [(H2 & Hse) | H3]].
    + rewrite H1, Hs, He. reflexivity.
    + rewrite H2, Hse. reflexivity.
    + destruct (Py.count s "%") as [|[|[|n]]]; try lia. reflexivity.
  - intros H. unfold make_like.
    destruct b as [[[| s | z | q] | l] | w | g]; try reflexivity.
    exfalso. apply (H s). reflexivity.
Qed.

(** The rows of the table on the inputs of the specification. *)
Lemma make_like_table_witness :
  parseTest (like_tokens (ColumnRef "a") (text "foo")) =
    Ok [TNode (Composite "==" (ColumnRef "a") (Some (str_const "foo")))] /\
  parseTest (like_tokens (ColumnRef "a") (text "%foo")) =
    Ok [TNode (Composite "endsWith" (ColumnRef "a") (Some (str_const "foo")))] /\
  parseTest (like_tokens (ColumnRef "a") (text "foo%")) =
    Ok [TNode (Composite "startsWith" (ColumnRef "a") (Some (str_const "foo")))] /\
  parseTest (like_tokens (ColumnRef "a") (text "%foo%")) =
    Ok [TNode (Composite "like" (ColumnRef "a") (Some (str_const "foo")))] /\
  parseTest (like_tokens (ColumnRef "a") (text "f%o%o")) =
    Raise (ValueError "Unsupported LIKE pattern 'f%o%o'.") /\
  parseTest (like_tokens (ColumnRef "a") (TNode (ColumnRef "b"))) =
    Raise (ValueError "LIKE operator requires a string on the rhs.").
Proof.
  pose proof (make_like_table (ColumnRef "a") (text "foo")) as (H & _).
  pose proof (make_like_table (ColumnRef "a") (text "%foo")) as (_ & H1 & _).
  pose proof (make_like_table (ColumnRef "a") (text "foo%")) as (_ & _ & H2 & _).
  pose proof (make_like_table (ColumnRef "a") (text "%foo%")) as (_ & _ & _ & H3 & _).
  pose proof (make_like_table (ColumnRef "a") (text "f%o%o")) as (_ & _ & _ & _ & H4 & _).
  pose proof (make_like_table (ColumnRef "a") (TNode (ColumnRef "b")))
    as (_ & _ & _ & _ & _ & H5).
  split; [|split; [|split; [|split; [|split]]]].
  - apply (H "foo"); reflexivity.
  - apply (H1 "%foo"); reflexivity.
  - apply (H2 "foo%"); reflexivity.
  - apply (H3 "%foo%"); reflexivity.
  - apply (H4 "f%o%o"); [reflexivity | right; left; split; reflexivity].
  - apply H5. intros s; discriminate.
Defined.

(** The same rows through the parser. *)
Example like_rows_parsed :
  where_ "a like 'foo%'" =
    Ok (TNode (Composite "startsWith" (ColumnRef "a") (Some (str_const "foo")))) /\
  where_ "a like '%foo'" =
    Ok (TNode (Composite "endsWith" (ColumnRef "a") (Some (str_const "foo")))) /\
  where_ "a like '%foo%'" =
    Ok (TNode (Composite "like" (ColumnRef "a") (Some (str_const "foo")))) /\
  where_ "a like 'foo'" =
    Ok (TNode (Composite "==" (ColumnRef "a") (Some (str_const "foo")))) /\
  where_ "a like 'f%o%o'" = Raise (ValueError "Unsupported LIKE pattern 'f%o%o'.") /\
  where_ "a like b" = Raise (ValueError "LIKE operator requires a string on the rhs.").
Proof. vm_compute. repeat split. Qed.

(** ** AND and OR: one tier, folded left to right *)

Lemma infix_loop_chain (rest : list (str * node)) :
  Forall (fun p => fst p = "and" \/ fst p = "or") rest ->
  forall v, infix_loop (TNode v) (chain_tokens rest) = Ok (TNode (fold_chain v rest)).
Proof.
  induction 1 as [|[op r] rest [Hop | Hop] _ IH]; intros v;
    [reflexivity | | ]; simpl in Hop; subst op; simpl; apply IH.
Qed.

(** C3.  AND and OR share one tier: the tier-2 action [infix] folds the
    chain of operands strictly left to right with whichever of the two
    operators stands between them, so [a and b or c] is [or(and(a,b),c)]
    and [a or b and c] is [and(or(a,b),c)]. *)
Theorem and_or_fold_left (v : node) (rest : list (str * node)) :
  Forall (fun p => fst p = "and" \/ fst p = "or") rest ->
  infix [TGroup (TNode v :: chain_tokens rest)] = Ok [TNode (fold_chain v rest)] /\
  where_ "a = 1 and b = 2 or c = 3" =
    Ok (TNode (Composite "or"
                 (Composite "and" (eq_int "a" 1) (Some (eq_int "b" 2)))
                 (Some (eq_int "c" 3)))) /\
  where_ "a = 1 or b = 2 and c = 3" =
    Ok (TNode (Composite "and"
                 (Composite "or" (eq_int "a" 1) (Some (eq_int "b" 2)))
                 (Some (eq_int "c" 3)))).
Proof.
  intros H. split.
  - unfold infix. rewrite (infix_loop_chain rest H v). reflexivity.
  - split; vm_compute; reflexivity.
Qed.

Lemma and_or_fold_left_witness :
  infix [TGroup [TNode (eq_int "a" 1); text "or"; TNode (eq_int "b" 2);
                 text "and"; TNode (eq_int "c" 3)]] =
  Ok [TNode (Composite "and"
               (Composite "or" (eq_int "a" 1) (Some (eq_int "b" 2)))
               (Some (eq_int "c" 3)))].
Proof.
  refine (proj1 (and_or_fold_left (eq_int "a" 1)
                  [("or", eq_int "b" 2); ("and", eq_int "c" 3)] _)).
  constructor; [right; reflexivity | ].
  constructor; [left; reflexivity | constructor].
Defined.

(** ** Unary NOT *)

(** C5.  NOT binds tighter than AND and OR and wraps only the test that
    follows it: [not a = 1 and b = 2] is [and(not(a == 1), b == 2)]. *)
Theorem not_binds_tighter :
  where_ "not a = 1 and b = 2" =
  Ok (TNode (Composite "and"
               (Composite "not" (eq_int "a" 1) None)
               (Some (eq_int "b" 2)))).
Proof. vm_compute. reflexivity. Qed.

(** ** Trailing input *)

(** C6.  When the expression grammar matches a prefix of the input and
    text is left after it (whitespace, skipped as before every token, is
    none), [where] fails at that text with the error of [StringEnd] and
    returns no tree. *)
Theorem trailing_input_fails (expr : str) (toks : tokens) (rest : str) :
  EXPRESSION true (Py.expandtabs expr) = Ok (toks, rest) ->
  preParse rest <> [] ->
  where_ expr = Raise (ParseException (preParse rest) "Expected end of text").
Proof.
  intros He Hr. unfold where_, parseString, WHEREEXP.
  cbn [And bind fst snd StringStart]. rewrite He.
  cbn [And bind fst snd]. unfold StringEnd.
  destruct (preParse rest); [congruence | reflexivity].
Qed.

Lemma trailing_input_fails_witness :
  where_ "a = 1 extra" = Raise (ParseException "extra" "Expected end of text").
Proof.
  apply (trailing_input_fails "a = 1 extra" [TNode (eq_int "a" 1)] " extra").
  - vm_compute. reflexivity.
  - vm_compute. discriminate.
Defined.

(** ** List literals *)

Lemma every_other_commas (vs : list Py.value) (v : Py.value) :
  values_of (every_other (comma_separated (v :: vs) false)) = Ok (v :: vs) /\
  values_of (every_other (comma_separated (v :: vs) true)) = Ok (v :: vs).
Proof.
  revert v. induction vs as [|v' vs IH]; intros v.
  - split; reflexivity.
  - destruct (IH v') as [H1 H2]. split.
    + change (comma_separated (v :: v' :: vs) false)
        with (TObj (Py.Scalar v) :: text "," :: comma_separated (v' :: vs) false).
      cbn [every_other values_of]. rewrite H1. reflexivity.
    + change (comma_separated (v :: v' :: vs) true)
        with (TObj (Py.Scalar v) :: text "," :: comma_separated (v' :: vs) true).
      cbn [every_other values_of]. rewrite H2. reflexivity.
Qed.

Lemma parseList_tokens (v : Py.value) (vs : list Py.value) (trailing : bool) :
  parseList (list_tokens (v :: vs) trailing) = Ok [TObj (Py.PyList (v :: vs))].
Proof.
  unfold parseList, slice_1_m1_2, list_tokens.
  cbn [tl]. rewrite removelast_last.
  destruct (every_other_commas vs v) as [H1 H2].
  destruct trailing; [rewrite H2 | rewrite H1]; reflexivity.
Qed.

(** C8.  A list literal is an opening bracket, one or more constants
    separated by commas, an optional trailing comma and a closing bracket;
    with and without the trailing comma it yields the same list of the same
    constants in the same order, so [a in [1,2,3,]] parses to the same
    [inlist] node as [a in [1, 2, 3]]. *)
Theorem list_trailing_comma (v : Py.value) (vs : list Py.value) :
  parseList (list_tokens (v :: vs) true) = parseList (list_tokens (v :: vs) false) /\
  parseList (list_tokens (v :: vs) false) = Ok [TObj (Py.PyList (v :: vs))] /\
  where_ "a in [1,2,3,]" = where_ "a in [1, 2, 3]" /\
  where_ "a in [1, 2, 3]" =
    Ok (TNode (Composite "inlist" (ColumnRef "a")
                 (Some (list_const [Py.VInt 1; Py.VInt 2; Py.VInt 3])))) /\
  where_ "a in []" = Raise (ParseFatalException "[]" "Expected list").
Proof.
  rewrite !parseList_tokens.
  split; [reflexivity | split; [reflexivity | ]].
  vm_compute. repeat split.
Qed.

(** ** Strings *)

Lemma str_eqb_eq (a b : str) : Py.eqb a b = true <-> a = b.
Proof.
  revert b. induction a as [|x a IH]; intros [|y b]; simpl; split;
    try congruence; try reflexivity.
  - intros H. apply andb_true_iff in H. destruct H as [H1 H2].
    apply Ascii.eqb_eq in H1. apply IH in H2. congruence.
  - intros H. injection H as -> ->. rewrite Ascii.eqb_refl. simpl.
    apply IH. reflexivity.
Qed.

Lemma str_eqb_neq (a b : str) : a <> b -> Py.eqb a b = false.
Proof.
  intros H. destruct (Py.eqb a b) eqn:E; [|reflexivity].
  apply str_eqb_eq in E. contradiction.
Qed.

(** ** The float literal *)

Lemma star_S (m : str -> Re.cont -> option str) (n : nat) (s : str) (k : Re.cont) :
  Re.star m (S n) s k =
  match m s (fun s' => if length s' <? length s then Re.star m n s' k else None) with
  | Some x => Some x
  | None => k s
  end.
Proof. reflexivity. Qed.

Lemma rmatch_class_cons (p : ascii -> bool) (c : ascii) (s : str) (k : Re.cont) :
  Re.rmatch (Re.Cls p) (c :: s) k = if p c then k s else None.
Proof. reflexivity. Qed.

Lemma rmatch_class_nil (p : ascii -> bool) (k : Re.cont) :
  Re.rmatch (Re.Cls p) [] k = None.
Proof. reflexivity. Qed.

Lemma ltb_length_cons (c : ascii) (s : str) : (length s <? length (c :: s)) = true.
Proof. apply Nat.ltb_lt. simpl. lia. Qed.

Lemma star_class_sound (p : ascii -> bool) (n : nat) :
  forall (s : str) (k : Re.cont) (v : str),
    Re.star (Re.rmatch (Re.Cls p)) n s k = Some v ->
    exists xs rest,
      s = xs ++ rest /\ Forall (fun c => p c = true) xs /\ k rest = Some v.
Proof.
  induction n as [|n IH]; intros s k v H.
  - exists [], s. auto.
  - rewrite star_S in H. destruct s as [|c s'].
    + exists [], []. auto.
    + rewrite rmatch_class_cons, ltb_length_cons in H.
      destruct (p c) eqn:Hp; [|exists [], (c :: s'); auto].
      destruct (Re.star (Re.rmatch (Re.Cls p)) n s' k) as [x|] eqn:Hs.
      * assert (x = v) as -> by congruence. apply IH in Hs.
        destruct Hs as (xs & rest & -> & Hxs & Hk).
        exists (c :: xs), rest. auto.
      * exists [], (c :: s'). auto.
Qed.

Lemma star_class_greedy (p : ascii -> bool) (xs rest : str) (k : Re.cont) (v : str) :
  Forall (fun c => p c = true) xs ->
  (forall c r, rest = c :: r -> p c = false) ->
  k rest = Some v ->
  forall n, length (xs ++ rest) <= n ->
    Re.star (Re.rmatch (Re.Cls p)) n (xs ++ rest) k = Some v.
Proof.
  intros Hxs Hrest Hk. induction Hxs as [|x xs Hx _ IH]; intros n Hn.
  - destruct n as [|n]; [exact Hk|]. rewrite star_S.
    destruct rest as [|c r]; [exact Hk|].
    simpl app. rewrite rmatch_class_cons, (Hrest c r eq_refl). exact Hk.
  - destruct n as [|n]; simpl in Hn; [lia|].
    rewrite star_S. simpl app.
    rewrite rmatch_class_cons, Hx, ltb_length_cons, IH by lia. reflexivity.
Qed.

Lemma float_re_unfold (s : str) :
  Re.rmatch FLOAT_CONSTANT_re s (fun s' => Some s') =
  match Re.rmatch (Re.Chr "-") s
          (fun s' => Re.rmatch (Re.Seq (Re.Star Re.digit)
                                  (Re.Seq (Re.Chr ".") (Re.Plus Re.digit)))
                               s' (fun s'' => Some s'')) with
  | Some x => Some x
  | None => Re.rmatch (Re.Seq (Re.Star Re.digit)
                         (Re.Seq (Re.Chr ".") (Re.Plus Re.digit)))
                      s (fun s'' => Some s'')
  end.
Proof. reflexivity. Qed.

Lemma float_re_sound (s v : str) :
  Re.rmatch FLOAT_CONSTANT_re s (fun s' => Some s') = Some v ->
  exists m, s = m ++ v /\ float_shape m.
Proof.
  assert (tail : forall t w,
             Re.rmatch (Re.Seq (Re.Star Re.digit)
                          (Re.Seq (Re.Chr ".") (Re.Plus Re.digit)))
                       t (fun s' => Some s') = Some w ->
             exists ip fp, t = ip ++ "." ++ fp ++ w /\ digits ip /\
                           digits fp /\ fp <> []).
  { intros t w H. simpl in H.
    apply star_class_sound in H. destruct H as (ip & r1 & -> & Hip & H).
    destruct r1 as [|c r1]; [discriminate|].
    destruct (Ascii.eqb c ".") eqn:Hc; [|discriminate].
    apply Ascii.eqb_eq in Hc. subst c.
    destruct r1 as [|d r1]; [discriminate|].
    destruct (Py.isdigit d) eqn:Hd; [|discriminate].
    apply star_class_sound in H. destruct H as (fp & r2 & -> & Hfp & H).
    injection H as ->.
    exists ip, (d :: fp). repeat split; auto.
    - constructor; assumption.
    - discriminate. }
  intros H. rewrite float_re_unfold in H.
  destruct (Re.rmatch (Re.Chr "-") s _) as [x|] eqn:Hm.
  - injection H as ->.
    destruct s as [|c s']; [discriminate|]. simpl in Hm.
    destruct (Ascii.eqb c "-") eqn:Hc; [|discriminate].
    apply Ascii.eqb_eq in Hc. subst c.
    apply tail in Hm. destruct Hm as (ip & fp & -> & Hip & Hfp & Hne).
    exists ("-" ++ ip ++ "." ++ fp). split.
    + simpl. rewrite <- !app_assoc. reflexivity.
    + exists "-", ip, fp. auto.
  - apply tail in H. destruct H as (ip & fp & -> & Hip & Hfp & Hne).
    exists (ip ++ "." ++ fp). split.
    + rewrite <- !app_assoc. reflexivity.
    + exists [], ip, fp. auto.
Qed.

Lemma float_tail_complete (ip fp : str) :
  digits ip -> digits fp -> fp <> [] ->
  Re.rmatch (Re.Seq (Re.Star Re.digit) (Re.Seq (Re.Chr ".") (Re.Plus Re.digit)))
            (ip ++ "." ++ fp) (fun s' => Some s') = Some [].
Proof.
  intros Hip Hfp Hne.
  change (Re.star (Re.rmatch Re.digit) (length (ip ++ "." ++ fp)) (ip ++ "." ++ fp)
            (fun s' => Re.rmatch (Re.Seq (Re.Chr ".") (Re.Plus Re.digit)) s'
                         (fun s'' => Some s'')) = Some []).
  apply star_class_greedy; auto.
  - intros c r E. injection E as <- _. reflexivity.
  - destruct fp as [|d fp]; [contradiction|].
    inversion Hfp as [|? ? Hd Hfp']; subst.
    change (Re.rmatch Re.digit (d :: fp)
              (fun s' => Re.star (Re.rmatch Re.digit) (length s') s'
                           (fun s'' => Some s'')) = Some []).
    unfold Re.digit. rewrite rmatch_class_cons, Hd.
    pose proof (star_class_greedy Py.isdigit fp [] (fun s'' => Some s'') []
                  Hfp') as G.
    rewrite app_nil_r in G. apply G; auto. intros c r E; discriminate.
Qed.

Lemma float_re_complete (m : str) :
  float_shape m -> Re.rmatch FLOAT_CONSTANT_re m (fun s' => Some s') = Some [].
Proof.
  intros (sign & ip & fp & -> & Hsign & Hip & Hfp & Hne).
  rewrite float_re_unfold.
  destruct Hsign as [-> | ->].
  - change ([] ++ ip ++ "." ++ fp) with (ip ++ "." ++ fp).
    rewrite float_tail_complete by assumption.
    destruct (Re.rmatch (Re.Chr "-") (ip ++ "." ++ fp) _) as [x|] eqn:Hm;
      [|reflexivity].
    destruct ip as [|c ip]; simpl in Hm; [discriminate|].
    inversion Hip as [|? ? Hc _]; subst.
    destruct (Ascii.eqb c "-") eqn:Hc'; [|discriminate].
    apply Ascii.eqb_eq in Hc'. subst c. discriminate.
  - change (Re.rmatch (Re.Chr "-") ("-" ++ ip ++ "." ++ fp))
      with (fun k : Re.cont => k (ip ++ "." ++ fp)).
    cbv beta. rewrite float_tail_complete by assumption. reflexivity.
Qed.

(** C7, as the code has it.  The float literal recogniser accepts exactly
    the texts made of an optional [-], zero or more digits, a decimal point
    and one or more digits: what it matches has that shape, and it matches
    every text of that shape in full. *)
Theorem float_literal_shape :
  (forall input m rest,
     Re.re_match FLOAT_CONSTANT_re input = Some (m, rest) ->
     input = m ++ rest /\ float_shape m) /\
  (forall m, float_shape m -> Re.re_match FLOAT_CONSTANT_re m = Some (m, [])).
Proof.
  split.
  - intros input m rest H. unfold Re.re_match in H.
    destruct (Re.rmatch FLOAT_CONSTANT_re input _) as [v|] eqn:E; [|discriminate].
    injection H as <- <-.
    apply float_re_sound in E. destruct E as (m & -> & Hm).
    rewrite length_app, Nat.add_sub.
    rewrite firstn_app, Nat.sub_diag, firstn_all. simpl. rewrite app_nil_r.
    auto.
  - intros m Hm. unfold Re.re_match. rewrite (float_re_complete m Hm).
    simpl. rewrite Nat.sub_0_r, firstn_all. reflexivity.
Qed.

(** C7, as stated, fails: [.5] is accepted and has no digit before the
    decimal point. *)
Lemma float_literal_without_leading_digit :
  Re.re_match FLOAT_CONSTANT_re ".5" = Some (".5", []) /\
  where_ "a = .5" =
    Ok (TNode (Composite "==" (ColumnRef "a")
                 (Some (Const (Py.Scalar (Py.VFloat (Qmake 1 2))))))) /\
  ~ float_shape_claimed ".5".
Proof.
  split; [vm_compute; reflexivity | split; [vm_compute; reflexivity | ]].
  intros (sign & ip & fp & E & Hsign & Hip & Hne & _).
  destruct Hsign as [-> | ->]; [|discriminate].
  destruct ip as [|c ip]; [contradiction|].
  simpl in E. injection E as <- _.
  inversion Hip as [|? ? Hc _]. discriminate.
Qed.

(** ** The formatter *)

Lemma same_op_true (l : node) (op : str) :
  node_op l = Some op -> same_op (node_op l) op = true.
Proof. intros ->. simpl. apply str_eqb_eq. reflexivity. Qed.

Lemma same_op_false (l : node) (op : str) :
  node_op l <> Some op -> same_op (node_op l) op = false.
Proof.
  intros H. destruct (node_op l) as [x|]; [|reflexivity].
  simpl. apply str_eqb_neq. congruence.
Qed.

Lemma format_logical_unfold (op : str) (l r : node) (bracket brk : bool) :
  In op LOGICAL ->
  _format (Composite op l (Some r)) bracket brk =
  (let chained := same_op (node_op l) op in
   a <- (if chained then _format l false true else _format l true false) ;;
   b <- _format r true false ;;
   let exp := if (if chained then true else brk)
              then a ++ " " ++ Py.upper op ++ [Py.nl] ++ b
              else a ++ " " ++ Py.upper op ++ " " ++ b in
   if bracket then Ok (bracketed exp) else Ok exp).
Proof.
  intros [<- | [<- | []]]; reflexivity.
Qed.

(** C9, as the code has it.  For an [and]/[or] node: when the left child
    carries the same operator it is rendered inline, without brackets of its
    own, and the line breaks after the operator, so that the right side
    starts on a new line; when the left child's operator differs, both
    children are rendered with brackets requested; the right child always
    is.  When the caller requests brackets, the result is the same
    expression between parentheses, each of its lines indented by four
    spaces. *)
Theorem format_logical (op : str) (l r : node) (brk : bool) :
  In op LOGICAL ->
  (node_op l = Some op ->
   _format (Composite op l (Some r)) false brk =
   (a <- _format l false true ;;
    b <- _format r true false ;;
    Ok (a ++ " " ++ Py.upper op ++ [Py.nl] ++ b))) /\
  (node_op l <> Some op ->
   _format (Composite op l (Some r)) false brk =
   (a <- _format l true false ;;
    b <- _format r true false ;;
    Ok (if brk then a ++ " " ++ Py.upper op ++ [Py.nl] ++ b
        else a ++ " " ++ Py.upper op ++ " " ++ b))) /\
  _format (Composite op l (Some r)) true brk =
  (exp <- _format (Composite op l (Some r)) false brk ;; Ok (bracketed exp)).
Proof.
  intros Hop. rewrite !(format_logical_unfold op l r _ brk Hop). cbv zeta.
  split; [|split].
  - intros H. rewrite (same_op_true l op H). reflexivity.
  - intros H. rewrite (same_op_false l op H).
    destruct (_format l true false); [|reflexivity]. simpl.
    destruct (_format r true false); reflexivity.
  - destruct (same_op (node_op l) op).
    + destruct (_format l false true); [|reflexivity]. simpl.
      destruct (_format r true false); reflexivity.
    + destruct (_format l true false); [|reflexivity]. simpl.
      destruct (_format r true false); reflexivity.
Qed.

Lemma format_logical_witness :
  formatWhere (Composite "and" (Composite "and" (eq_int "a" 1) (Some (eq_int "b" 2)))
                 (Some (eq_int "c" 3))) =
  Ok ("a == 1 AND" ++ [Py.nl] ++ "b == 2 AND" ++ [Py.nl] ++ "c == 3") /\
  formatWhere (Composite "and" (eq_int "a" 1)
                 (Some (Composite "and" (eq_int "b" 2) (Some (eq_int "c" 3))))) =
  Ok ("a == 1 AND (" ++ [Py.nl] ++ "    b == 2 AND c == 3" ++ [Py.nl] ++ ")").
Proof.
  split.
  - unfold formatWhere.
    rewrite (proj1 (format_logical "and"
                      (Composite "and" (eq_int "a" 1) (Some (eq_int "b" 2)))
                      (eq_int "c" 3) false (or_introl eq_refl)) eq_refl).
    reflexivity.
  - unfold formatWhere.
    rewrite (proj1 (proj2 (format_logical "and" (eq_int "a" 1)
                      (Composite "and" (eq_int "b" 2) (Some (eq_int "c" 3)))
                      false (or_introl eq_refl)))) by discriminate.
    reflexivity.
Defined.

(** C9, as stated, fails: in a chain the line breaks after the operator;
    the operator does not start the new line. *)
Lemma format_break_follows_operator :
  let w := Composite "and" (Composite "and" (eq_int "a" 1) (Some (eq_int "b" 2)))
             (Some (eq_int "c" 3)) in
  let a := "a == 1 AND" ++ [Py.nl] ++ "b == 2" in
  let b := "c == 3" in
  _format (Composite "and" (eq_int "a" 1) (Some (eq_int "b" 2))) false true = Ok a /\
  _format (eq_int "c" 3) true false = Ok b /\
  _format w false false = Ok (a ++ " AND" ++ [Py.nl] ++ b) /\
  _format w false false <> Ok (a ++ [Py.nl] ++ "AND " ++ b).
Proof.
  cbv zeta. split; [reflexivity | split; [reflexivity | split; [reflexivity | ]]].
  vm_compute. discriminate.
Qed.

(** C4 fails on the code: the comparison operators are recognised by a
    substring test against ["!= == <> >= <="], so a tag such as [=], which
    is outside the vocabulary, is rendered instead of rejected. *)
Theorem format_renders_unknown_operator :
  ~ In "=" vocabulary /\
  formatWhere (Composite "=" (ColumnRef "a") (Some (int_const 1))) = Ok "a = 1".
Proof.
  split; [|reflexivity].
  simpl. intros H. decompose [or] H; try discriminate; assumption.
Qed.

(** What the else-branch of [_format] does reject: a tag that is no
    substring of the comparison string and none of the named tags. *)
Lemma format_rejects_unknown_operator (op : str) (l : node) (r : option node)
    (bracket brk : bool) :
  op <> [] ->
  Py.contains "!= == <> >= <=" op = false ->
  ~ In op vocabulary ->
  _format (Composite op l r) bracket brk = Raise (ValueError ("Unknown operation " ++ op)).
Proof.
  intros Hne Hsub Hin.
  assert (E : forall x, In x vocabulary -> Py.eqb op x = false).
  { intros x Hx. apply str_eqb_neq. intros ->. contradiction. }
  cbn [_format]. destruct op as [|c op]; [contradiction|].
  rewrite Hsub.
  rewrite !E by (simpl; tauto).
  cbn [existsb LOGICAL]. rewrite !E by (simpl; tauto). reflexivity.
Qed.

(** A node without an operator tag that is no column reference and no
    constant is rejected too. *)
Lemma format_rejects_unsupported_object (l : node) (r : option node)
    (bracket brk : bool) :
  _format (Composite [] l r) bracket brk = Raise (ValueError "Unsupported object").
Proof. reflexivity. Qed.

(** ** What the combinators raise *)

Section Raises.

Variable allowed : exn -> Prop.
Hypothesis allowed_ParseException : forall r m, allowed (ParseException r m).
Hypothesis allowed_RecursionError : allowed RecursionError.

Lemma raises_Literal (m : str) : raises_only allowed (Literal m).
Proof.
  intros b s e. unfold Literal.
  destruct (Py.startswith _ _); intros H; inversion H; auto.
Qed.

Lemma raises_CaselessKeyword (m : str) : raises_only allowed (CaselessKeyword m).
Proof.
  intros b s e. unfold CaselessKeyword.
  destruct (_ && _); intros H; inversion H; auto.
Qed.

Lemma raises_Word (i bd : ascii -> bool) : raises_only allowed (Word i bd).
Proof.
  intros b s e. unfold Word.
  destruct (preParse s) as [|c s']; [intros H; inversion H; auto|].
  destruct (i c); [destruct (span bd s')|]; intros H; inversion H; auto.
Qed.

Lemma raises_Regex (r : Re.regex) : raises_only allowed (Regex r).
Proof.
  intros b s e. unfold Regex.
  destruct (Re.re_match _ _) as [[m rest]|]; intros H; inversion H; auto.
Qed.

Lemma raises_QuotedString (q : ascii) (esc : option ascii) (u : bool) (eq : ascii) :
  raises_only allowed (QuotedString q esc u eq).
Proof.
  intros b s e. unfold QuotedString.
  destruct (Re.re_match _ _) as [[m rest]|]; [destruct u|];
    intros H; inversion H; auto.
Qed.

Lemma raises_And (l : list parser) :
  Forall (raises_only allowed) l -> raises_only allowed (And l).
Proof.
  induction 1 as [|p l Hp _ IH]; intros b s e H; simpl in H.
  - discriminate.
  - destruct (p b s) as [[t1 s1]|e1] eqn:E1; simpl in H.
    + destruct (And l b s1) as [[t2 s2]|e2] eqn:E2; simpl in H.
      * discriminate.
      * inversion H; subst. eapply IH; eauto.
    + inversion H; subst. eapply Hp; eauto.
Qed.

Lemma raises_MatchFirst_from (l : list parser) :
  Forall (raises_only allowed) l ->
  forall mx, raises_only allowed (MatchFirst_from mx l).
Proof.
  induction 1 as [|p l Hp _ IH]; intros mx b s e H; simpl in H.
  - destruct mx as [[r m]|]; inversion H; auto.
  - destruct (p b s) as [[t1 s1]|e1] eqn:E1.
    + discriminate.
    + pose proof (Hp _ _ _ E1) as He1.
      destruct e1; try (inversion H; subst; assumption).
      eapply IH; eauto.
Qed.

Lemma raises_MatchFirst (l : list parser) :
  Forall (raises_only allowed) l -> raises_only allowed (MatchFirst l).
Proof. intros H. apply raises_MatchFirst_from. assumption. Qed.

Lemma raises_Optional (p : parser) :
  raises_only allowed p -> raises_only allowed (Optional p).
Proof.
  intros Hp b s e H. unfold Optional in H.
  destruct (p b s) as [[t1 s1]|e1] eqn:E1; [discriminate|].
  pose proof (Hp _ _ _ E1).
  destruct e1; inversion H; subst; assumption.
Qed.

Lemma raises_repeat_expr (p : parser) (n : nat) :
  raises_only allowed p -> raises_only allowed (repeat_expr p n).
Proof.
  intros Hp. induction n as [|n IH]; intros b s e H; simpl in H.
  - inversion H; auto.
  - destruct (p b s) as [[t1 s1]|e1] eqn:E1.
    + destruct (length s1 <? length s); [|inversion H; auto].
      destruct (repeat_expr p n b s1) as [[t2 s2]|e2] eqn:E2; simpl in H.
      * discriminate.
      * inversion H; subst. eapply IH; eauto.
    + pose proof (Hp _ _ _ E1).
      destruct e1; inversion H; subst; assumption.
Qed.

Lemma raises_ZeroOrMore (p : parser) :
  raises_only allowed p -> raises_only allowed (ZeroOrMore p).
Proof. intros Hp b s e H. eapply raises_repeat_expr; eauto. Qed.

Lemma raises_OneOrMore (p : parser) :
  raises_only allowed p -> raises_only allowed (OneOrMore p).
Proof.
  intros Hp b s e H. unfold OneOrMore in H.
  destruct (p b s) as [[t1 s1]|e1] eqn:E1; cbn [bind fst snd] in H.
  - destruct (repeat_expr p _ b s1) as [[t2 s2]|e2] eqn:E2; cbn [bind] in H.
    + discriminate.
    + inversion H; subst. eapply raises_repeat_expr; eauto.
  - inversion H; subst. eapply Hp; eauto.
Qed.

Lemma raises_FollowedBy (p : parser) :
  raises_only allowed p -> raises_only allowed (FollowedBy p).
Proof.
  intros Hp b s e H. unfold FollowedBy in H.
  destruct (p false s) as [[t1 s1]|e1] eqn:E1; [discriminate|].
  pose proof (Hp _ _ _ E1).
  destruct e1; inversion H; subst; auto.
Qed.

Lemma raises_Group (p : parser) :
  raises_only allowed p -> raises_only allowed (Group p).
Proof.
  intros Hp b s e H. unfold Group in H.
  destruct (p b s) as [[t1 s1]|e1] eqn:E1; simpl in H; [discriminate|].
  inversion H; subst. eapply Hp; eauto.
Qed.

Lemma raises_Suppress (p : parser) :
  raises_only allowed p -> raises_only allowed (Suppress p).
Proof.
  intros Hp b s e H. unfold Suppress in H.
  destruct (p b s) as [[t1 s1]|e1] eqn:E1; simpl in H; [discriminate|].
  inversion H; subst. eapply Hp; eauto.
Qed.

(** A parse action may raise only on the tokens its element produces. *)
Lemma raises_setParseAction (p : parser) (fn : tokens -> res tokens) :
  raises_only allowed p ->
  (forall s toks rest e, p true s = Ok (toks, rest) -> fn toks = Raise e -> allowed e) ->
  raises_only allowed (setParseAction p fn).
Proof.
  intros Hp Hfn b s e H. unfold setParseAction in H.
  destruct (p b s) as [[t1 s1]|e1] eqn:E1; simpl in H.
  - destruct b; [|discriminate].
    destruct (fn t1) as [t|e'] eqn:E2; simpl in H; [discriminate|].
    inversion H; subst. eapply Hfn; eauto.
  - inversion H; subst. eapply Hp; eauto.
Qed.

Lemma raises_Forward_depth (body : parser -> parser) (n : nat) :
  (forall q, raises_only allowed q -> raises_only allowed (body q)) ->
  raises_only allowed (Forward_depth n body).
Proof.
  intros Hbody. induction n as [|n IH]; intros b s e H; simpl in H.
  - inversion H; auto.
  - eapply Hbody; eauto.
Qed.

Lemma raises_Forward (body : parser -> parser) :
  (forall q, raises_only allowed q -> raises_only allowed (body q)) ->
  raises_only allowed (Forward body).
Proof.
  intros Hbody b s e H. eapply raises_Forward_depth; eauto.
Qed.

End Raises.

Lemma raises_setFailAction (allowed : exn -> Prop) (p : parser)
    (fn : str -> exn -> res unit) :
  raises_only allowed p ->
  (forall loc e e', fn loc e = Raise e' -> allowed e') ->
  raises_only allowed (setFailAction p fn).
Proof.
  intros Hp Hfn b s e H. unfold setFailAction in H.
  destruct (p b s) as [[t1 s1]|e1] eqn:E1; [discriminate|].
  pose proof (Hp _ _ _ E1) as He1.
  destruct e1; try (inversion H; subst; assumption).
  - destruct (fn _ _) as [u|e'] eqn:E2; simpl in H; inversion H; subst; eauto.
  - destruct (fn _ _) as [u|e'] eqn:E2; simpl in H; inversion H; subst; eauto.
Qed.

(** ** One token per expression *)

Lemma single_setParseAction (p : parser) (fn : tokens -> res tokens) :
  (forall toks t, fn toks = Ok t -> exists w, t = [TNode w]) ->
  single (setParseAction p fn).
Proof.
  intros Hfn s toks rest H. unfold setParseAction in H.
  destruct (p true s) as [[t1 s1]|e1]; simpl in H; [|discriminate].
  destruct (fn t1) as [t|e] eqn:E; simpl in H; [|discriminate].
  inversion H; subst. eauto.
Qed.

Lemma single_MatchFirst_from (l : list parser) :
  Forall single l -> forall mx, single (MatchFirst_from mx l).
Proof.
  induction 1 as [|p l Hp _ IH]; intros mx s toks rest H; simpl in H.
  - destruct mx as [[r m]|]; discriminate.
  - destruct (p true s) as [[t1 s1]|e1] eqn:E1.
    + inversion H; subst. eapply Hp; eauto.
    + destruct e1; try discriminate. eapply IH; eauto.
Qed.

Lemma single_MatchFirst (l : list parser) : Forall single l -> single (MatchFirst l).
Proof. intros H. apply single_MatchFirst_from. assumption. Qed.

Lemma single_setFailAction (p : parser) (fn : str -> exn -> res unit) :
  single p -> single (setFailAction p fn).
Proof.
  intros Hp s toks rest H. unfold setFailAction in H.
  destruct (p true s) as [[t1 s1]|e1] eqn:E1.
  - inversion H; subst. eapply Hp; eauto.
  - destruct e1; try discriminate; destruct (fn _ _); discriminate.
Qed.

Lemma single_Forward_depth (body : parser -> parser) (n : nat) :
  (forall q, single q -> single (body q)) -> single (Forward_depth n body).
Proof.
  intros Hbody. induction n as [|n IH]; intros s toks rest H; simpl in H.
  - discriminate.
  - eapply Hbody; eauto.
Qed.

Lemma single_Forward (body : parser -> parser) :
  (forall q, single q -> single (body q)) -> single (Forward body).
Proof. intros Hbody s toks rest H. eapply single_Forward_depth; eauto. Qed.

Lemma Suppress_tokens (p : parser) (b : bool) (s rest : str) (toks : tokens) :
  Suppress p b s = Ok (toks, rest) -> toks = [].
Proof.
  unfold Suppress. destruct (p b s) as [[t1 s1]|e1]; simpl; intros H;
    inversion H; reflexivity.
Qed.

Lemma single_bracketed (ret : parser) :
  single ret -> single (And [Suppress (Literal "("); ret; Suppress (Literal ")")]).
Proof.
  intros Hret s toks rest H. cbn [And] in H.
  destruct (Suppress (Literal "(") true s) as [[t1 s1]|e1] eqn:E1; simpl in H;
    [|discriminate].
  destruct (ret true s1) as [[t2 s2]|e2] eqn:E2; simpl in H; [|discriminate].
  destruct (Suppress (Literal ")") true s2) as [[t3 s3]|e3] eqn:E3; simpl in H;
    [|discriminate].
  inversion H; subst.
  apply Suppress_tokens in E1, E3. subst.
  apply Hret in E2. destruct E2 as [w ->]. exists w. reflexivity.
Qed.

(** ** The semantic actions *)

Lemma not_invalid_op_ParseException (r m : str) : ~ invalid_op (ParseException r m).
Proof. intros [o H]. discriminate. Qed.

Lemma not_invalid_op_ParseFatalException (r m : str) :
  ~ invalid_op (ParseFatalException r m).
Proof. intros [o H]. discriminate. Qed.

Lemma not_invalid_op_RecursionError : ~ invalid_op RecursionError.
Proof. intros [o H]. discriminate. Qed.

Ltac not_invalid :=
  let o := fresh "o" in let H := fresh "H" in
  intros [o H]; simpl in H; discriminate H.

Lemma apply_op_raises (op : str) (l r : tok) (e : exn) :
  apply_op op l r = Raise e -> ~ invalid_op e.
Proof.
  unfold apply_op, operand.
  destruct l; try (intros H; inversion H; not_invalid).
  destruct r; simpl; intros H; inversion H; not_invalid.
Qed.

Lemma apply_op_node (op : str) (l r : tok) (w : node) :
  apply_op op l r = Ok w ->
  exists a b, l = TNode a /\ operand r = Ok b /\ w = Composite op a (Some b).
Proof.
  unfold apply_op. destruct l as [o | a | g]; try discriminate.
  destruct (operand r) as [b|e]; simpl; intros H; inversion H.
  exists a, b. auto.
Qed.

Lemma make_like_raises (a b : tok) (e : exn) :
  make_like a b = Raise e -> ~ invalid_op e.
Proof.
  unfold make_like.
  destruct b as [[[| s | z | q] | l] | w | g]; simpl;
    try (intros H; inversion H; not_invalid).
  destruct (Py.count s "%" =? 0).
  { apply apply_op_raises. }
  destruct (Py.count s "%" =? 1).
  { destruct (Py.startswith s "%"); [apply apply_op_raises|].
    destruct (Py.endswith s "%"); [apply apply_op_raises|].
    destruct (Py.count s "%" =? 2); intros H; inversion H; not_invalid. }
  destruct (Py.count s "%" =? 2).
  { destruct (Py.startswith s "%" && Py.endswith s "%"); [apply apply_op_raises|].
    intros H; inversion H; not_invalid. }
  intros H; inversion H; not_invalid.
Qed.

Lemma OPS_raises (op : str) (f : tok -> tok -> res node) (l r : tok) (e : exn) :
  Py.dict_get OPS op = Some f -> f l r = Raise e -> ~ invalid_op e.
Proof.
  unfold OPS. cbn [Py.dict_get]. intros H.
  repeat match type of H with
         | (if ?c then _ else _) = _ =>
             destruct c; [inversion H; subst;
                          first [apply apply_op_raises | apply make_like_raises] | ]
         end.
  discriminate.
Qed.

Ltac destruct_matched_vars H :=
  repeat match type of H with
         | context [match ?x with _ => _ end] => is_var x; destruct x
         end.

Lemma parseTest_cases (toks : tokens) :
  (exists l op r f, toks = [l; text op; r] /\ Py.dict_get OPS op = Some f /\
                    parseTest toks = (w <- f l r ;; Ok [TNode w])) \/
  (exists e, parseTest toks = Raise e /\ ~ invalid_op e).
Proof.
  destruct (parseTest toks) as [t|e] eqn:H; unfold parseTest in H;
    destruct_matched_vars H;
    try (right; eexists; split; [reflexivity | inversion H; not_invalid]);
    try discriminate.
  all: match type of H with
       | context [Py.dict_get OPS ?op] =>
           destruct (Py.dict_get OPS op) as [f|] eqn:E;
             [left; do 4 eexists;
              split; [reflexivity | split; [exact E | rewrite <- H; reflexivity]]
             | first [discriminate
                     | right; eexists; split; [reflexivity | inversion H; not_invalid]]]
       end.
Qed.

Lemma parseTest_raises (toks : tokens) (e : exn) :
  parseTest toks = Raise e -> ~ invalid_op e.
Proof.
  destruct (parseTest_cases toks) as [(l & op & r & f & _ & Hf & ->) | (e' & -> & He)].
  - destruct (f l r) as [w|e'] eqn:E2; simpl; intros H; inversion H; subst.
    eapply OPS_raises; eauto.
  - intros H; inversion H; subst. assumption.
Qed.

Lemma parseTest_single (toks t : tokens) :
  parseTest toks = Ok t -> exists w, t = [TNode w].
Proof.
  destruct (parseTest_cases toks) as [(l & op & r & f & _ & Hf & ->) | (e' & -> & He)].
  - destruct (f l r) as [w|e']; simpl; intros H; inversion H. eauto.
  - discriminate.
Qed.

Lemma unescape_raises (n : nat) :
  forall s e, length s <= n -> Py.unescape s = Raise e -> ~ invalid_op e.
Proof.
  induction n as [|n IH]; intros s e Hlen H.
  - destruct s; [discriminate | simpl in Hlen; lia].
  - destruct s as [|c s1]; [discriminate|].
    cbn [Py.unescape] in H.
    repeat match type of H with
           | context [if ?c then _ else _] => destruct c
           | context [match ?x with _ => _ end] => is_var x; destruct x
           | context [match Py.hex_digit ?x with _ => _ end] =>
               destruct (Py.hex_digit x)
           | context [match Py.octal_digit ?x with _ => _ end] =>
               destruct (Py.octal_digit x)
           | context [bind (Py.unescape ?t) _] =>
               let E := fresh "E" in
               destruct (Py.unescape t) eqn:E; cbn [bind] in H
           end;
      try discriminate;
      inversion H; subst;
      first [ not_invalid
            | match goal with
              | E : Py.unescape ?t = Raise ?e |- ~ invalid_op ?e =>
                  apply (IH t e); [simpl in Hlen |- *; lia | exact E]
              end ].
Qed.

Lemma literal_eval_raises (t : str) (e : exn) :
  Py.literal_eval t = Raise e -> ~ invalid_op e.
Proof.
  unfold Py.literal_eval, Py.eval_number, Py.eval_digits. intros H.
  repeat match type of H with
         | context [if ?c then _ else _] => destruct c
         | context [match ?x with _ => _ end] => is_var x; destruct x
         | context [bind (Py.unescape ?t) _] =>
             let E := fresh "E" in
             destruct (Py.unescape t) eqn:E; cbn [bind] in H
         | context [match ?x with _ => _ end] => destruct x; cbn [bind] in H
         end;
    try discriminate;
    inversion H; subst;
    first [ not_invalid
          | match goal with
            | E : Py.unescape ?t = Raise ?e |- ~ invalid_op ?e =>
                apply (unescape_raises (length t) t e); [lia | exact E]
            end ].
Qed.

Lemma eval_constant_raises (toks : tokens) (e : exn) :
  eval_constant toks = Raise e -> ~ invalid_op e.
Proof.
  unfold eval_constant. intros H.
  destruct_matched_vars H; try (inversion H; not_invalid).
  destruct (Py.literal_eval s) as [v|e'] eqn:E; simpl in H; inversion H; subst.
  eapply literal_eval_raises; eauto.
Qed.

(** ** What the grammar raises *)

Ltac raises_step :=
  first
    [ assumption
    | exact not_invalid_op_ParseException
    | exact not_invalid_op_RecursionError
    | apply Forall_nil
    | apply Forall_cons
    | apply raises_Literal
    | apply raises_CaselessKeyword
    | apply raises_Word
    | apply raises_Regex
    | apply raises_QuotedString
    | apply raises_And
    | apply raises_MatchFirst
    | apply raises_Optional
    | apply raises_ZeroOrMore
    | apply raises_OneOrMore
    | apply raises_FollowedBy
    | apply raises_Group
    | apply raises_Suppress ].

Ltac raises_tac := unfold no_invalid_op in *; repeat raises_step.

Lemma raises_CONSTANT : no_invalid_op CONSTANT.
Proof.
  unfold no_invalid_op, CONSTANT, STRING_CONSTANT, FLOAT_CONSTANT, INT_CONSTANT.
  apply raises_setParseAction; [raises_tac|].
  intros s toks rest e _. apply eval_constant_raises.
Qed.

Lemma raises_IDENTIFIER : no_invalid_op IDENTIFIER.
Proof.
  unfold no_invalid_op, IDENTIFIER. apply raises_setParseAction; [raises_tac|].
  intros s toks rest e _ H. unfold make_identifier in H.
  destruct_matched_vars H; inversion H; not_invalid.
Qed.

Lemma raises_fail (p : parser) (name : str) :
  no_invalid_op p -> no_invalid_op (fail p name).
Proof.
  unfold no_invalid_op. intros Hp. unfold fail. apply raises_setFailAction; [assumption|].
  intros loc e e' H. destruct e; inversion H; apply not_invalid_op_ParseFatalException.
Qed.

Lemma raises_LIST : no_invalid_op LIST.
Proof.
  unfold LIST, COMMA. apply raises_fail. unfold no_invalid_op.
  apply raises_setParseAction;
    [pose proof raises_CONSTANT as HC; raises_tac|].
  intros s toks rest e _ H. unfold parseList in H.
  destruct (values_of _) as [vs|e'] eqn:E; simpl in H; inversion H; subst.
  clear H. revert e E. generalize (slice_1_m1_2 toks). intros l.
  induction l as [|t l IH]; intros e E; simpl in E; [discriminate|].
  destruct t as [[v|vs]| |]; try (inversion E; not_invalid).
  destruct (values_of l) as [vs|e'] eqn:E'; simpl in E; inversion E; subst.
  apply IH. reflexivity.
Qed.

Lemma apply_op_action_raises (op : str) (a b : tok) (e : exn) :
  (w <- apply_op op a b ;; Ok [TNode w]) = Raise e -> ~ invalid_op e.
Proof.
  destruct (apply_op op a b) as [w|e'] eqn:E; simpl; intros H; inversion H; subst.
  eapply apply_op_raises; eauto.
Qed.

Lemma raises_TEST : no_invalid_op TEST.
Proof.
  pose proof raises_CONSTANT as HC. pose proof raises_IDENTIFIER as HI.
  pose proof raises_LIST as HL.
  unfold no_invalid_op in *.
  unfold TEST, INFIX_TEST, NULL_TEST, NOT_NULL_TEST, INLIST_TEST, NOT_INLIST_TEST,
    INFIX_TEST_expr, VALUE, OPERATOR, IS, NOT, NULL, IN.
  apply raises_MatchFirst; [exact not_invalid_op_ParseException|].
  repeat apply Forall_cons; try apply Forall_nil;
    (apply raises_setParseAction; [raises_tac|]); intros s toks rest e _.
  - apply parseTest_raises.
  - unfold parseNullTest. destruct toks; [intros H; inversion H; not_invalid|].
    apply apply_op_action_raises.
  - unfold parseNotNullTest. destruct toks; [intros H; inversion H; not_invalid|].
    apply apply_op_action_raises.
  - unfold parseInList. intros H. destruct_matched_vars H;
      try (inversion H; not_invalid); eapply apply_op_action_raises; eauto.
  - unfold parseNotInList. intros H. destruct_matched_vars H;
      try (inversion H; not_invalid); eapply apply_op_action_raises; eauto.
Qed.

Lemma apply_op_action_single (op : str) (a b : tok) (t : tokens) :
  (w <- apply_op op a b ;; Ok [TNode w]) = Ok t -> exists w, t = [TNode w].
Proof.
  destruct (apply_op op a b) as [w|e']; simpl; intros H; inversion H. eauto.
Qed.

Lemma single_TEST : single TEST.
Proof.
  unfold TEST, INFIX_TEST, NULL_TEST, NOT_NULL_TEST, INLIST_TEST, NOT_INLIST_TEST.
  apply single_MatchFirst.
  repeat apply Forall_cons; try apply Forall_nil;
    apply single_setParseAction; intros toks t.
  - apply parseTest_single.
  - unfold parseNullTest. destruct toks; [discriminate|].
    apply apply_op_action_single.
  - unfold parseNotNullTest. destruct toks; [discriminate|].
    apply apply_op_action_single.
  - unfold parseInList. intros H. destruct_matched_vars H; try discriminate;
      eapply apply_op_action_single; eauto.
  - unfold parseNotInList. intros H. destruct_matched_vars H; try discriminate;
      eapply apply_op_action_single; eauto.
Qed.

(** ** The tokens of a tier-2 group *)

Lemma bind_Ok {A B} (m : res A) (f : A -> res B) (b : B) :
  bind m f = Ok b -> exists a, m = Ok a /\ f a = Ok b.
Proof. destruct m as [a|e]; simpl; [eauto | discriminate]. Qed.

Lemma And_cons_Ok (p : parser) (l : list parser) (b : bool) (s rest : str)
    (toks : tokens) :
  And (p :: l) b s = Ok (toks, rest) ->
  exists t1 s1 t2,
    p b s = Ok (t1, s1) /\ And l b s1 = Ok (t2, rest) /\ toks = t1 ++ t2.
Proof.
  cbn [And]. intros H.
  apply bind_Ok in H. destruct H as ([t1 s1] & H1 & H).
  apply bind_Ok in H. destruct H as ([t2 s2] & H2 & H).
  inversion H; subst. simpl in *. eauto 6.
Qed.

Lemma And_nil_Ok (b : bool) (s rest : str) (toks : tokens) :
  And [] b s = Ok (toks, rest) -> toks = [] /\ rest = s.
Proof. simpl. intros H; inversion H; auto. Qed.

Lemma CaselessKeyword_tokens (m : str) (b : bool) (s rest : str) (toks : tokens) :
  CaselessKeyword m b s = Ok (toks, rest) -> toks = [text m].
Proof.
  unfold CaselessKeyword. destruct (_ && _); intros H; inversion H; reflexivity.
Qed.

Lemma AND_OR_tokens (b : bool) (s rest : str) (toks : tokens) :
  AND_OR b s = Ok (toks, rest) -> toks = [text "and"] \/ toks = [text "or"].
Proof.
  unfold AND_OR, MatchFirst. cbn [MatchFirst_from]. intros H.
  destruct (CaselessKeyword "and" b s) as [[t1 s1]|e1] eqn:E1.
  - inversion H; subst. left. eapply CaselessKeyword_tokens; eauto.
  - destruct e1; try discriminate.
    destruct (CaselessKeyword "or" b s) as [[t2 s2]|e2] eqn:E2.
    + inversion H; subst. right. eapply CaselessKeyword_tokens; eauto.
    + destruct e2; try discriminate.
      destruct (length rest1 <? length rest0); discriminate.
Qed.

Lemma chain_tokens_app (a b : list (str * node)) :
  chain_tokens (a ++ b) = chain_tokens a ++ chain_tokens b.
Proof.
  induction a as [|[o r] a IH]; simpl; [reflexivity|]. rewrite IH. reflexivity.
Qed.

Section Tier2.

Variable last : parser.
Hypothesis single_last : single last.

Lemma operand_pair_tokens (s rest : str) (toks : tokens) :
  And [AND_OR; last] true s = Ok (toks, rest) ->
  exists p, toks = chain_tokens [p] /\ logical_op p.
Proof.
  intros H.
  apply And_cons_Ok in H. destruct H as (t1 & s1 & t2 & H1 & H & ->).
  apply And_cons_Ok in H. destruct H as (t3 & s3 & t4 & H3 & H & ->).
  apply And_nil_Ok in H. destruct H as [-> ->].
  apply single_last in H3. destruct H3 as [w ->].
  apply AND_OR_tokens in H1.
  destruct H1 as [-> | ->].
  - exists ("and", w). split; [reflexivity | left; reflexivity].
  - exists ("or", w). split; [reflexivity | right; reflexivity].
Qed.

Lemma repeat_pair_tokens (n : nat) :
  forall s rest toks,
    repeat_expr (And [AND_OR; last]) n true s = Ok (toks, rest) ->
    exists ps, toks = chain_tokens ps /\ Forall logical_op ps.
Proof.
  induction n as [|n IH]; intros s rest toks H; cbn [repeat_expr] in H.
  - discriminate.
  - destruct (And [AND_OR; last] true s) as [[t1 s1]|e1] eqn:E1.
    + destruct (length s1 <? length s); [|discriminate].
      apply bind_Ok in H. destruct H as ([t2 s2] & H2 & H).
      inversion H; subst. simpl.
      apply operand_pair_tokens in E1. destruct E1 as (p & -> & Hp).
      apply IH in H2. destruct H2 as (ps & -> & Hps).
      exists (p :: ps). split; [|constructor; assumption].
      destruct p as [o r]. reflexivity.
    + destruct e1; try discriminate. inversion H; subst.
      exists []. split; [reflexivity | constructor].
Qed.

Lemma group_tokens (s rest : str) (toks : tokens) :
  And [FollowedBy (And [last; AND_OR; last]);
       Group (And [last; OneOrMore (And [AND_OR; last])])] true s = Ok (toks, rest) ->
  exists v ps, toks = [TGroup (TNode v :: chain_tokens ps)] /\ Forall logical_op ps.
Proof.
  intros H.
  apply And_cons_Ok in H. destruct H as (t1 & s1 & t2 & H1 & H & ->).
  apply And_cons_Ok in H. destruct H as (t3 & s3 & t4 & H3 & H & ->).
  apply And_nil_Ok in H. destruct H as [-> ->].
  unfold FollowedBy in H1.
  destruct (And [last; AND_OR; last] false s) as [[? ?]|e]; [|destruct e; discriminate].
  inversion H1; subst. clear H1.
  unfold Group in H3. apply bind_Ok in H3. destruct H3 as ([g s4] & H3 & H).
  inversion H; subst. clear H. cbn [fst].
  apply And_cons_Ok in H3. destruct H3 as (t5 & s5 & t6 & H5 & H & ->).
  apply And_cons_Ok in H. destruct H as (t7 & s7 & t8 & H7 & H & ->).
  apply And_nil_Ok in H. destruct H as [-> ->].
  apply single_last in H5. destruct H5 as [v ->].
  unfold OneOrMore in H7.
  apply bind_Ok in H7. destruct H7 as ([t9 s9] & H9 & H).
  apply bind_Ok in H. destruct H as ([t10 s10] & H10 & H).
  inversion H; subst. clear H. cbn [fst snd] in *.
  apply operand_pair_tokens in H9. destruct H9 as (p & -> & Hp).
  apply repeat_pair_tokens in H10. destruct H10 as (ps & -> & Hps).
  exists v, (p :: ps). split; [|constructor; assumption].
  destruct p as [o r]. simpl. rewrite app_nil_r. reflexivity.
Qed.

(** On the tokens of a tier-2 group the fold of [infix] finds a combinator
    for every operator token and returns the folded node. *)
Lemma infix_group (s rest : str) (toks : tokens) :
  And [FollowedBy (And [last; AND_OR; last]);
       Group (And [last; OneOrMore (And [AND_OR; last])])] true s = Ok (toks, rest) ->
  exists w, infix toks = Ok [TNode w].
Proof.
  intros H. apply group_tokens in H. destruct H as (v & ps & -> & Hps).
  exists (fold_chain v ps). unfold infix.
  rewrite (infix_loop_chain ps Hps v). reflexivity.
Qed.

End Tier2.

(** ** The expression grammar never takes the invalid-operator branch *)

Lemma good_Forward (body : parser -> parser) :
  (forall q, good q -> good (body q)) -> good (Forward body).
Proof.
  intros Hbody.
  assert (Hn : forall n, good (Forward_depth n body)).
  { induction n as [|n IH].
    - split.
      + intros b s e H. inversion H. apply not_invalid_op_RecursionError.
      + intros s toks rest H. discriminate.
    - destruct (Hbody _ IH) as [H1 H2]. split.
      + intros b s e H. exact (H1 b s e H).
      + intros s toks rest H. exact (H2 s toks rest H). }
  split.
  - intros b s e H. exact (proj1 (Hn _) b s e H).
  - intros s toks rest H. exact (proj2 (Hn _) s toks rest H).
Qed.

Lemma unary_raises (toks : tokens) (e : exn) :
  unary operator_invert toks = Raise e -> ~ invalid_op e.
Proof.
  unfold unary, operator_invert. intros H.
  destruct_matched_vars H; inversion H; not_invalid.
Qed.

Lemma unary_single (toks t : tokens) :
  unary operator_invert toks = Ok t -> exists w, t = [TNode w].
Proof.
  unfold unary, operator_invert. intros H.
  destruct_matched_vars H; inversion H; eauto.
Qed.

Lemma good_NOT_level (last : parser) :
  good last -> good (opLevel last (NOT, 1, RIGHT, unary operator_invert)).
Proof.
  intros [Hr Hs]. unfold opLevel. apply good_Forward. intros this [Tr Ts].
  split.
  - unfold no_invalid_op in *. unfold NOT.
    apply raises_MatchFirst; [exact not_invalid_op_ParseException|].
    apply Forall_cons; [|raises_tac].
    apply raises_setParseAction; [raises_tac|].
    intros s toks rest e _. apply unary_raises.
  - apply single_MatchFirst.
    apply Forall_cons; [|apply Forall_cons; [assumption | apply Forall_nil]].
    apply single_setParseAction. apply unary_single.
Qed.

Lemma good_AND_OR_level (last : parser) :
  good last -> good (opLevel last (AND_OR, 2, LEFT, infix)).
Proof.
  intros [Hr Hs]. unfold opLevel. apply good_Forward. intros this [Tr Ts].
  split.
  - unfold no_invalid_op in *. unfold AND_OR.
    apply raises_MatchFirst; [exact not_invalid_op_ParseException|].
    apply Forall_cons; [|raises_tac].
    apply raises_setParseAction; [raises_tac|].
    intros s toks rest e H He.
    destruct (infix_group last Hs s rest toks H) as [w Hw]. congruence.
  - intros s toks rest H. unfold MatchFirst in H. cbn [MatchFirst_from] in H.
    match type of H with
    | match ?m true s with _ => _ end = _ => destruct (m true s) as [[t1 s1]|e1] eqn:E1
    end.
    + inversion H; subst. unfold setParseAction in E1.
      apply bind_Ok in E1. destruct E1 as ([t2 s2] & E2 & E1).
      apply bind_Ok in E1. destruct E1 as (t3 & E3 & E1).
      inversion E1; subst. cbn [fst] in E3.
      destruct (infix_group last Hs _ _ _ E2) as [w Hw].
      exists w. congruence.
    + destruct e1; try discriminate.
      destruct (last true s) as [[t2 s2]|e2] eqn:E2.
      * inversion H; subst. eapply Hs; eauto.
      * destruct e2; try discriminate.
        destruct (length rest1 <? length rest0); discriminate.
Qed.

Lemma good_EXPRESSION : good EXPRESSION.
Proof.
  unfold EXPRESSION, operatorPrecedence. apply good_Forward. intros ret [Rr Rs].
  cbn [fold_left].
  assert (Hatom : good (MatchFirst [TEST;
             And [Suppress (Literal "("); ret; Suppress (Literal ")")]])).
  { split.
    - pose proof raises_TEST as HT. raises_tac.
    - apply single_MatchFirst.
      apply Forall_cons; [exact single_TEST|].
      apply Forall_cons; [apply single_bracketed; assumption | apply Forall_nil]. }
  pose proof (good_AND_OR_level _ (good_NOT_level _ Hatom)) as [Hr Hs].
  split.
  - apply raises_fail. exact Hr.
  - unfold fail. apply single_setFailAction. exact Hs.
Qed.

(** C10.  The invalid-operator branch of the fold of AND/OR chains is
    unreachable: on every token sequence the grammar produces for a tier-2
    group, each operator token lower-cases to a key of [INFIX_OPS] and the
    fold returns a node; and no parse of an expression, whatever the input,
    raises the error of that branch. *)
Theorem invalid_op_unreachable :
  (forall (b : bool) (s rest : str) (toks : tokens),
     AND_OR b s = Ok (toks, rest) ->
     exists o, toks = [text o] /\ Py.dict_get INFIX_OPS (Py.lower o) <> None) /\
  (forall (s : str) (o : str),
     EXPRESSION true s <> Raise (ValueError ("Invalid op " ++ o))) /\
  (forall (expr : str) (o : str),
     where_ expr <> Raise (ValueError ("Invalid op " ++ o))).
Proof.
  split; [|split].
  - intros b s rest toks H. apply AND_OR_tokens in H.
    destruct H as [-> | ->]; eexists;
      (split; [reflexivity | intros E; vm_compute in E; discriminate E]).
  - intros s o H. apply (proj1 good_EXPRESSION) in H. apply H. exists o. reflexivity.
  - intros expr o H. unfold where_, parseString, WHEREEXP in H.
    cbn [And bind fst snd StringStart] in H.
    destruct (EXPRESSION true (Py.expandtabs expr)) as [[t1 s1]|e1] eqn:E1;
      cbn [bind fst snd] in H.
    + unfold StringEnd in H.
      destruct (preParse s1); cbn [bind fst snd] in H; [|discriminate].
      apply (proj2 good_EXPRESSION) in E1. destruct E1 as [w ->].
      discriminate H.
    + inversion H; subst.
      apply (proj1 good_EXPRESSION) in E1. apply E1. exists o. reflexivity.
Qed.

Lemma invalid_op_unreachable_witness :
  AND_OR true " OR b" = Ok ([text "or"], " b") /\
  exists o, [text "or"] = [text o] /\ Py.dict_get INFIX_OPS (Py.lower o) <> None.
Proof.
  split; [reflexivity|].
  apply (proj1 invalid_op_unreachable true " OR b" " b" [text "or"]). reflexivity.
Defined.

(** * The round trip

    ** Whitespace and prefixes *)

Lemma preParse_ws_app (ws s : str) : all_ws ws -> preParse (ws ++ s) = preParse s.
Proof.
  induction 1 as [|c ws Hc _ IH]; [reflexivity|].
  simpl. rewrite Hc. exact IH.
Qed.

Lemma preParse_start (c : ascii) (s : str) :
  whitespace c = false -> preParse (c :: s) = c :: s.
Proof. intros H. simpl. rewrite H. reflexivity. Qed.

Lemma startswith_cons (x y : ascii) (s p : str) :
  Py.startswith (y :: s) (x :: p) = Ascii.eqb x y && Py.startswith s p.
Proof. reflexivity. Qed.

Lemma startswith_app (p s : str) : Py.startswith (p ++ s) p = true.
Proof.
  induction p as [|c p IH]; [reflexivity|].
  simpl app. rewrite startswith_cons, Ascii.eqb_refl. exact IH.
Qed.

Lemma skipn_length_app (p s : str) : skipn (length p) (p ++ s) = s.
Proof. induction p as [|c p IH]; simpl; auto. Qed.

Lemma firstn_length_app (p s : str) : firstn (length p) (p ++ s) = p.
Proof. induction p as [|c p IH]; simpl; [reflexivity | rewrite IH; reflexivity]. Qed.

Lemma re_match_prefix (r : Re.regex) (m rest : str) :
  Re.rmatch r (m ++ rest) (fun s' => Some s') = Some rest ->
  Re.re_match r (m ++ rest) = Some (m, rest).
Proof.
  intros H. unfold Re.re_match. rewrite H.
  rewrite length_app, Nat.add_sub, firstn_length_app. reflexivity.
Qed.

(** ** Integers *)

Lemma digits_chars_of_uint (d : Decimal.uint) : digits (Py.chars_of_uint d).
Proof. induction d; simpl; constructor; auto. Qed.

Lemma uint_of_chars_of_uint (d : Decimal.uint) :
  Py.uint_of_chars (Py.chars_of_uint d) = Some d.
Proof. induction d; simpl; [reflexivity | rewrite IHd; reflexivity ..]. Qed.

Lemma isdigit_not_dot (c : ascii) : Py.isdigit c = true -> Ascii.eqb c "." = false.
Proof.
  intros H. destruct (Ascii.eqb c ".") eqn:E; [|reflexivity].
  apply Ascii.eqb_eq in E. subst. discriminate.
Qed.

Lemma split_at_dot_digits (ds : str) : digits ds -> Py.split_at_dot ds = None.
Proof.
  induction 1 as [|c ds Hc _ IH]; [reflexivity|].
  simpl. rewrite (isdigit_not_dot c Hc), IH. reflexivity.
Qed.

Lemma chars_of_uint_nonnil (d : Decimal.uint) :
  d <> Decimal.Nil -> Py.chars_of_uint d <> [].
Proof. destruct d; simpl; congruence. Qed.

(** The digits of a positive number do not start with a zero. *)
Lemma to_uint_head (p : positive) (d : Decimal.uint) :
  Pos.to_uint p <> Decimal.D0 d.
Proof.
  intros E.
  assert (Hn : Decimal.unorm (Pos.to_uint p) = Pos.to_uint p).
  { rewrite <- (DecimalN.Unsigned.to_of (Pos.to_uint p)).
    change (N.of_uint (Pos.to_uint p)) with (Pos.of_uint (Pos.to_uint p)).
    rewrite DecimalPos.Unsigned.of_to. reflexivity. }
  rewrite E in Hn. rewrite DecimalFacts.unorm_D0 in Hn.
  destruct (Decimal.uint_eq_dec d Decimal.Nil) as [-> | Hd].
  - apply (DecimalPos.Unsigned.to_uint_nonzero p). exact E.
  - pose proof (DecimalFacts.nb_digits_unorm d Hd) as Hle.
    rewrite Hn in Hle. simpl in Hle. lia.
Qed.

Lemma eval_digits_to_uint (p : positive) :
  Py.eval_digits (Py.chars_of_uint (Pos.to_uint p)) = Ok (Zpos p).
Proof.
  unfold Py.eval_digits.
  assert (E : Py.uint_of_chars (Py.chars_of_uint (Pos.to_uint p)) =
              Some (Pos.to_uint p)) by apply uint_of_chars_of_uint.
  assert (V : Z.of_N (N.of_uint (Pos.to_uint p)) = Zpos p).
  { change (N.of_uint (Pos.to_uint p)) with (Pos.of_uint (Pos.to_uint p)).
    rewrite DecimalPos.Unsigned.of_to. reflexivity. }
  destruct (Pos.to_uint p) as [|d|d|d|d|d|d|d|d|d|d] eqn:Ep;
    try (exfalso; exact (to_uint_head p d Ep));
    cbn [Py.chars_of_uint]; cbn [Py.chars_of_uint] in E;
    rewrite E, V; reflexivity.
Qed.

Lemma literal_eval_repr_int (z : Z) :
  Py.literal_eval (Py.str_int z) = Ok (Py.VInt z).
Proof.
  unfold Py.str_int. destruct z as [|p|p]; [reflexivity | |].
  - cbn [Z.to_int]. unfold Py.literal_eval.
    pose proof (digits_chars_of_uint (Pos.to_uint p)) as Hd.
    pose proof (chars_of_uint_nonnil (Pos.to_uint p)
                  (DecimalPos.Unsigned.to_uint_nonnil p)) as Hne.
    destruct (Py.chars_of_uint (Pos.to_uint p)) as [|c t] eqn:E; [congruence|].
    inversion Hd as [|? ? Hc Ht]; subst.
    assert (Hq : Ascii.eqb c Py.squote || Ascii.eqb c Py.dquote = false).
    { revert Hc. clear. destruct c as [[] [] [] [] [] [] [] []]; vm_compute; congruence. }
    assert (Hm : Ascii.eqb c "-" = false).
    { revert Hc. clear. destruct c as [[] [] [] [] [] [] [] []]; vm_compute; congruence. }
    rewrite Hq, Hm. unfold Py.eval_number.
    rewrite split_at_dot_digits by assumption.
    rewrite <- E, eval_digits_to_uint. reflexivity.
  - cbn [Z.to_int]. unfold Py.literal_eval.
    change (Ascii.eqb "-" Py.squote || Ascii.eqb "-" Py.dquote) with false.
    cbn [Ascii.eqb Bool.eqb andb]. unfold Py.eval_number.
    rewrite split_at_dot_digits by apply digits_chars_of_uint.
    rewrite eval_digits_to_uint. reflexivity.
Qed.

(** ** Stepping through the combinators *)

Lemma fails_MatchFirst_from (b : bool) (s : str) (l : list parser) :
  Forall (fun q => fails q b s) l ->
  forall mx, fails (MatchFirst_from mx l) b s.
Proof.
  induction 1 as [|p l (r & m & Hp) _ IH]; intros mx.
  - destruct mx as [[r m]|]; simpl; unfold fails; simpl; eauto.
  - unfold fails. simpl. rewrite Hp. apply IH.
Qed.

Lemma fails_MatchFirst (b : bool) (s : str) (l : list parser) :
  Forall (fun q => fails q b s) l -> fails (MatchFirst l) b s.
Proof. intros H. apply fails_MatchFirst_from. exact H. Qed.

Lemma MatchFirst_from_Ok (b : bool) (s : str) (l1 : list parser) :
  Forall (fun q => fails q b s) l1 ->
  forall p l2 mx r, p b s = Ok r -> MatchFirst_from mx (l1 ++ p :: l2) b s = Ok r.
Proof.
  induction 1 as [|q l1 (r' & m & Hq) _ IH]; intros p l2 mx r Hp.
  - simpl. rewrite Hp. reflexivity.
  - simpl. rewrite Hq. apply IH. exact Hp.
Qed.

Lemma yields_MatchFirst (b : bool) (s : str) (l1 : list parser) (p : parser)
    (l2 : list parser) (toks : tokens) (rest : str) :
  Forall (fun q => fails q b s) l1 ->
  yields p b s toks rest ->
  yields (MatchFirst (l1 ++ p :: l2)) b s toks rest.
Proof.
  intros Hf (t & Hp & Ht). exists t. split; [|exact Ht].
  unfold MatchFirst. apply MatchFirst_from_Ok; assumption.
Qed.

Lemma yields_MatchFirst_head (b : bool) (s : str) (p : parser)
    (l2 : list parser) (toks : tokens) (rest : str) :
  yields p b s toks rest -> yields (MatchFirst (p :: l2)) b s toks rest.
Proof. apply (yields_MatchFirst b s [] p l2). constructor. Qed.

Lemma fails_And_head (b : bool) (s : str) (p : parser) (l : list parser) :
  fails p b s -> fails (And (p :: l)) b s.
Proof. intros (r & m & H). exists r, m. simpl. rewrite H. reflexivity. Qed.

Lemma fails_And_next (b : bool) (s s1 : str) (p : parser) (l : list parser)
    (t : tokens) :
  p b s = Ok (t, s1) -> fails (And l) b s1 -> fails (And (p :: l)) b s.
Proof.
  intros Hp (r & m & H). exists r, m. simpl. rewrite Hp. simpl. rewrite H.
  reflexivity.
Qed.

Lemma yields_And_cons (b : bool) (s s1 rest : str) (p : parser) (l : list parser)
    (t1 t2 : tokens) :
  yields p b s t1 s1 -> yields (And l) b s1 t2 rest ->
  yields (And (p :: l)) b s (t1 ++ t2) rest.
Proof.
  intros (u1 & H1 & E1) (u2 & H2 & E2). exists (u1 ++ u2). split.
  - simpl. rewrite H1. simpl. rewrite H2. reflexivity.
  - intros Hb. rewrite E1, E2 by exact Hb. reflexivity.
Qed.

Lemma yields_And_nil (b : bool) (s : str) : yields (And []) b s [] s.
Proof. exists []. split; reflexivity. Qed.

Lemma fails_setParseAction (b : bool) (s : str) (p : parser)
    (fn : tokens -> res tokens) :
  fails p b s -> fails (setParseAction p fn) b s.
Proof.
  intros (r & m & H). exists r, m. unfold setParseAction. rewrite H. reflexivity.
Qed.

Lemma yields_setParseAction (b : bool) (s rest : str) (p : parser)
    (fn : tokens -> res tokens) (t t' : tokens) :
  yields p b s t rest -> fn t = Ok t' -> yields (setParseAction p fn) b s t' rest.
Proof.
  intros (u & H & E) Hfn. unfold yields, setParseAction. rewrite H. simpl.
  destruct b.
  - rewrite (E eq_refl), Hfn. simpl. eauto.
  - exists u. split; [reflexivity | discriminate].
Qed.

(** ** Tokens *)

Lemma yields_Literal (b : bool) (s m rest : str) :
  preParse s = m ++ rest -> yields (Literal m) b s [text m] rest.
Proof.
  intros Hs. exists [text m]. split; [|reflexivity].
  unfold Literal. rewrite Hs, startswith_app, skipn_length_app. reflexivity.
Qed.

Lemma fails_Literal (b : bool) (s m : str) :
  Py.startswith (preParse s) m = false -> fails (Literal m) b s.
Proof. intros H. unfold fails, Literal. rewrite H. eauto. Qed.

Lemma fails_CaselessKeyword (b : bool) (s m : str) :
  Py.eqb (Py.upper (firstn (length m) (preParse s))) (Py.upper m) = false ->
  fails (CaselessKeyword m) b s.
Proof. intros H. unfold fails, CaselessKeyword. rewrite H. simpl. eauto. Qed.

Lemma boundary_identChars (c : ascii) (r : str) :
  boundary (c :: r) -> identChars (Py.upper_char c) = false.
Proof.
  intros H. destruct (H c r eq_refl) as (Ha & _ & Hu & Hd).
  unfold Py.isalnum, Py.isalpha in Ha.
  apply orb_false_iff in Ha. destruct Ha as [Ha Hdig].
  apply orb_false_iff in Ha. destruct Ha as [Hup Hlo].
  unfold Py.upper_char. rewrite Hlo. unfold identChars.
  rewrite Hup, Hdig. simpl.
  destruct (Ascii.eqb c "_") eqn:E1; [apply Ascii.eqb_eq in E1; contradiction|].
  destruct (Ascii.eqb c "$") eqn:E2; [apply Ascii.eqb_eq in E2; contradiction|].
  reflexivity.
Qed.

Lemma yields_CaselessKeyword (b : bool) (s k m rest : str) :
  preParse s = k ++ rest -> length k = length m -> Py.upper k = Py.upper m ->
  boundary rest ->
  yields (CaselessKeyword m) b s [text m] rest.
Proof.
  intros Hs Hlen Hup Hb. exists [text m]. split; [|reflexivity].
  unfold CaselessKeyword. rewrite Hs, <- Hlen, firstn_length_app, skipn_length_app.
  rewrite Hup. replace (Py.eqb (Py.upper m) (Py.upper m)) with true
    by (symmetry; apply str_eqb_eq; reflexivity).
  destruct rest as [|c r]; [reflexivity|].
  rewrite (boundary_identChars c r Hb). reflexivity.
Qed.

Lemma span_app (p : ascii -> bool) (xs rest : str) :
  Forall (fun c => p c = true) xs ->
  (forall c r, rest = c :: r -> p c = false) ->
  span p (xs ++ rest) = (xs, rest).
Proof.
  intros Hxs Hrest. induction Hxs as [|x xs Hx _ IH]; simpl.
  - destruct rest as [|c r]; [reflexivity|]. simpl. rewrite (Hrest c r eq_refl). reflexivity.
  - rewrite Hx, IH. reflexivity.
Qed.

Lemma yields_Word (b : bool) (s rest : str) (c : ascii) (cs : str) :
  preParse s = (c :: cs) ++ rest ->
  Py.isalpha c = true -> Forall (fun x => Py.isalnum x = true) cs ->
  boundary rest ->
  yields (Word alphas alphanums) b s [text (c :: cs)] rest.
Proof.
  intros Hs Hc Hcs Hb. exists [text (c :: cs)]. split; [|reflexivity].
  unfold Word. rewrite Hs. simpl app. unfold alphas at 1. rewrite Hc.
  rewrite (span_app alphanums cs rest Hcs); [reflexivity|].
  intros x r ->. exact (proj1 (Hb x r eq_refl)).
Qed.

Lemma fails_Word (b : bool) (s : str) :
  (forall c r, preParse s = c :: r -> Py.isalpha c = false) ->
  fails (Word alphas alphanums) b s.
Proof.
  intros H. unfold fails, Word. destruct (preParse s) as [|c r]; [eauto|].
  unfold alphas. rewrite (H c r eq_refl). eauto.
Qed.

Lemma yields_Regex (b : bool) (s m rest : str) (r : Re.regex) :
  preParse s = m ++ rest ->
  Re.rmatch r (m ++ rest) (fun s' => Some s') = Some rest ->
  yields (Regex r) b s [text m] rest.
Proof.
  intros Hs Hm. exists [text m]. split; [|reflexivity].
  unfold Regex. rewrite Hs, (re_match_prefix r m rest Hm). reflexivity.
Qed.

Lemma fails_Regex (b : bool) (s : str) (r : Re.regex) :
  Re.rmatch r (preParse s) (fun s' => Some s') = None -> fails (Regex r) b s.
Proof.
  intros H. unfold fails, Regex, Re.re_match. rewrite H. eauto.
Qed.

Lemma yields_QuotedString (b : bool) (s m rest : str) (q e : ascii)
    (esc : option ascii) :
  preParse s = m ++ rest ->
  Re.rmatch (quoted_pattern q esc e) (m ++ rest) (fun s' => Some s') = Some rest ->
  yields (QuotedString q esc false e) b s [text m] rest.
Proof.
  intros Hs Hm. exists [text m]. split; [|reflexivity].
  unfold QuotedString. rewrite Hs, (re_match_prefix _ m rest Hm). reflexivity.
Qed.

Lemma fails_QuotedString (b : bool) (s : str) (q e : ascii) (esc : option ascii)
    (u : bool) :
  (forall c r, preParse s = c :: r -> c <> q) ->
  fails (QuotedString q esc u e) b s.
Proof.
  intros H. unfold fails, QuotedString, Re.re_match.
  destruct (preParse s) as [|c r] eqn:E.
  - simpl. eauto.
  - cbn [quoted_pattern Re.rmatch].
    destruct (Ascii.eqb c q) eqn:Ec.
    + apply Ascii.eqb_eq in Ec. exfalso. exact (H c r eq_refl Ec).
    + eauto.
Qed.

(** ** Integer constants *)

Lemma star_class_none (p : ascii -> bool) (xs rest : str) (k : Re.cont) :
  Forall (fun c => p c = true) xs ->
  (forall c r, rest = c :: r -> p c = false) ->
  (forall i, k (skipn i xs ++ rest) = None) ->
  forall n, Re.star (Re.rmatch (Re.Cls p)) n (xs ++ rest) k = None.
Proof.
  intros Hxs Hrest. revert k. induction Hxs as [|x xs Hx _ IH]; intros k Hk n.
  - pose proof (Hk 0) as H0. simpl in H0.
    destruct n as [|n]; [exact H0|]. rewrite star_S.
    destruct rest as [|c r]; [exact H0|].
    simpl app. rewrite rmatch_class_cons, (Hrest c r eq_refl). exact H0.
  - pose proof (Hk 0) as H0. simpl in H0.
    destruct n as [|n]; [exact H0|]. rewrite star_S. simpl app.
    rewrite rmatch_class_cons, Hx, ltb_length_cons.
    rewrite IH; [exact H0|]. intros i. exact (Hk (S i)).
Qed.

Lemma boundary_not_digit (rest : str) :
  boundary rest -> forall c r, rest = c :: r -> Py.isdigit c = false.
Proof.
  intros H c r E. destruct (H c r E) as [Ha _].
  unfold Py.isalnum in Ha. apply orb_false_iff in Ha. tauto.
Qed.

Lemma skipn_digits (i : nat) (ds : str) : digits ds -> digits (skipn i ds).
Proof.
  intros H. revert i. induction H as [|c ds Hc Hds IH]; intros [|i]; simpl.
  - constructor.
  - constructor.
  - constructor; assumption.
  - apply IH.
Qed.

Lemma float_tail_fails (ds rest : str) :
  digits ds -> boundary rest ->
  Re.rmatch (Re.Seq (Re.Star Re.digit) (Re.Seq (Re.Chr ".") (Re.Plus Re.digit)))
            (ds ++ rest) (fun s' => Some s') = None.
Proof.
  intros Hds Hb.
  change (Re.star (Re.rmatch Re.digit) (length (ds ++ rest)) (ds ++ rest)
            (fun s' => Re.rmatch (Re.Seq (Re.Chr ".") (Re.Plus Re.digit)) s'
                         (fun s'' => Some s'')) = None).
  apply star_class_none; auto.
  - apply boundary_not_digit. exact Hb.
  - intros i. pose proof (skipn_digits i ds Hds) as Hi.
    destruct (skipn i ds) as [|c t].
    + destruct rest as [|c r]; [reflexivity|].
      destruct (Hb c r eq_refl) as (_ & Hdot & _).
      simpl. destruct (Ascii.eqb c ".") eqn:E; [|reflexivity].
      apply Ascii.eqb_eq in E. contradiction.
    + inversion Hi as [|? ? Hc _]; subst.
      simpl. rewrite (isdigit_not_dot c Hc). reflexivity.
Qed.

Lemma float_re_fails_digits (ds rest : str) :
  digits ds -> ds <> [] -> boundary rest ->
  Re.rmatch FLOAT_CONSTANT_re (ds ++ rest) (fun s' => Some s') = None /\
  Re.rmatch FLOAT_CONSTANT_re ("-" ++ ds ++ rest) (fun s' => Some s') = None.
Proof.
  intros Hds Hne Hb. rewrite !float_re_unfold.
  pose proof (float_tail_fails ds rest Hds Hb) as Ht.
  split.
  - rewrite Ht. destruct ds as [|c ds]; [contradiction|].
    inversion Hds as [|? ? Hc _]; subst. simpl app.
    cbn [Re.rmatch].
    destruct (Ascii.eqb c "-") eqn:E; [|reflexivity].
    apply Ascii.eqb_eq in E. subst. discriminate.
  - change (Re.rmatch (Re.Chr "-") ("-" ++ ds ++ rest))
      with (fun k : Re.cont => k (ds ++ rest)).
    cbv beta. rewrite Ht. reflexivity.
Qed.

Lemma int_tail_match (ds rest : str) :
  digits ds -> ds <> [] -> boundary rest ->
  Re.rmatch (Re.Seq (Re.Plus Re.digit) (Re.NotAhead (Re.Chr "."))) (ds ++ rest)
            (fun s' => Some s') = Some rest.
Proof.
  intros Hds Hne Hb. destruct ds as [|c ds]; [contradiction|].
  inversion Hds as [|? ? Hc Hds']; subst. simpl app.
  change (Re.rmatch Re.digit (c :: ds ++ rest)
            (fun s' => Re.star (Re.rmatch Re.digit) (length s') s'
                         (fun s'' => Re.rmatch (Re.NotAhead (Re.Chr ".")) s''
                                       (fun s3 => Some s3))) = Some rest).
  unfold Re.digit. rewrite rmatch_class_cons, Hc.
  apply star_class_greedy; auto.
  - apply boundary_not_digit. exact Hb.
  - destruct rest as [|x r]; [reflexivity|].
    destruct (Hb x r eq_refl) as (_ & Hdot & _).
    simpl. destruct (Ascii.eqb x ".") eqn:E; [|reflexivity].
    apply Ascii.eqb_eq in E. contradiction.
Qed.

Lemma int_re_unfold (s : str) :
  Re.rmatch INT_CONSTANT_re s (fun s' => Some s') =
  match Re.rmatch (Re.Chr "-") s
          (fun s' => Re.rmatch (Re.Seq (Re.Plus Re.digit) (Re.NotAhead (Re.Chr ".")))
                               s' (fun s'' => Some s'')) with
  | Some x => Some x
  | None => Re.rmatch (Re.Seq (Re.Plus Re.digit) (Re.NotAhead (Re.Chr ".")))
                      s (fun s'' => Some s'')
  end.
Proof. reflexivity. Qed.

Lemma int_re_match (ds rest : str) :
  digits ds -> ds <> [] -> boundary rest ->
  Re.rmatch INT_CONSTANT_re (ds ++ rest) (fun s' => Some s') = Some rest /\
  Re.rmatch INT_CONSTANT_re ("-" ++ ds ++ rest) (fun s' => Some s') = Some rest.
Proof.
  intros Hds Hne Hb. rewrite !int_re_unfold.
  pose proof (int_tail_match ds rest Hds Hne Hb) as Ht.
  split.
  - rewrite Ht. destruct (Re.rmatch (Re.Chr "-") (ds ++ rest) _) as [x|] eqn:E;
      [|reflexivity].
    destruct ds as [|c ds]; [contradiction|].
    inversion Hds as [|? ? Hc _]; subst. simpl in E.
    destruct (Ascii.eqb c "-") eqn:E'; [|discriminate].
    apply Ascii.eqb_eq in E'. subst. discriminate.
  - change (Re.rmatch (Re.Chr "-") ("-" ++ ds ++ rest))
      with (fun k : Re.cont => k (ds ++ rest)).
    cbv beta. rewrite Ht. reflexivity.
Qed.

(** The text of an integer: an optional sign and digits. *)
Lemma str_int_shape (z : Z) :
  exists ds, digits ds /\ ds <> [] /\
             (Py.str_int z = ds \/ Py.str_int z = "-" ++ ds).
Proof.
  unfold Py.str_int. destruct z as [|p|p]; cbn [Z.to_int].
  - exists "0". repeat split; [repeat constructor | discriminate | left; reflexivity].
  - exists (Py.chars_of_uint (Pos.to_uint p)).
    split; [apply digits_chars_of_uint|]. split; [|left; reflexivity].
    apply chars_of_uint_nonnil, DecimalPos.Unsigned.to_uint_nonnil.
  - exists (Py.chars_of_uint (Pos.to_uint p)).
    split; [apply digits_chars_of_uint|]. split; [|right; reflexivity].
    apply chars_of_uint_nonnil, DecimalPos.Unsigned.to_uint_nonnil.
Qed.

Lemma digit_head (c : ascii) :
  Py.isdigit c = true ->
  whitespace c = false /\ c <> Py.squote /\ c <> Py.dquote.
Proof.
  destruct c as [[] [] [] [] [] [] [] []]; vm_compute; intros H;
    try discriminate H; repeat split; discriminate.
Qed.

Lemma yields_CONSTANT_int (b : bool) (s rest : str) (z : Z) :
  preParse s = Py.str_int z ++ rest -> boundary rest ->
  yields CONSTANT b s [TObj (Py.Scalar (Py.VInt z))] rest.
Proof.
  intros Hs Hb. unfold CONSTANT.
  apply (yields_setParseAction b s rest _ _ [text (Py.str_int z)]).
  2:{ unfold eval_constant, text. rewrite literal_eval_repr_int. reflexivity. }
  destruct (str_int_shape z) as (ds & Hds & Hne & Hz).
  destruct (int_re_match ds rest Hds Hne Hb) as [Hi1 Hi2].
  destruct (float_re_fails_digits ds rest Hds Hne Hb) as [Hf1 Hf2].
  assert (Hq : forall c r, preParse s = c :: r -> c <> Py.squote /\ c <> Py.dquote).
  { intros c r E. rewrite Hs in E. destruct Hz as [Hz | Hz]; rewrite Hz in E.
    - destruct ds as [|d ds]; [contradiction|]. inversion Hds; subst.
      injection E as <- _. apply digit_head. assumption.
    - injection E as <- _. split; discriminate. }
  apply (yields_MatchFirst b s [STRING_CONSTANT; FLOAT_CONSTANT] INT_CONSTANT []).
  - constructor; [|constructor; [|constructor]].
    + unfold STRING_CONSTANT. apply fails_MatchFirst.
      constructor; [|constructor; [|constructor]];
        apply fails_QuotedString; intros c r E; apply (Hq c r E).
    + apply fails_Regex. rewrite Hs.
      destruct Hz as [-> | ->]; [exact Hf1 | exact Hf2].
  - apply yields_Regex; [exact Hs|].
    destruct Hz as [-> | ->]; [exact Hi1|].
    rewrite <- app_assoc. exact Hi2.
Qed.

(** ** String constants *)

Lemma quoted_pattern_string (q : ascii) :
  quoted_pattern q (Some Py.bslash) q =
  Re.Seq (Re.Chr q) (Re.Seq (Re.Star (string_item q)) (Re.Chr q)).
Proof. reflexivity. Qed.

Lemma star_item_plain (q c : ascii) (t : str) (k : Re.cont) (n : nat) (v : str) :
  string_plain q c = true ->
  Re.star (Re.rmatch (string_item q)) n t k = Some v ->
  Re.star (Re.rmatch (string_item q)) (S n) (c :: t) k = Some v.
Proof.
  intros Hc H. rewrite star_S. unfold string_item at 1. cbn [Re.rmatch].
  rewrite Hc, ltb_length_cons. fold (string_item q). rewrite H. reflexivity.
Qed.

Lemma star_item_escape (q e : ascii) (t : str) (k : Re.cont) (n : nat) (v : str) :
  Ascii.eqb e Py.nl = false ->
  Re.star (Re.rmatch (string_item q)) n t k = Some v ->
  Re.star (Re.rmatch (string_item q)) (S n) (Py.bslash :: e :: t) k = Some v.
Proof.
  intros He H. rewrite star_S. unfold string_item at 1. cbn [Re.rmatch].
  assert (Hb : string_plain q Py.bslash = false).
  { unfold string_plain. cbn [existsb app].
    rewrite Ascii.eqb_refl, !orb_true_r. reflexivity. }
  rewrite Hb. unfold Re.dot. cbn [Re.rmatch].
  rewrite Ascii.eqb_refl, He. cbn [negb].
  replace (length t <? length (Py.bslash :: e :: t)) with true
    by (symmetry; apply Nat.ltb_lt; simpl; lia).
  fold (string_item q). rewrite H. reflexivity.
Qed.

Lemma star_item_stop (q : ascii) (rest : str) (n : nat) :
  q = Py.squote \/ q = Py.dquote ->
  Re.star (Re.rmatch (string_item q)) n (q :: rest)
          (fun s' => Re.rmatch (Re.Chr q) s' (fun s'' => Some s'')) = Some rest.
Proof.
  intros Hq. assert (E : Re.rmatch (Re.Chr q) (q :: rest) (fun s'' => Some s'') = Some rest).
  { simpl. rewrite Ascii.eqb_refl. reflexivity. }
  destruct n as [|n]; [exact E|].
  rewrite star_S. unfold string_item at 1. cbn [Re.rmatch].
  assert (Hp : string_plain q q = false).
  { unfold string_plain. cbn [existsb app]. rewrite Ascii.eqb_refl. reflexivity. }
  rewrite Hp.
  assert (Hb : Ascii.eqb q Py.bslash = false) by (destruct Hq; subst; reflexivity).
  rewrite Hb. exact E.
Qed.

(** Facts about single characters, by enumeration. *)
Lemma hexdigit_plain (q c : ascii) :
  q = Py.squote \/ q = Py.dquote ->
  string_plain q (Py.hexdigit (Py.ord c / 16)) = true /\
  string_plain q (Py.hexdigit (Py.ord c mod 16)) = true.
Proof.
  intros [-> | ->]; destruct c as [[] [] [] [] [] [] [] []]; vm_compute; split; reflexivity.
Qed.

Lemma hexdigit_decode (c : ascii) :
  Py.hex_digit (Py.hexdigit (Py.ord c / 16)) = Some (Py.ord c / 16)%N /\
  Py.hex_digit (Py.hexdigit (Py.ord c mod 16)) = Some (Py.ord c mod 16)%N /\
  ascii_of_N (16 * (Py.ord c / 16) + Py.ord c mod 16) = c.
Proof.
  destruct c as [[] [] [] [] [] [] [] []]; vm_compute; repeat split; reflexivity.
Qed.

Lemma hexdigit_plain_text (c : ascii) :
  plain_text [Py.hexdigit (Py.ord c / 16); Py.hexdigit (Py.ord c mod 16)].
Proof.
  destruct c as [[] [] [] [] [] [] [] []]; vm_compute;
    repeat constructor; discriminate.
Qed.

Lemma printable_not_control (c : ascii) :
  (Py.ord c <? 32)%N || (127 <=? Py.ord c)%N = false ->
  c <> Py.nl /\ c <> Py.cr /\ c <> Py.tab.
Proof.
  destruct c as [[] [] [] [] [] [] [] []]; vm_compute; intros H;
    try discriminate H; repeat split; discriminate.
Qed.

(** The pieces [repr] writes for one character. *)
Lemma repr_char_cases (q c : ascii) :
  (Py.repr_char q c = [Py.bslash; c] /\ (c = q \/ c = Py.bslash)) \/
  (Py.repr_char q c = "\t" /\ c = Py.tab) \/
  (Py.repr_char q c = "\n" /\ c = Py.nl) \/
  (Py.repr_char q c = "\r" /\ c = Py.cr) \/
  (Py.repr_char q c =
     [Py.bslash; "x"%char; Py.hexdigit (Py.ord c / 16); Py.hexdigit (Py.ord c mod 16)] /\
   c <> q /\ c <> Py.bslash) \/
  (Py.repr_char q c = [c] /\ c <> q /\ c <> Py.bslash /\
   c <> Py.nl /\ c <> Py.cr /\ c <> Py.tab).
Proof.
  unfold Py.repr_char.
  destruct (Ascii.eqb c q) eqn:Eq.
  { apply Ascii.eqb_eq in Eq. left. auto. }
  destruct (Ascii.eqb c Py.bslash) eqn:Eb.
  { apply Ascii.eqb_eq in Eb. left. auto. }
  apply Ascii.eqb_neq in Eq, Eb. cbn [orb].
  destruct (Ascii.eqb c Py.tab) eqn:Et.
  { apply Ascii.eqb_eq in Et. right; left. auto. }
  destruct (Ascii.eqb c Py.nl) eqn:En.
  { apply Ascii.eqb_eq in En. right; right; left. auto. }
  destruct (Ascii.eqb c Py.cr) eqn:Ec.
  { apply Ascii.eqb_eq in Ec. right; right; right; left. auto. }
  destruct ((Py.ord c <? 32)%N || (127 <=? Py.ord c)%N) eqn:Ep.
  { right; right; right; right; left. auto. }
  right; right; right; right; right.
  apply Ascii.eqb_neq in Et, En, Ec. repeat split; auto.
Qed.

Lemma quoted_body_match (q : ascii) (rest : str) :
  q = Py.squote \/ q = Py.dquote ->
  forall (x : str) (n : nat),
    length (flat_map (Py.repr_char q) x ++ q :: rest) <= n ->
    Re.star (Re.rmatch (string_item q)) n (flat_map (Py.repr_char q) x ++ q :: rest)
            (fun s' => Re.rmatch (Re.Chr q) s' (fun s'' => Some s'')) = Some rest.
Proof.
  intros Hq. induction x as [|c x IH]; intros n Hn.
  - apply star_item_stop. exact Hq.
  - cbn [flat_map] in *. rewrite <- app_assoc in *.
    assert (Hx : Ascii.eqb "x" Py.nl = false) by reflexivity.
    destruct (repr_char_cases q c)
      as [[E Hc] | [[E Hc] | [[E Hc] | [[E Hc] | [[E Hc] | [E Hc]]]]]];
      rewrite E in *; cbn [app length] in Hn |- *.
    + destruct n as [|n]; [lia|]. apply star_item_escape; [|apply IH; lia].
      destruct Hc as [-> | ->]; [destruct Hq; subst|]; reflexivity.
    + destruct n as [|n]; [lia|]. apply star_item_escape; [reflexivity|apply IH; lia].
    + destruct n as [|n]; [lia|]. apply star_item_escape; [reflexivity|apply IH; lia].
    + destruct n as [|n]; [lia|]. apply star_item_escape; [reflexivity|apply IH; lia].
    + destruct (hexdigit_plain q c Hq) as [H1 H2].
      destruct n as [|[|[|n]]]; try lia.
      apply star_item_escape; [reflexivity|].
      apply star_item_plain; [exact H1|].
      apply star_item_plain; [exact H2|]. apply IH. lia.
    + destruct n as [|n]; [lia|]. apply star_item_plain; [|apply IH; lia].
      destruct Hc as (H1 & H2 & H3 & H4 & _).
      unfold string_plain. cbn [existsb app].
      apply Ascii.eqb_neq in H1, H2, H3, H4. rewrite H1, H2, H3, H4. reflexivity.
Qed.

Lemma repr_str_match (x rest : str) :
  let q := Py.repr_quote x in
  (q = Py.squote \/ q = Py.dquote) /\
  Re.rmatch (quoted_pattern q (Some Py.bslash) q) (Py.repr_str x ++ rest)
            (fun s' => Some s') = Some rest.
Proof.
  intros q.
  assert (Hq : q = Py.squote \/ q = Py.dquote).
  { unfold q, Py.repr_quote. destruct (_ && _); auto. }
  split; [exact Hq|].
  rewrite quoted_pattern_string. unfold Py.repr_str. fold q.
  cbn [app]. rewrite <- app_assoc. cbn [app].
  change (Re.rmatch (Re.Chr q) (q :: flat_map (Py.repr_char q) x ++ q :: rest)
            (fun s' => Re.star (Re.rmatch (string_item q)) (length s') s'
                         (fun s'' => Re.rmatch (Re.Chr q) s'' (fun s3 => Some s3)))
          = Some rest).
  cbn [Re.rmatch]. rewrite Ascii.eqb_refl.
  apply quoted_body_match; [exact Hq | lia].
Qed.

Lemma unescape_plain (c : ascii) (t : str) :
  c <> Py.bslash ->
  Py.unescape (c :: t) = (r <- Py.unescape t ;; Ok (c :: r)).
Proof.
  intros H. apply Ascii.eqb_neq in H. simpl. rewrite H. reflexivity.
Qed.

Lemma unescape_hex (h1 h2 : ascii) (t : str) (a b : N) :
  Py.hex_digit h1 = Some a -> Py.hex_digit h2 = Some b ->
  Py.unescape (Py.bslash :: "x"%char :: h1 :: h2 :: t) =
  (r <- Py.unescape t ;; Ok (ascii_of_N (16 * a + b) :: r)).
Proof.
  intros H1 H2.
  change (Py.unescape (Py.bslash :: "x"%char :: h1 :: h2 :: t))
    with (match Py.hex_digit h1, Py.hex_digit h2 with
          | Some a, Some b => r <- Py.unescape t ;; Ok (ascii_of_N (16 * a + b) :: r)
          | _, _ => Raise (ValueError "invalid \x escape")
          end).
  rewrite H1, H2. reflexivity.
Qed.

Lemma unescape_repr (q : ascii) (x : str) :
  q = Py.squote \/ q = Py.dquote ->
  Py.unescape (flat_map (Py.repr_char q) x) = Ok x.
Proof.
  intros Hq. induction x as [|c x IH]; [reflexivity|].
  cbn [flat_map].
  destruct (repr_char_cases q c)
    as [[E Hc] | [[E Hc] | [[E Hc] | [[E Hc] | [[E Hc] | [E Hc]]]]]];
    rewrite E; cbn [app].
  - destruct Hc as [-> | ->]; [destruct Hq; subst|];
      change (Py.unescape (Py.bslash :: ?e :: ?t))
        with (r <- Py.unescape t ;; Ok (e :: r));
      rewrite IH; reflexivity.
  - subst c. change (Py.unescape ("\" :: "t" :: ?t)%char)
      with (r <- Py.unescape t ;; Ok (Py.tab :: r)). rewrite IH. reflexivity.
  - subst c. change (Py.unescape ("\" :: "n" :: ?t)%char)
      with (r <- Py.unescape t ;; Ok (Py.nl :: r)). rewrite IH. reflexivity.
  - subst c. change (Py.unescape ("\" :: "r" :: ?t)%char)
      with (r <- Py.unescape t ;; Ok (Py.cr :: r)). rewrite IH. reflexivity.
  - destruct (hexdigit_decode c) as (H1 & H2 & H3).
    rewrite (unescape_hex _ _ _ _ _ H1 H2), IH, H3. reflexivity.
  - rewrite unescape_plain by tauto. rewrite IH. reflexivity.
Qed.

Lemma literal_eval_repr_str (x : str) :
  Py.literal_eval (Py.repr_str x) = Ok (Py.VStr x).
Proof.
  assert (Hq : Py.repr_quote x = Py.squote \/ Py.repr_quote x = Py.dquote).
  { unfold Py.repr_quote. destruct (_ && _); auto. }
  unfold Py.literal_eval, Py.repr_str.
  replace (Ascii.eqb (Py.repr_quote x) Py.squote || Ascii.eqb (Py.repr_quote x) Py.dquote)
    with true by (destruct Hq as [-> | ->]; reflexivity).
  rewrite removelast_last, (unescape_repr _ x Hq). reflexivity.
Qed.

Lemma plain_text_app (a b : str) : plain_text a -> plain_text b -> plain_text (a ++ b).
Proof. intros Ha Hb. apply Forall_app. split; assumption. Qed.

Lemma repr_body_plain_text (q : ascii) (x : str) :
  q = Py.squote \/ q = Py.dquote -> plain_text (flat_map (Py.repr_char q) x).
Proof.
  intros Hq. induction x as [|c x IH]; [constructor|].
  cbn [flat_map]. apply plain_text_app; [|exact IH].
  destruct (repr_char_cases q c)
    as [[E Hc] | [[E Hc] | [[E Hc] | [[E Hc] | [[E Hc] | [E Hc]]]]]];
    rewrite E.
  - destruct Hc as [-> | ->]; [destruct Hq as [-> | ->]|];
      repeat constructor; discriminate.
  - repeat constructor; discriminate.
  - repeat constructor; discriminate.
  - repeat constructor; discriminate.
  - apply (plain_text_app "\x"); [repeat constructor; discriminate|].
    apply hexdigit_plain_text.
  - repeat constructor; tauto.
Qed.

Lemma repr_str_plain_text (x : str) : plain_text (Py.repr_str x).
Proof.
  assert (Hq : Py.repr_quote x = Py.squote \/ Py.repr_quote x = Py.dquote).
  { unfold Py.repr_quote. destruct (_ && _); auto. }
  assert (Hqp : plain_text [Py.repr_quote x]).
  { destruct Hq as [-> | ->]; repeat constructor; discriminate. }
  unfold Py.repr_str.
  apply (plain_text_app [Py.repr_quote x]); [exact Hqp|].
  apply plain_text_app; [|exact Hqp].
  apply repr_body_plain_text. exact Hq.
Qed.

Lemma yields_CONSTANT_str (b : bool) (s rest : str) (x : str) :
  preParse s = Py.repr_str x ++ rest ->
  yields CONSTANT b s [TObj (Py.Scalar (Py.VStr x))] rest.
Proof.
  intros Hs. unfold CONSTANT.
  apply (yields_setParseAction b s rest _ _ [text (Py.repr_str x)]).
  2:{ unfold eval_constant, text. rewrite literal_eval_repr_str. reflexivity. }
  apply yields_MatchFirst_head. unfold STRING_CONSTANT.
  destruct (repr_str_match x rest) as [Hq Hm]. cbv zeta in Hq, Hm.
  destruct Hq as [Hq | Hq]; rewrite Hq in Hm.
  - apply yields_MatchFirst_head. apply yields_QuotedString; assumption.
  - apply (yields_MatchFirst b s [_] _ []).
    + constructor; [|constructor]. apply fails_QuotedString.
      intros c r E. rewrite Hs in E. unfold Py.repr_str in E. rewrite Hq in E.
      injection E as <- _. discriminate.
    + apply yields_QuotedString; assumption.
Qed.

(** ** Names *)

Lemma contains_space_false (n : str) :
  Forall (fun c => c <> " "%char) n -> Py.contains n " " = false.
Proof.
  induction 1 as [|c n Hc _ IH]; [reflexivity|].
  cbn [Py.contains]. rewrite startswith_cons.
  apply Ascii.eqb_neq in Hc. rewrite Ascii.eqb_sym, Hc, IH. reflexivity.
Qed.

Lemma isalnum_head (c : ascii) :
  Py.isalnum c = true ->
  whitespace c = false /\ c <> " "%char /\ bracket_char c = true /\
  c <> Py.squote /\ c <> Py.dquote /\ c <> "-"%char /\ c <> "."%char /\
  c <> "("%char /\ c <> "["%char.
Proof.
  destruct c as [[] [] [] [] [] [] [] []]; vm_compute; intros H;
    try discriminate H; repeat split; discriminate.
Qed.

Lemma bare_name_shape (n : str) :
  bare_name n = true ->
  exists c cs, n = c :: cs /\ Py.isalpha c = true /\
               Forall (fun x => Py.isalnum x = true) cs.
Proof.
  destruct n as [|c cs]; [discriminate|]. simpl. intros H.
  apply andb_true_iff in H. destruct H as [Hc Hcs].
  exists c, cs. repeat split; auto.
  apply Forall_forall. apply forallb_forall. exact Hcs.
Qed.

Lemma bare_name_no_space (n : str) :
  bare_name n = true -> Py.contains n " " = false.
Proof.
  intros H. destruct (bare_name_shape n H) as (c & cs & -> & Hc & Hcs).
  apply contains_space_false. constructor.
  - apply isalnum_head. unfold Py.isalnum. rewrite Hc. reflexivity.
  - eapply Forall_impl; [|exact Hcs]. intros x Hx. apply isalnum_head. exact Hx.
Qed.

Lemma name_ok_cases (n : str) :
  name_ok n = true ->
  (bare_name n = true /\ name_text n = n) \/
  (Forall (fun c => bracket_char c = true) n /\ name_text n = "[" ++ n ++ "]").
Proof.
  unfold name_ok, name_text. destruct (Py.contains n " ") eqn:E; intros H.
  - right. split; [|reflexivity]. apply Forall_forall, forallb_forall. exact H.
  - left. auto.
Qed.

Lemma yields_IDENTIFIER (b : bool) (s rest : str) (n : str) :
  name_ok n = true -> preParse s = name_text n ++ rest -> boundary rest ->
  yields IDENTIFIER b s [TNode (ColumnRef n)] rest.
Proof.
  intros Hn Hs Hb. unfold IDENTIFIER.
  apply (yields_setParseAction b s rest _ _ [text n]); [|reflexivity].
  destruct (name_ok_cases n Hn) as [[Hbare Ht] | [Hbr Ht]]; rewrite Ht in Hs.
  - apply yields_MatchFirst_head.
    destruct (bare_name_shape n Hbare) as (c & cs & -> & Hc & Hcs).
    apply yields_Word; assumption.
  - apply (yields_MatchFirst b s [_] _ []).
    + constructor; [|constructor]. apply fails_Word.
      intros c r E. rewrite Hs in E. injection E as <- _. reflexivity.
    + exists [text n]. split; [|reflexivity].
      unfold QuotedString. rewrite Hs.
      assert (Hm : Re.rmatch (quoted_pattern "[" None "]") (("[" ++ n ++ "]") ++ rest)
                     (fun s' => Some s') = Some rest).
      { rewrite <- !app_assoc. cbn [app].
        change (Re.star (Re.rmatch (Re.NoneOf ("]"%char :: Py.nl :: Py.cr :: [])))
                  (length (n ++ "]" ++ rest)) (n ++ "]" ++ rest)
                  (fun s' => Re.rmatch (Re.Chr "]") s' (fun s'' => Some s''))
                = Some rest).
        apply star_class_greedy; auto.
        - eapply Forall_impl; [|exact Hbr]. intros c Hc.
          unfold bracket_char in Hc. apply negb_true_iff in Hc.
          apply orb_false_iff in Hc. destruct Hc as [Hc _].
          apply orb_false_iff in Hc. destruct Hc as [Hc H3].
          apply orb_false_iff in Hc. destruct Hc as [H1 H2].
          unfold Re.NoneOf. cbn [existsb]. rewrite H1, H2, H3. reflexivity.
        - intros c r E. injection E as <- _. reflexivity. }
      rewrite (re_match_prefix _ _ _ Hm).
      cbn [app tl]. rewrite removelast_last. reflexivity.
Qed.

(** ** Values *)

Lemma preParse_token (ws t rest : str) :
  all_ws ws -> starts_token t -> preParse (ws ++ t ++ rest) = t ++ rest.
Proof.
  intros Hws (c & t' & -> & Hc). rewrite preParse_ws_app by assumption.
  simpl. rewrite Hc. reflexivity.
Qed.

Lemma repr_value_ok (v : Py.value) :
  value_ok v = true -> Py.repr_value v = Ok (value_text v).
Proof.
  destruct v as [| x | z | q]; try discriminate; simpl; [reflexivity|].
  unfold int_in_range, Py.repr_int. intros ->. reflexivity.
Qed.

Lemma yields_CONSTANT (b : bool) (s rest : str) (v : Py.value) :
  value_ok v = true -> preParse s = value_text v ++ rest -> boundary rest ->
  yields CONSTANT b s [TObj (Py.Scalar v)] rest.
Proof.
  destruct v as [| x | z | q]; try discriminate; intros _ Hs Hb.
  - apply yields_CONSTANT_str. exact Hs.
  - apply yields_CONSTANT_int; assumption.
Qed.

Lemma str_int_starts (z : Z) : starts_token (Py.str_int z) /\ plain_text (Py.str_int z).
Proof.
  destruct (str_int_shape z) as (ds & Hds & Hne & Hz).
  assert (Hp : plain_text ds).
  { eapply Forall_impl; [|exact Hds]. intros c Hc.
    revert Hc. clear. destruct c as [[] [] [] [] [] [] [] []]; vm_compute; intros H;
      try discriminate H; repeat split; discriminate. }
  destruct ds as [|d ds]; [contradiction|]. inversion Hds; subst.
  destruct Hz as [-> | ->].
  - split; [|exact Hp]. exists d, ds. split; [reflexivity|]. apply digit_head. assumption.
  - split.
    + exists "-"%char, (d :: ds). split; reflexivity.
    + constructor; [repeat split; discriminate | exact Hp].
Qed.

Lemma value_text_starts (v : Py.value) :
  value_ok v = true -> starts_token (value_text v) /\ plain_text (value_text v).
Proof.
  destruct v as [| x | z | q]; try discriminate; intros _.
  - split; [|apply repr_str_plain_text].
    unfold value_text, Py.repr_str. eexists _, _. split; [reflexivity|].
    unfold Py.repr_quote. destruct (_ && _); reflexivity.
  - apply str_int_starts.
Qed.

Lemma fails_CONSTANT (b : bool) (s : str) :
  (forall c r, preParse s = c :: r ->
     Py.isdigit c = false /\ c <> Py.squote /\ c <> Py.dquote /\
     c <> "-"%char /\ c <> "."%char) ->
  fails CONSTANT b s.
Proof.
  intros H. unfold CONSTANT. apply fails_setParseAction. apply fails_MatchFirst.
  constructor; [|constructor; [|constructor; [|constructor]]].
  - unfold STRING_CONSTANT. apply fails_MatchFirst.
    constructor; [|constructor; [|constructor]]; apply fails_QuotedString;
      intros c r E; apply (H c r E).
  - apply fails_Regex. rewrite float_re_unfold.
    destruct (preParse s) as [|c r]; [reflexivity|].
    destruct (H c r eq_refl) as (Hd & _ & _ & Hm & Hdot).
    apply Ascii.eqb_neq in Hm, Hdot.
    cbn [Re.rmatch]. rewrite Hm.
    change (Re.star (Re.rmatch Re.digit) (length (c :: r)) ([] ++ c :: r)
              (fun s' => Re.rmatch (Re.Seq (Re.Chr ".") (Re.Plus Re.digit)) s'
                           (fun s'' => Some s'')) = None).
    apply star_class_none.
    + constructor.
    + intros x t E. injection E as <- _. exact Hd.
    + intros i. destruct i; simpl; rewrite Hdot; reflexivity.
  - apply fails_Regex. rewrite int_re_unfold.
    destruct (preParse s) as [|c r]; [reflexivity|].
    destruct (H c r eq_refl) as (Hd & _ & _ & Hm & Hdot).
    apply Ascii.eqb_neq in Hm.
    cbn [Re.rmatch]. rewrite Hm. unfold Re.digit. cbn [Re.rmatch]. rewrite Hd.
    reflexivity.
Qed.

Lemma name_text_starts (n : str) :
  name_ok n = true ->
  starts_token (name_text n) /\
  (forall c r, name_text n = c :: r ->
     Py.isdigit c = false /\ c <> Py.squote /\ c <> Py.dquote /\
     c <> "-"%char /\ c <> "."%char /\ c <> "("%char).
Proof.
  intros Hn. destruct (name_ok_cases n Hn) as [[Hbare ->] | [Hbr ->]].
  - destruct (bare_name_shape n Hbare) as (c & cs & -> & Hc & Hcs).
    assert (Hal : Py.isalnum c = true) by (unfold Py.isalnum; rewrite Hc; reflexivity).
    split.
    + exists c, cs. split; [reflexivity|]. apply isalnum_head. exact Hal.
    + intros c' r E. injection E as <- _.
      split; [|pose proof (isalnum_head c Hal); tauto].
      revert Hc. clear.
      destruct c as [[] [] [] [] [] [] [] []]; vm_compute; congruence.
  - split.
    + exists "["%char, (n ++ "]"). split; reflexivity.
    + intros c r E. injection E as <- _. repeat split; discriminate.
Qed.

Lemma operand_token_operand (w : node) :
  operand_ok w = true -> operand (operand_token w) = Ok w.
Proof. destruct w as [n | [v|l] | op l r]; try discriminate; reflexivity. Qed.

Lemma format_operand (w : node) (bracket brk : bool) :
  operand_ok w = true -> _format w bracket brk = Ok (operand_text w).
Proof.
  destruct w as [n | [v|l] | op l r]; try discriminate; simpl; intros H.
  - unfold name_text. destruct (Py.contains n " "); reflexivity.
  - apply repr_value_ok. exact H.
Qed.

Lemma yields_VALUE (b : bool) (s rest : str) (w : node) :
  operand_ok w = true -> preParse s = operand_text w ++ rest -> boundary rest ->
  yields VALUE b s [operand_token w] rest.
Proof.
  intros Hw Hs Hb. unfold VALUE.
  destruct w as [n | [v|l] | op l r]; try discriminate; simpl in *.
  - apply (yields_MatchFirst b s [_] _ []).
    + constructor; [|constructor]. apply fails_CONSTANT.
      intros c r E. rewrite Hs in E.
      destruct (name_text_starts n Hw) as [(c' & t & Et & _) Hh].
      rewrite Et in E. injection E as <- _.
      pose proof (Hh c' t Et). tauto.
    + apply yields_IDENTIFIER; assumption.
  - apply yields_MatchFirst_head. apply yields_CONSTANT; assumption.
Qed.

(** ** Operators and keywords *)

Lemma boundary_space (r : str) : boundary (" " ++ r).
Proof. intros c t E. injection E as <- _. repeat split; discriminate. Qed.

Lemma boundary_nil : boundary [].
Proof. intros c t E. discriminate. Qed.

Lemma boundary_ws (c : ascii) (r : str) : whitespace c = true -> boundary (c :: r).
Proof.
  intros H x t E. injection E as <- _. revert H. clear.
  destruct c as [[] [] [] [] [] [] [] []]; vm_compute; intros H;
    try discriminate H; repeat split; discriminate.
Qed.

Ltac fails_token Hs :=
  first [ apply fails_Regex | apply fails_Literal | apply fails_CaselessKeyword ];
  rewrite Hs; reflexivity.

Lemma yields_OPERATOR (b : bool) (s r : str) (op : str) :
  In op comparison_ops -> preParse s = op ++ " " ++ r ->
  yields OPERATOR b s [text op] (" " ++ r).
Proof.
  unfold comparison_ops, OPERATOR. intros Hop Hs.
  simpl in Hop. decompose [or] Hop; try contradiction; subst op.
  - apply yields_MatchFirst_head. apply yields_Regex; [exact Hs | reflexivity].
  - apply (yields_MatchFirst b s [_] _); [repeat constructor; fails_token Hs|].
    apply yields_Literal. exact Hs.
  - apply (yields_MatchFirst b s [_; _; _; _; _; _] _);
      [repeat constructor; fails_token Hs|].
    apply yields_Literal. exact Hs.
  - apply (yields_MatchFirst b s [_; _; _; _; _] _);
      [repeat constructor; fails_token Hs|].
    apply yields_Literal. exact Hs.
  - apply (yields_MatchFirst b s [_; _; _; _] _);
      [repeat constructor; fails_token Hs|].
    apply yields_Literal. exact Hs.
  - apply (yields_MatchFirst b s [_; _; _] _);
      [repeat constructor; fails_token Hs|].
    apply yields_Literal. exact Hs.
Qed.

Lemma yields_OPERATOR_like (b : bool) (s r : str) :
  preParse s = "LIKE" ++ " " ++ r ->
  yields OPERATOR b s [text "like"] (" " ++ r).
Proof.
  intros Hs. unfold OPERATOR.
  apply (yields_MatchFirst b s [_; _; _; _; _; _; _] _ []);
    [repeat constructor; fails_token Hs|].
  apply (yields_CaselessKeyword b s "LIKE"); auto using boundary_space.
Qed.

(** After a name, no operator follows in the other tests. *)
Lemma fails_OPERATOR (b : bool) (s : str) (c : ascii) (r : str) :
  preParse s = c :: r -> In c ["I"%char; "N"%char] -> fails OPERATOR b s.
Proof.
  intros Hs Hc. unfold OPERATOR. apply fails_MatchFirst.
  simpl in Hc. decompose [or] Hc; try contradiction; subst c;
    repeat constructor; fails_token Hs.
Qed.

(** ** List literals *)

Lemma yields_repeat_stop (p : parser) (n : nat) (b : bool) (s : str) :
  fails p b s -> yields (repeat_expr p (S n)) b s [] s.
Proof.
  intros (r & m & H). exists []. split; [|reflexivity].
  cbn [repeat_expr]. rewrite H. reflexivity.
Qed.

Lemma yields_repeat_step (p : parser) (n : nat) (b : bool) (s s1 rest : str)
    (t1 t2 : tokens) :
  yields p b s t1 s1 -> length s1 < length s ->
  yields (repeat_expr p n) b s1 t2 rest ->
  yields (repeat_expr p (S n)) b s (t1 ++ t2) rest.
Proof.
  intros (u1 & H1 & E1) Hlt (u2 & H2 & E2). exists (u1 ++ u2). split.
  - cbn [repeat_expr]. rewrite H1.
    apply Nat.ltb_lt in Hlt. rewrite Hlt, H2. reflexivity.
  - intros Hb. rewrite E1, E2 by exact Hb. reflexivity.
Qed.

Lemma yields_Optional_none (p : parser) (b : bool) (s : str) :
  fails p b s -> yields (Optional p) b s [] (preParse s).
Proof.
  intros (r & m & H). exists []. split; [|reflexivity].
  unfold Optional. rewrite H. reflexivity.
Qed.

Lemma yields_Optional_some (p : parser) (b : bool) (s rest : str) (t : tokens) :
  yields p b s t rest -> yields (Optional p) b s t rest.
Proof.
  intros (u & H & E). exists u. split; [|exact E].
  unfold Optional. rewrite H. reflexivity.
Qed.

Lemma yields_fail (p : parser) (name : str) (b : bool) (s rest : str) (t : tokens) :
  yields p b s t rest -> yields (fail p name) b s t rest.
Proof.
  intros (u & H & E). exists u. split; [|exact E].
  unfold fail, setFailAction. rewrite H. reflexivity.
Qed.

Lemma boundary_close (c : ascii) (r : str) :
  In c [","%char; "]"%char; ")"%char] -> boundary (c :: r).
Proof.
  intros Hc x t E. injection E as <- _.
  simpl in Hc. decompose [or] Hc; try contradiction; subst c;
    repeat split; discriminate.
Qed.

Lemma more_items_boundary (vs : list Py.value) (rest : str) :
  boundary (more_items_text vs ++ "]" ++ rest).
Proof.
  destruct vs as [|v vs]; simpl; apply boundary_close; simpl; auto.
Qed.

Lemma yields_more_items (b : bool) (rest : str) (vs : list Py.value) :
  Forall (fun v => value_ok v = true) vs ->
  forall n, length (more_items_text vs ++ "]" ++ rest) <= n ->
    yields (repeat_expr (And [COMMA; CONSTANT]) (S n)) b
           (more_items_text vs ++ "]" ++ rest) (more_items_tokens vs) ("]" ++ rest).
Proof.
  induction 1 as [|v vs Hv _ IH]; intros n Hn.
  - apply yields_repeat_stop. apply fails_And_head. apply fails_Literal. reflexivity.
  - cbn [more_items_text more_items_tokens flat_map] in *.
    fold (more_items_text vs) in *. fold (more_items_tokens vs).
    rewrite <- !app_assoc in *. cbn [app] in *.
    destruct n as [|n]; [simpl in Hn; lia|].
    apply (yields_repeat_step _ _ b _ (more_items_text vs ++ "]" ++ rest) _
             [text ","; TObj (Py.Scalar v)]).
    + apply (yields_And_cons b _ (" " ++ value_text v ++ more_items_text vs ++ "]" ++ rest)
               _ _ _ [text ","] [TObj (Py.Scalar v)]).
      * apply yields_Literal. reflexivity.
      * rewrite <- (app_nil_r [TObj (Py.Scalar v)]).
        apply (yields_And_cons b _ (more_items_text vs ++ "]" ++ rest)).
        -- apply yields_CONSTANT; [exact Hv | | apply more_items_boundary].
           apply (preParse_token " "); [repeat constructor|].
           apply value_text_starts. exact Hv.
        -- apply yields_And_nil.
    + simpl. rewrite !length_app. simpl. lia.
    + apply IH. simpl in Hn. rewrite length_app in Hn. lia.
Qed.

Lemma comma_separated_more (v : Py.value) (vs : list Py.value) :
  comma_separated (v :: vs) false = TObj (Py.Scalar v) :: more_items_tokens vs.
Proof.
  revert v. induction vs as [|v' vs IH]; intros v; [reflexivity|].
  change (comma_separated (v :: v' :: vs) false)
    with (TObj (Py.Scalar v) :: text "," :: comma_separated (v' :: vs) false).
  rewrite IH. reflexivity.
Qed.

Lemma yields_LIST (b : bool) (s rest : str) (v : Py.value) (vs : list Py.value) :
  Forall (fun x => value_ok x = true) (v :: vs) ->
  preParse s = list_text v vs ++ rest ->
  yields LIST b s [TObj (Py.PyList (v :: vs))] rest.
Proof.
  intros Hvs Hs. inversion Hvs as [|? ? Hv Hvs']; subst.
  unfold LIST. apply yields_fail.
  apply (yields_setParseAction b s rest _ _ (list_tokens (v :: vs) false));
    [|apply parseList_tokens].
  unfold list_tokens. rewrite comma_separated_more.
  unfold list_text in Hs. rewrite <- !app_assoc in Hs. cbn [app] in Hs.
  change (text "[" :: (TObj (Py.Scalar v) :: more_items_tokens vs) ++ [text "]"])
    with ([text "["] ++ [TObj (Py.Scalar v)] ++ more_items_tokens vs ++ [text "]"]).
  apply (yields_And_cons b s (value_text v ++ more_items_text vs ++ "]" ++ rest)).
  { apply yields_Literal. exact Hs. }
  apply (yields_And_cons b _ (more_items_text vs ++ "]" ++ rest)).
  { apply yields_CONSTANT; [exact Hv | | apply more_items_boundary].
    destruct (value_text_starts v Hv) as [(c & t & E & Hc) _].
    rewrite E. simpl. rewrite Hc. reflexivity. }
  assert (Hpre : preParse (more_items_text vs ++ "]" ++ rest) =
                 more_items_text vs ++ "]" ++ rest).
  { destruct vs; reflexivity. }
  apply (yields_And_cons b _ ("]" ++ rest)).
  { destruct (yields_more_items b rest vs Hvs' _ (le_n _)) as (t & Ht & Et).
    exists t. split; [|exact Et].
    unfold ZeroOrMore. rewrite Hpre. exact Ht. }
  rewrite <- (app_nil_l [text "]"]).
  apply (yields_And_cons b _ ("]" ++ rest)).
  { apply (yields_Optional_none COMMA b ("]" ++ rest)).
    apply fails_Literal. reflexivity. }
  rewrite <- (app_nil_r [text "]"]).
  apply (yields_And_cons b _ rest).
  { apply yields_Literal. reflexivity. }
  apply yields_And_nil.
Qed.

(** ** Tests *)

Lemma fails_And_after (b : bool) (s s1 : str) (p : parser) (l : list parser)
    (t : tokens) :
  yields p b s t s1 -> fails (And l) b s1 -> fails (And (p :: l)) b s.
Proof. intros (u & H & _) Hf. eapply fails_And_next; eauto. Qed.

Lemma operand_text_starts (w : node) :
  operand_ok w = true -> starts_token (operand_text w).
Proof.
  destruct w as [n | [v|l] | op l r]; try discriminate; simpl; intros H.
  - apply name_text_starts. exact H.
  - apply value_text_starts. exact H.
Qed.

Lemma preParse_space (t rest : str) :
  starts_token t -> preParse (" " ++ t ++ rest) = t ++ rest.
Proof. intros H. apply (preParse_token " "); [repeat constructor | exact H]. Qed.

Lemma yields_name_then (b : bool) (s rest : str) (n : str) (l : list parser)
    (t : tokens) (tail : str) :
  name_ok n = true ->
  preParse s = name_text n ++ " " ++ tail ->
  yields (And l) b (" " ++ tail) t rest ->
  yields (And (IDENTIFIER :: l)) b s (TNode (ColumnRef n) :: t) rest.
Proof.
  intros Hn Hs Hl.
  apply (yields_And_cons b s (" " ++ tail) rest IDENTIFIER l [TNode (ColumnRef n)] t).
  - apply yields_IDENTIFIER; [exact Hn | exact Hs | apply boundary_space].
  - exact Hl.
Qed.

Lemma fails_name_then (b : bool) (s : str) (n : str) (l : list parser) (tail : str) :
  name_ok n = true ->
  preParse s = name_text n ++ " " ++ tail ->
  fails (And l) b (" " ++ tail) ->
  fails (And (IDENTIFIER :: l)) b s.
Proof.
  intros Hn Hs Hl.
  apply (fails_And_after b s (" " ++ tail) IDENTIFIER l [TNode (ColumnRef n)]).
  - apply yields_IDENTIFIER; [exact Hn | exact Hs | apply boundary_space].
  - exact Hl.
Qed.

Lemma yields_keyword (b : bool) (k m tail : str) (l : list parser) (t : tokens)
    (rest : str) :
  starts_token k -> length k = length m -> Py.upper k = Py.upper m ->
  boundary tail ->
  yields (And l) b tail t rest ->
  yields (And (CaselessKeyword m :: l)) b (" " ++ k ++ tail) (text m :: t) rest.
Proof.
  intros Hk Hlen Hup Hb Hl.
  apply (yields_And_cons b _ tail rest (CaselessKeyword m) l [text m] t).
  - apply (yields_CaselessKeyword b _ k); auto. apply preParse_space. exact Hk.
  - exact Hl.
Qed.

Lemma yields_INFIX_expr (b : bool) (s rest : str) (n op : str) (r : node) :
  name_ok n = true -> In op comparison_ops -> operand_ok r = true ->
  preParse s = name_text n ++ " " ++ op ++ " " ++ operand_text r ++ rest ->
  boundary rest ->
  yields INFIX_TEST_expr b s [TNode (ColumnRef n); text op; operand_token r] rest.
Proof.
  intros Hn Hop Hr Hs Hb. unfold INFIX_TEST_expr.
  apply (yields_name_then b s rest n _ _ (op ++ " " ++ operand_text r ++ rest) Hn Hs).
  apply (yields_And_cons b _ (" " ++ operand_text r ++ rest) rest OPERATOR _ [text op]
           [operand_token r]).
  - apply yields_OPERATOR; [exact Hop|].
    unfold comparison_ops in Hop. simpl in Hop.
    decompose [or] Hop; try contradiction; subst op; reflexivity.
  - rewrite <- (app_nil_r [operand_token r]).
    apply (yields_And_cons b _ rest rest VALUE []).
    + apply yields_VALUE; [exact Hr | | exact Hb].
      apply preParse_space. apply operand_text_starts. exact Hr.
    + apply yields_And_nil.
Qed.

Lemma parseTest_comparison (n op : str) (r : node) :
  In op comparison_ops -> operand_ok r = true ->
  parseTest [TNode (ColumnRef n); text op; operand_token r] =
  Ok [TNode (Composite op (ColumnRef n) (Some r))].
Proof.
  intros Hop Hr. pose proof (operand_token_operand r Hr) as Ho.
  unfold comparison_ops in Hop. simpl in Hop.
  decompose [or] Hop; try contradiction; subst op;
    unfold parseTest, text; cbn [Py.dict_get OPS Py.eqb Ascii.eqb Bool.eqb andb];
    unfold operator_eq, operator_ne, operator_lt, operator_gt, operator_le,
      operator_ge, apply_op; rewrite Ho; reflexivity.
Qed.

Lemma format_comparison (n op : str) (r : node) (bracket brk : bool) :
  In op comparison_ops -> operand_ok r = true ->
  _format (Composite op (ColumnRef n) (Some r)) bracket brk =
  Ok (name_text n ++ " " ++ op ++ " " ++ operand_text r).
Proof.
  intros Hop Hr. pose proof (format_operand r false false Hr) as Hf.
  unfold comparison_ops in Hop. simpl in Hop.
  decompose [or] Hop; try contradiction; subst op;
    cbn [_format]; rewrite Hf; unfold name_text;
    destruct (Py.contains n " "); reflexivity.
Qed.

Lemma yields_TEST_comparison (b : bool) (s rest : str) (n op : str) (r : node) :
  name_ok n = true -> In op comparison_ops -> operand_ok r = true ->
  preParse s = (name_text n ++ " " ++ op ++ " " ++ operand_text r) ++ rest ->
  boundary rest ->
  yields TEST b s [TNode (Composite op (ColumnRef n) (Some r))] rest.
Proof.
  intros Hn Hop Hr Hs Hb. rewrite <- !app_assoc in Hs.
  unfold TEST. apply yields_MatchFirst_head. unfold INFIX_TEST.
  eapply yields_setParseAction.
  - apply yields_INFIX_expr; eauto.
  - apply parseTest_comparison; assumption.
Qed.

Lemma count_app (a b : str) (c : ascii) :
  Py.count (a ++ b) c = Py.count a c + Py.count b c.
Proof. induction a as [|x a IH]; simpl; [reflexivity | rewrite IH; lia]. Qed.

Lemma count_no_percent (s : str) : no_percent s = true -> Py.count s "%" = 0.
Proof.
  unfold no_percent. induction s as [|c s IH]; [reflexivity|].
  cbn [existsb Py.count]. intros H. apply negb_true_iff in H.
  apply orb_false_iff in H. destruct H as [Hc Hs].
  rewrite Ascii.eqb_sym, Hc. cbn [Nat.add]. apply IH.
  rewrite Hs. reflexivity.
Qed.

Lemma endswith_last (s : str) (c : ascii) : Py.endswith (s ++ [c]) [c] = true.
Proof.
  unfold Py.endswith. rewrite rev_unit. cbn [rev app].
  rewrite startswith_cons, Ascii.eqb_refl. reflexivity.
Qed.

Lemma make_like_like (a : node) (s : str) :
  no_percent s = true ->
  make_like (TNode a) (TObj (Py.Scalar (Py.VStr ("%" ++ s ++ "%")))) =
  Ok (Composite "like" a (Some (str_const s))).
Proof.
  intros H. unfold make_like. cbn [negb Py.is_basestring].
  assert (Hc : Py.count ("%" ++ s ++ "%") "%" = 2).
  { rewrite !count_app, (count_no_percent s H). reflexivity. }
  rewrite Hc. cbn [Nat.eqb].
  change ("%" ++ s ++ "%") with (("%"%char :: s) ++ "%").
  rewrite endswith_last. cbn [app]. rewrite startswith_cons. cbn [Ascii.eqb Bool.eqb andb].
  change (Py.startswith (s ++ "%") []) with true. cbn [andb tl].
  rewrite removelast_last. reflexivity.
Qed.

Lemma make_like_startsWith (a : node) (c : ascii) (s : str) :
  no_percent (c :: s) = true ->
  make_like (TNode a) (TObj (Py.Scalar (Py.VStr ((c :: s) ++ "%")))) =
  Ok (Composite "startsWith" a (Some (str_const (c :: s)))).
Proof.
  intros H. unfold make_like. cbn [negb Py.is_basestring].
  assert (Hc : Py.count ((c :: s) ++ "%") "%" = 1).
  { rewrite !count_app, (count_no_percent _ H). reflexivity. }
  rewrite Hc. cbn [Nat.eqb]. rewrite endswith_last.
  assert (Hs : Py.startswith ((c :: s) ++ "%") "%" = false).
  { cbn [app]. rewrite startswith_cons.
    unfold no_percent in H. cbn [existsb] in H. apply negb_true_iff in H.
    apply orb_false_iff in H. destruct H as [H _]. rewrite H. reflexivity. }
  rewrite Hs, removelast_last. reflexivity.
Qed.

Lemma make_like_endsWith (a : node) (s : str) :
  no_percent s = true ->
  make_like (TNode a) (TObj (Py.Scalar (Py.VStr ("%" ++ s)))) =
  Ok (Composite "endsWith" a (Some (str_const s))).
Proof.
  intros H. unfold make_like. cbn [negb Py.is_basestring].
  assert (Hc : Py.count ("%" ++ s) "%" = 1).
  { rewrite !count_app, (count_no_percent s H). reflexivity. }
  rewrite Hc. cbn [Nat.eqb app]. rewrite startswith_cons. reflexivity.
Qed.

Lemma yields_LIKE_expr (b : bool) (s rest : str) (n p : str) :
  name_ok n = true ->
  preParse s = (name_text n ++ " LIKE " ++ Py.repr_str p) ++ rest ->
  boundary rest ->
  yields INFIX_TEST_expr b s
         [TNode (ColumnRef n); text "like"; TObj (Py.Scalar (Py.VStr p))] rest.
Proof.
  intros Hn Hs Hb. rewrite <- !app_assoc in Hs. unfold INFIX_TEST_expr.
  apply (yields_name_then b s rest n _ _ ("LIKE " ++ Py.repr_str p ++ rest) Hn Hs).
  apply (yields_And_cons b _ (" " ++ Py.repr_str p ++ rest) rest OPERATOR _
           [text "like"] [TObj (Py.Scalar (Py.VStr p))]).
  - apply yields_OPERATOR_like. reflexivity.
  - rewrite <- (app_nil_r [TObj (Py.Scalar (Py.VStr p))]).
    apply (yields_And_cons b _ rest rest VALUE []).
    + apply (yields_VALUE b _ rest (str_const p)); [reflexivity | | exact Hb].
      apply preParse_space. apply (value_text_starts (Py.VStr p)). reflexivity.
    + apply yields_And_nil.
Qed.

Lemma yields_TEST_like (b : bool) (s rest : str) (n p : str) (w : node) :
  name_ok n = true ->
  make_like (TNode (ColumnRef n)) (TObj (Py.Scalar (Py.VStr p))) = Ok w ->
  preParse s = (name_text n ++ " LIKE " ++ Py.repr_str p) ++ rest ->
  boundary rest ->
  yields TEST b s [TNode w] rest.
Proof.
  intros Hn Hw Hs Hb.
  unfold TEST. apply yields_MatchFirst_head. unfold INFIX_TEST.
  eapply yields_setParseAction.
  - apply yields_LIKE_expr; eauto.
  - unfold parseTest, text. cbn [Py.dict_get OPS Py.eqb Ascii.eqb Bool.eqb andb].
    rewrite Hw. reflexivity.
Qed.

Lemma format_like (n op s p : str) (bracket brk : bool) :
  (op = "like" /\ p = "%" ++ s ++ "%") \/
  (op = "startsWith" /\ p = s ++ "%") \/
  (op = "endsWith" /\ p = "%" ++ s) ->
  _format (Composite op (ColumnRef n) (Some (str_const s))) bracket brk =
  Ok (name_text n ++ " LIKE " ++ Py.repr_str p).
Proof.
  intros [[-> ->] | [[-> ->] | [-> ->]]]; cbn [_format]; unfold name_text;
    destruct (Py.contains n " "); reflexivity.
Qed.

Lemma fails_INFIX_TEST (b : bool) (s : str) (n : str) (c : ascii) (tail : str) :
  name_ok n = true -> In c ["I"%char; "N"%char] ->
  preParse s = name_text n ++ " " ++ c :: tail ->
  fails INFIX_TEST b s.
Proof.
  intros Hn Hc Hs. unfold INFIX_TEST. apply fails_setParseAction.
  unfold INFIX_TEST_expr.
  apply (fails_name_then b s n _ (c :: tail) Hn Hs).
  apply fails_And_head. apply (fails_OPERATOR b _ c tail); [|exact Hc].
  simpl in Hc. decompose [or] Hc; try contradiction; subst c; reflexivity.
Qed.

Lemma fails_test_keyword (b : bool) (s : str) (n m : str) (l : list parser)
    (fn : tokens -> res tokens) (tail : str) :
  name_ok n = true ->
  preParse s = name_text n ++ " " ++ tail ->
  Py.eqb (Py.upper (firstn (length m) (preParse (" " ++ tail)))) (Py.upper m) = false ->
  fails (setParseAction (And (IDENTIFIER :: CaselessKeyword m :: l)) fn) b s.
Proof.
  intros Hn Hs Hk. apply fails_setParseAction.
  apply (fails_name_then b s n _ tail Hn Hs).
  apply fails_And_head. apply fails_CaselessKeyword. exact Hk.
Qed.

Lemma yields_TEST_isNull (b : bool) (s rest : str) (n : str) :
  name_ok n = true ->
  preParse s = (name_text n ++ " IS NULL") ++ rest -> boundary rest ->
  yields TEST b s [TNode (Composite "isNull" (ColumnRef n) (Some None_const))] rest.
Proof.
  intros Hn Hs Hb. rewrite <- !app_assoc in Hs. unfold TEST.
  apply (yields_MatchFirst b s [_] _).
  { constructor; [|constructor].
    apply (fails_INFIX_TEST b s n "I" ("S NULL" ++ rest) Hn); [simpl; auto | exact Hs]. }
  unfold NULL_TEST.
  apply (yields_setParseAction b s rest _ _ [TNode (ColumnRef n); text "is"; text "null"]);
    [|reflexivity].
  apply (yields_name_then b s rest n _ _ ("IS NULL" ++ rest) Hn Hs).
  apply (yields_keyword b "IS" "is" (" NULL" ++ rest));
    [eexists _, _; split; reflexivity | reflexivity | reflexivity | apply boundary_space |].
  rewrite <- (app_nil_r [text "null"]).
  apply (yields_keyword b "NULL" "null" rest);
    [eexists _, _; split; reflexivity | reflexivity | reflexivity | exact Hb |].
  apply yields_And_nil.
Qed.

Lemma yields_TEST_isNotNull (b : bool) (s rest : str) (n : str) :
  name_ok n = true ->
  preParse s = (name_text n ++ " IS NOT NULL") ++ rest -> boundary rest ->
  yields TEST b s [TNode (Composite "isNotNull" (ColumnRef n) (Some None_const))] rest.
Proof.
  intros Hn Hs Hb. rewrite <- !app_assoc in Hs. unfold TEST.
  apply (yields_MatchFirst b s [_; _] _).
  { constructor; [|constructor; [|constructor]].
    - apply (fails_INFIX_TEST b s n "I" ("S NOT NULL" ++ rest) Hn); [simpl; auto | exact Hs].
    - unfold NULL_TEST. apply fails_setParseAction.
      apply (fails_name_then b s n _ ("IS NOT NULL" ++ rest) Hn Hs).
      apply (fails_And_after b _ (" NOT NULL" ++ rest) IS _ [text "is"]).
      + apply (yields_CaselessKeyword b _ "IS");
          [reflexivity | reflexivity | reflexivity | apply boundary_space].
      + apply fails_And_head. apply fails_CaselessKeyword. reflexivity. }
  unfold NOT_NULL_TEST.
  apply (yields_setParseAction b s rest _ _
           [TNode (ColumnRef n); text "is"; text "not"; text "null"]); [|reflexivity].
  apply (yields_name_then b s rest n _ _ ("IS NOT NULL" ++ rest) Hn Hs).
  apply (yields_keyword b "IS" "is" (" NOT NULL" ++ rest));
    [eexists _, _; split; reflexivity | reflexivity | reflexivity | apply boundary_space |].
  apply (yields_keyword b "NOT" "not" (" NULL" ++ rest));
    [eexists _, _; split; reflexivity | reflexivity | reflexivity | apply boundary_space |].
  rewrite <- (app_nil_r [text "null"]).
  apply (yields_keyword b "NULL" "null" rest);
    [eexists _, _; split; reflexivity | reflexivity | reflexivity | exact Hb |].
  apply yields_And_nil.
Qed.

Lemma repr_items_ok (vs : list Py.value) :
  Forall (fun v => value_ok v = true) vs ->
  Py.repr_items vs = Ok (map value_text vs).
Proof.
  induction 1 as [|v vs Hv _ IH]; [reflexivity|].
  simpl. rewrite (repr_value_ok v Hv), IH. reflexivity.
Qed.

Lemma join_comma (x : str) (l : list str) :
  Py.join ", " (x :: l) = x ++ flat_map (fun y => ", " ++ y) l.
Proof.
  revert x. induction l as [|y l IH]; intros x.
  - simpl. rewrite app_nil_r. reflexivity.
  - change (Py.join ", " (x :: y :: l)) with (x ++ ", " ++ Py.join ", " (y :: l)).
    rewrite IH. cbn [flat_map]. rewrite <- !app_assoc. reflexivity.
Qed.

Lemma repr_list_ok (v : Py.value) (vs : list Py.value) :
  Forall (fun x => value_ok x = true) (v :: vs) ->
  Py.repr (Py.PyList (v :: vs)) = Ok (list_text v vs).
Proof.
  intros H. unfold Py.repr. rewrite (repr_items_ok _ H). cbn [bind map].
  rewrite join_comma. unfold list_text, more_items_text.
  rewrite flat_map_concat_map, map_map, <- flat_map_concat_map.
  rewrite <- !app_assoc. reflexivity.
Qed.

Lemma yields_list_tail (b : bool) (rest : str) (v : Py.value) (vs : list Py.value) :
  Forall (fun x => value_ok x = true) (v :: vs) ->
  yields (And [LIST]) b (" " ++ list_text v vs ++ rest) [TObj (Py.PyList (v :: vs))] rest.
Proof.
  intros H. rewrite <- (app_nil_r [TObj (Py.PyList (v :: vs))]).
  apply (yields_And_cons b _ rest rest LIST []); [|apply yields_And_nil].
  apply yields_LIST; [exact H|].
  apply preParse_space. eexists _, _. split; reflexivity.
Qed.

Lemma yields_TEST_inlist (b : bool) (s rest : str) (n : str) (v : Py.value)
    (vs : list Py.value) :
  name_ok n = true -> Forall (fun x => value_ok x = true) (v :: vs) ->
  preParse s = (name_text n ++ " IN " ++ list_text v vs) ++ rest ->
  yields TEST b s
         [TNode (Composite "inlist" (ColumnRef n) (Some (list_const (v :: vs))))] rest.
Proof.
  intros Hn Hvs Hs. rewrite <- !app_assoc in Hs. unfold TEST.
  apply (yields_MatchFirst b s [_; _; _] _).
  { constructor; [|constructor; [|constructor; [|constructor]]].
    - apply (fails_INFIX_TEST b s n "I" ("N " ++ list_text v vs ++ rest) Hn);
        [simpl; auto | exact Hs].
    - unfold NULL_TEST, IS.
      apply (fails_test_keyword b s n "is" _ _ ("IN " ++ list_text v vs ++ rest) Hn Hs).
      reflexivity.
    - unfold NOT_NULL_TEST, IS.
      apply (fails_test_keyword b s n "is" _ _ ("IN " ++ list_text v vs ++ rest) Hn Hs).
      reflexivity. }
  unfold INLIST_TEST.
  apply (yields_setParseAction b s rest _ _
           [TNode (ColumnRef n); text "in"; TObj (Py.PyList (v :: vs))]); [|reflexivity].
  apply (yields_name_then b s rest n _ _ ("IN " ++ list_text v vs ++ rest) Hn Hs).
  apply (yields_keyword b "IN" "in" (" " ++ list_text v vs ++ rest));
    [eexists _, _; split; reflexivity | reflexivity | reflexivity | apply boundary_space |].
  apply yields_list_tail. exact Hvs.
Qed.

Lemma yields_TEST_notinlist (b : bool) (s rest : str) (n : str) (v : Py.value)
    (vs : list Py.value) :
  name_ok n = true -> Forall (fun x => value_ok x = true) (v :: vs) ->
  preParse s = (name_text n ++ " NOT IN " ++ list_text v vs) ++ rest ->
  yields TEST b s
         [TNode (Composite "notinlist" (ColumnRef n) (Some (list_const (v :: vs))))] rest.
Proof.
  intros Hn Hvs Hs. rewrite <- !app_assoc in Hs. unfold TEST.
  apply (yields_MatchFirst b s [_; _; _; _] _ []).
  { constructor; [|constructor; [|constructor; [|constructor; [|constructor]]]].
    - apply (fails_INFIX_TEST b s n "N" ("OT IN " ++ list_text v vs ++ rest) Hn);
        [simpl; auto | exact Hs].
    - unfold NULL_TEST, IS.
      apply (fails_test_keyword b s n "is" _ _ ("NOT IN " ++ list_text v vs ++ rest) Hn Hs).
      reflexivity.
    - unfold NOT_NULL_TEST, IS.
      apply (fails_test_keyword b s n "is" _ _ ("NOT IN " ++ list_text v vs ++ rest) Hn Hs).
      reflexivity.
    - unfold INLIST_TEST, IN.
      apply (fails_test_keyword b s n "in" _ _ ("NOT IN " ++ list_text v vs ++ rest) Hn Hs).
      reflexivity. }
  unfold NOT_INLIST_TEST.
  apply (yields_setParseAction b s rest _ _
           [TNode (ColumnRef n); text "not"; text "in"; TObj (Py.PyList (v :: vs))]);
    [|reflexivity].
  apply (yields_name_then b s rest n _ _ ("NOT IN " ++ list_text v vs ++ rest) Hn Hs).
  apply (yields_keyword b "NOT" "not" (" IN " ++ list_text v vs ++ rest));
    [eexists _, _; split; reflexivity | reflexivity | reflexivity | apply boundary_space |].
  apply (yields_keyword b "IN" "in" (" " ++ list_text v vs ++ rest));
    [eexists _, _; split; reflexivity | reflexivity | reflexivity | apply boundary_space |].
  apply yields_list_tail. exact Hvs.
Qed.

(** ** The texts hold no line break and no tab *)

Lemma name_text_plain (n : str) : name_ok n = true -> plain_text (name_text n).
Proof.
  intros Hn. destruct (name_ok_cases n Hn) as [[Hbare ->] | [Hbr ->]].
  - destruct (bare_name_shape n Hbare) as (c & cs & -> & Hc & Hcs).
    assert (Hal : forall x, Py.isalnum x = true ->
                            x <> Py.nl /\ x <> Py.cr /\ x <> Py.tab).
    { clear. intros x. destruct x as [[] [] [] [] [] [] [] []]; vm_compute; intros H;
        try discriminate H; repeat split; discriminate. }
    constructor.
    + apply Hal. unfold Py.isalnum. rewrite Hc. reflexivity.
    + eapply Forall_impl; [|exact Hcs]. exact Hal.
  - apply (plain_text_app "["); [repeat constructor; discriminate|].
    apply plain_text_app; [|repeat constructor; discriminate].
    eapply Forall_impl; [|exact Hbr]. intros c Hc.
    unfold bracket_char in Hc. apply negb_true_iff in Hc.
    apply orb_false_iff in Hc. destruct Hc as [Hc H4].
    apply orb_false_iff in Hc. destruct Hc as [Hc H3].
    apply orb_false_iff in Hc. destruct Hc as [H1 H2].
    apply Ascii.eqb_neq in H2, H3, H4. auto.
Qed.

Lemma operand_text_plain (w : node) : operand_ok w = true -> plain_text (operand_text w).
Proof.
  destruct w as [n | [v|l] | op l r]; try discriminate; simpl; intros H.
  - apply name_text_plain. exact H.
  - apply value_text_starts. exact H.
Qed.

Lemma list_text_plain (v : Py.value) (vs : list Py.value) :
  Forall (fun x => value_ok x = true) (v :: vs) -> plain_text (list_text v vs).
Proof.
  intros H. inversion H as [|? ? Hv Hvs]; subst. unfold list_text.
  apply (plain_text_app "["); [repeat constructor; discriminate|].
  apply plain_text_app; [apply value_text_starts; exact Hv|].
  apply plain_text_app; [|repeat constructor; discriminate].
  clear H Hv. unfold more_items_text.
  induction Hvs as [|x vs Hx _ IH]; [constructor|].
  cbn [flat_map]. apply plain_text_app; [|exact IH].
  apply (plain_text_app ", "); [repeat constructor; discriminate|].
  apply value_text_starts. exact Hx.
Qed.

Lemma existsb_eqb_In (op : str) (l : list str) :
  existsb (Py.eqb op) l = true -> In op l.
Proof.
  intros H. apply existsb_exists in H. destruct H as (x & Hx & E).
  apply str_eqb_eq in E. subst. exact Hx.
Qed.

Ltac plain_literal := repeat constructor; discriminate.

(** A canonical test: the text [_format] writes is the name, a space and a
    rest; it holds no line break; and [TEST] parses it back. *)
Lemma test_roundtrip (op n : str) (r : option node) :
  name_ok n = true -> test_ok op r = true ->
  exists tail,
    (forall bracket brk,
       _format (Composite op (ColumnRef n) r) bracket brk =
       Ok (name_text n ++ " " ++ tail)) /\
    plain_text (name_text n ++ " " ++ tail) /\
    (forall b s rest,
       preParse s = (name_text n ++ " " ++ tail) ++ rest -> boundary rest ->
       yields TEST b s [TNode (Composite op (ColumnRef n) r)] rest).
Proof.
  intros Hn Ht. pose proof (name_text_plain n Hn) as Hp. unfold test_ok in Ht.
  destruct (existsb (Py.eqb op) comparison_ops) eqn:Ecmp.
  { apply existsb_eqb_In in Ecmp. destruct r as [w|]; [|discriminate].
    exists (op ++ " " ++ operand_text w). split; [|split].
    - intros. apply format_comparison; assumption.
    - apply plain_text_app; [exact Hp|]. apply (plain_text_app " "); [plain_literal|].
      apply plain_text_app.
      + unfold comparison_ops in Ecmp. simpl in Ecmp.
        decompose [or] Ecmp; try contradiction; subst op; plain_literal.
      + apply (plain_text_app " "); [plain_literal|]. apply operand_text_plain. exact Ht.
    - intros b s rest Hs Hb. apply yields_TEST_comparison; assumption. }
  destruct (Py.eqb op "like" || Py.eqb op "endsWith") eqn:Elike.
  { destruct r as [[? | [[| p | |] | ?] | ? ? ?]|]; try discriminate.
    apply orb_true_iff in Elike.
    destruct Elike as [E | E]; apply str_eqb_eq in E; subst op.
    - exists ("LIKE " ++ Py.repr_str ("%" ++ p ++ "%")). split; [|split].
      + intros. apply (format_like n "like" p); auto.
      + apply plain_text_app; [exact Hp|]. apply (plain_text_app " LIKE "); [plain_literal|].
        apply repr_str_plain_text.
      + intros b s rest Hs Hb.
        apply (yields_TEST_like b s rest n ("%" ++ p ++ "%")); auto.
        apply make_like_like. exact Ht.
    - exists ("LIKE " ++ Py.repr_str ("%" ++ p)). split; [|split].
      + intros. apply (format_like n "endsWith" p); auto.
      + apply plain_text_app; [exact Hp|]. apply (plain_text_app " LIKE "); [plain_literal|].
        apply repr_str_plain_text.
      + intros b s rest Hs Hb.
        apply (yields_TEST_like b s rest n ("%" ++ p)); auto.
        apply make_like_endsWith. exact Ht. }
  destruct (Py.eqb op "startsWith") eqn:Estarts.
  { apply str_eqb_eq in Estarts. subst op.
    destruct r as [[? | [[| [|c p] | |] | ?] | ? ? ?]|]; try discriminate.
    exists ("LIKE " ++ Py.repr_str ((c :: p) ++ "%")). split; [|split].
    - intros. apply (format_like n "startsWith" (c :: p)); auto.
    - apply plain_text_app; [exact Hp|]. apply (plain_text_app " LIKE "); [plain_literal|].
      apply repr_str_plain_text.
    - intros b s rest Hs Hb.
      apply (yields_TEST_like b s rest n ((c :: p) ++ "%")); auto.
      apply make_like_startsWith. exact Ht. }
  destruct (Py.eqb op "isNull" || Py.eqb op "isNotNull") eqn:Enull.
  { destruct r as [[? | [[| | |] | ?] | ? ? ?]|]; try discriminate.
    apply orb_true_iff in Enull.
    destruct Enull as [E | E]; apply str_eqb_eq in E; subst op.
    - exists "IS NULL". split; [|split].
      + intros. cbn [_format]. unfold name_text. destruct (Py.contains n " "); reflexivity.
      + apply plain_text_app; [exact Hp | plain_literal].
      + intros b s rest Hs Hb. apply yields_TEST_isNull; assumption.
    - exists "IS NOT NULL". split; [|split].
      + intros. cbn [_format]. unfold name_text. destruct (Py.contains n " "); reflexivity.
      + apply plain_text_app; [exact Hp | plain_literal].
      + intros b s rest Hs Hb. apply yields_TEST_isNotNull; assumption. }
  destruct (Py.eqb op "inlist" || Py.eqb op "notinlist") eqn:Elist; [|discriminate].
  destruct r as [[? | [? | [|v vs]] | ? ? ?]|]; try discriminate.
  assert (Hvs : Forall (fun x => value_ok x = true) (v :: vs)).
  { apply Forall_forall. apply forallb_forall. exact Ht. }
  pose proof (repr_list_ok v vs Hvs) as Hrepr.
  apply orb_true_iff in Elist.
  destruct Elist as [E | E]; apply str_eqb_eq in E; subst op.
  - exists ("IN " ++ list_text v vs). split; [|split].
    + intros. cbn [_format right_left bind]. rewrite Hrepr.
      unfold name_text. destruct (Py.contains n " "); reflexivity.
    + apply plain_text_app; [exact Hp|]. apply (plain_text_app " IN "); [plain_literal|].
      apply list_text_plain. exact Hvs.
    + intros b s rest Hs Hb. apply yields_TEST_inlist; assumption.
  - exists ("NOT IN " ++ list_text v vs). split; [|split].
    + intros. cbn [_format right_left bind]. rewrite Hrepr.
      unfold name_text. destruct (Py.contains n " "); reflexivity.
    + apply plain_text_app; [exact Hp|]. apply (plain_text_app " NOT IN "); [plain_literal|].
      apply list_text_plain. exact Hvs.
    + intros b s rest Hs Hb. apply yields_TEST_notinlist; assumption.
Qed.

(** ** Layout: indentation *)

Lemma reindent_app (k : nat) (a b : str) :
  reindent k (a ++ b) = reindent k a ++ reindent k b.
Proof. unfold reindent. apply flat_map_app. Qed.

Lemma reindent_plain (k : nat) (s : str) : plain_text s -> reindent k s = s.
Proof.
  induction 1 as [|c s (Hc & _) _ IH]; [reflexivity|].
  unfold reindent in *. cbn [flat_map]. apply Ascii.eqb_neq in Hc.
  rewrite Hc, IH. reflexivity.
Qed.

Lemma reindent_0 (s : str) : reindent 0 s = s.
Proof.
  induction s as [|c s IH]; [reflexivity|].
  unfold reindent in *. cbn [flat_map]. rewrite IH.
  destruct (Ascii.eqb c Py.nl) eqn:E; [|reflexivity].
  apply Ascii.eqb_eq in E. subst. reflexivity.
Qed.

Lemma reindent_spaces (k n : nat) :
  reindent k (repeat " "%char n) = repeat " "%char n.
Proof.
  apply reindent_plain. induction n; simpl; constructor; auto.
  repeat split; discriminate.
Qed.

Lemma reindent_reindent (j k : nat) (s : str) :
  reindent j (reindent k s) = reindent (k + j) s.
Proof.
  induction s as [|c s IH]; [reflexivity|].
  change (reindent k (c :: s)) with
    ((if Ascii.eqb c Py.nl then Py.nl :: repeat " "%char (4 * k) else [c]) ++ reindent k s).
  change (reindent (k + j) (c :: s)) with
    ((if Ascii.eqb c Py.nl then Py.nl :: repeat " "%char (4 * (k + j)) else [c])
       ++ reindent (k + j) s).
  rewrite reindent_app, IH. f_equal.
  destruct (Ascii.eqb c Py.nl) eqn:E.
  - change (reindent j (Py.nl :: repeat " "%char (4 * k)))
      with ((Py.nl :: repeat " "%char (4 * j)) ++ reindent j (repeat " "%char (4 * k))).
    rewrite reindent_spaces. cbn [app]. f_equal.
    rewrite <- repeat_app. f_equal. lia.
  - unfold reindent. cbn [flat_map]. rewrite E. reflexivity.
Qed.

Lemma length_reindent (k : nat) (s : str) : length s <= length (reindent k s).
Proof.
  induction s as [|c s IH]; [reflexivity|].
  change (reindent k (c :: s)) with
    ((if Ascii.eqb c Py.nl then Py.nl :: repeat " "%char (4 * k) else [c]) ++ reindent k s).
  rewrite length_app.
  destruct (Ascii.eqb c Py.nl); cbn [length]; lia.
Qed.

(** ** Layout: the bracketed form *)

Lemma splitlines_indent (s : str) :
  Forall (fun c => c <> Py.cr /\ c <> Py.tab) s ->
  forall cur,
    (exists t c, rev cur ++ s = t ++ [c] /\ c <> Py.nl) ->
    Py.splitlines_from cur s <> [] /\
    Py.join [Py.nl] (map (fun l => indent ++ l) (Py.splitlines_from cur s)) =
    indent ++ rev cur ++ reindent 1 s.
Proof.
  induction 1 as [|c s (Hcr & _) Hs IH]; intros cur (t & x & E & Hx).
  - rewrite app_nil_r in E. cbn [Py.splitlines_from].
    destruct cur as [|y cur].
    + destruct t; discriminate.
    + split; [discriminate|]. cbn [map Py.join]. rewrite app_nil_r. reflexivity.
  - cbn [Py.splitlines_from]. apply Ascii.eqb_neq in Hcr. rewrite Hcr.
    destruct (Ascii.eqb c Py.nl) eqn:En.
    + apply Ascii.eqb_eq in En. subst c.
      assert (Hne : exists t' c', rev [] ++ s = t' ++ [c'] /\ c' <> Py.nl).
      { destruct s as [|y s].
        - exfalso. apply Hx.
          assert (H : rev (rev cur ++ [Py.nl]) = rev (t ++ [x])) by (rewrite E; reflexivity).
          rewrite !rev_unit in H. congruence.
        - destruct (exists_last (l := y :: s)) as (t' & c' & E'); [discriminate|].
          exists t', c'. split; [exact E'|].
          rewrite E' in E. change (rev cur ++ Py.nl :: t' ++ [c'])
            with (rev cur ++ (Py.nl :: t') ++ [c']) in E.
          rewrite app_assoc in E. apply app_inj_tail in E. destruct E as [_ <-].
          exact Hx. }
      destruct (IH [] Hne) as [Hnil Hj]. split; [discriminate|].
      cbn [map]. destruct (Py.splitlines_from [] s) as [|l1 ls] eqn:El; [contradiction|].
      cbn [map] in *.
      change (Py.join [Py.nl] ((indent ++ rev cur) :: (indent ++ l1) :: map (fun l => indent ++ l) ls))
        with ((indent ++ rev cur) ++ [Py.nl] ++
              Py.join [Py.nl] ((indent ++ l1) :: map (fun l => indent ++ l) ls)).
      rewrite Hj. unfold reindent. cbn [flat_map]. rewrite Ascii.eqb_refl.
      rewrite <- !app_assoc. reflexivity.
    + assert (Hne : exists t' c', rev (c :: cur) ++ s = t' ++ [c'] /\ c' <> Py.nl).
      { exists t, x. split; [|exact Hx]. cbn [rev]. rewrite <- app_assoc. exact E. }
      destruct (IH (c :: cur) Hne) as [Hnil Hj]. split; [exact Hnil|].
      rewrite Hj. cbn [rev]. unfold reindent. cbn [flat_map]. rewrite En.
      rewrite <- !app_assoc. reflexivity.
Qed.

Lemma bracketed_reindent (exp : str) :
  good_text exp ->
  bracketed exp = "(" ++ [Py.nl] ++ indent ++ reindent 1 exp ++ [Py.nl] ++ ")".
Proof.
  intros (Hc & _ & Hl).
  destruct (splitlines_indent exp Hc [] Hl) as [_ Hj].
  change (bracketed exp) with
    ("(" ++ [Py.nl] ++
     Py.join [Py.nl] (map (fun l => indent ++ l) (Py.splitlines_from [] exp)) ++
     [Py.nl] ++ ")").
  rewrite Hj. cbn [rev app]. rewrite <- !app_assoc. reflexivity.
Qed.

(** ** The tiers of the expression grammar *)

Lemma EXPRESSION_RET (b : bool) (s : str) :
  EXPRESSION b s = RET_body (RET (length s)) b s.
Proof. reflexivity. Qed.

Lemma RET_S (n : nat) (b : bool) (s : str) :
  RET (S n) b s = RET_body (RET n) b s.
Proof. reflexivity. Qed.

Lemma OPERAND_unfold (ret : parser) (b : bool) (s : str) :
  OPERAND ret b s = OPERAND_depth (S (length s)) ret b s.
Proof. reflexivity. Qed.

Lemma OPERAND_depth_S (m : nat) (ret : parser) (b : bool) (s : str) :
  OPERAND_depth (S m) ret b s = NOT_body (ATOM ret) (OPERAND_depth m ret) b s.
Proof. reflexivity. Qed.

Lemma AND_OR_level_unfold (last : parser) (b : bool) (s : str) :
  opLevel last AND_OR_def b s =
  MatchFirst [setParseAction (CHAIN last) infix; last] b s.
Proof. reflexivity. Qed.

Lemma yields_eq (p q : parser) (b : bool) (s : str) (t : tokens) (rest : str) :
  p b s = q b s -> yields q b s t rest -> yields p b s t rest.
Proof. unfold yields. intros ->. exact (fun H => H). Qed.

Lemma yields_FollowedBy (e : parser) (b : bool) (s : str) (t : tokens) (rest : str) :
  yields e false s t rest -> yields (FollowedBy e) b s [] (preParse s).
Proof.
  intros (t' & H & _). exists []. unfold FollowedBy. rewrite H. split; reflexivity.
Qed.

Lemma fails_FollowedBy (e : parser) (b : bool) (s : str) :
  fails e false s -> fails (FollowedBy e) b s.
Proof.
  intros (r & m & H). exists r, m. unfold FollowedBy. rewrite H. reflexivity.
Qed.

Lemma yields_Group (e : parser) (b : bool) (s : str) (t : tokens) (rest : str) :
  yields e b s t rest -> yields (Group e) b s [TGroup t] rest.
Proof.
  intros (t' & H & Ht). exists [TGroup t']. unfold Group. rewrite H.
  split; [reflexivity|]. intros Hb. rewrite (Ht Hb). reflexivity.
Qed.

Lemma yields_Suppress (e : parser) (b : bool) (s : str) (t : tokens) (rest : str) :
  yields e b s t rest -> yields (Suppress e) b s [] rest.
Proof.
  intros (t' & H & _). exists []. unfold Suppress. rewrite H. split; reflexivity.
Qed.

Lemma yields_OneOrMore (e : parser) (b : bool) (s s1 rest : str) (t1 t2 : tokens) :
  yields e b s t1 s1 ->
  yields (repeat_expr e (S (length s1))) b s1 t2 rest ->
  yields (OneOrMore e) b s (t1 ++ t2) rest.
Proof.
  intros (u1 & H1 & E1) (u2 & H2 & E2). exists (u1 ++ u2). unfold OneOrMore.
  rewrite H1. cbn [bind fst snd]. rewrite H2. split; [reflexivity|].
  intros Hb. rewrite (E1 Hb), (E2 Hb). reflexivity.
Qed.

Lemma steps_app (p : parser) (b : bool) (ps qs : list (str * node)) (rest : str) :
  forall s s1, steps p b s ps s1 -> steps p b s1 qs rest -> steps p b s (ps ++ qs) rest.
Proof.
  induction ps as [|q ps IH]; intros s s1 H1 H2.
  - cbn [steps] in H1. subst. exact H2.
  - destruct H1 as (s' & Hy & Hl & H1). exists s'. repeat split; try assumption.
    exact (IH s' s1 H1 H2).
Qed.

Lemma steps_repeat (p : parser) (b : bool) (ps : list (str * node)) (rest : str) :
  fails p b rest ->
  forall s n, steps p b s ps rest -> length s <= n ->
    yields (repeat_expr p (S n)) b s (chain_tokens ps) rest.
Proof.
  intros Hf. induction ps as [|[op r] ps IH]; intros s n H Hn.
  - cbn [steps] in H. subst. apply yields_repeat_stop. exact Hf.
  - destruct H as (s' & Hy & Hl & H).
    destruct n as [|n]; [lia|].
    apply (yields_repeat_step p (S n) b s s' rest [text op; TNode r] (chain_tokens ps));
      [exact Hy | exact Hl |].
    apply IH; [exact H | lia].
Qed.

(** ** Keywords and brackets between the operands *)

Lemma isalnum_identChars (c : ascii) :
  Py.isalnum c = true -> identChars (Py.upper_char c) = true.
Proof.
  destruct c as [[] [] [] [] [] [] [] []]; vm_compute; intros H;
    first [reflexivity | discriminate H].
Qed.

Lemma upper_char_not_N (c : ascii) :
  c = "["%char \/ c = "("%char \/ c = " "%char -> forall x,
  In x ["N"%char; "O"%char; "T"%char] -> Py.upper_char c <> x.
Proof.
  intros [-> | [-> | ->]] x [<- | [<- | [<- | []]]]; vm_compute; discriminate.
Qed.

Lemma fails_NOT_name (b : bool) (s n tail : str) :
  left_name_ok n = true -> preParse s = name_text n ++ " " ++ tail ->
  fails NOT b s.
Proof.
  intros Hn Hs. unfold left_name_ok in Hn. apply andb_true_iff in Hn.
  destruct Hn as [Hok Hnot]. apply negb_true_iff in Hnot.
  unfold NOT, CaselessKeyword, fails. rewrite Hs.
  change (length "not") with 3. change (Py.upper "not") with "NOT".
  match goal with
  | |- context [if ?c then _ else _] => destruct c eqn:E
  end; [exfalso | eexists _, _; reflexivity].
  apply andb_true_iff in E. destruct E as [E1 E2]. apply str_eqb_eq in E1.
  destruct (name_ok_cases n Hok) as [[Hbare Ht] | [_ Ht]]; rewrite Ht in *.
  - destruct (bare_name_shape n Hbare) as (c & cs & -> & _ & Hcs).
    destruct cs as [|c1 [|c2 [|c3 cs]]]; cbn [app firstn skipn Py.upper map] in E1, E2.
    + assert (H := f_equal (fun l => nth 1 l " "%char) E1). cbn [nth] in H.
      revert H. apply (upper_char_not_N " "); [auto | simpl; auto].
    + assert (H := f_equal (fun l => nth 2 l " "%char) E1). cbn [nth] in H.
      revert H. apply (upper_char_not_N " "); [auto | simpl; auto].
    + cbn [Py.upper map] in Hnot. rewrite E1 in Hnot. discriminate Hnot.
    + apply Forall_inv_tail, Forall_inv_tail, Forall_inv in Hcs.
      rewrite (isalnum_identChars c3 Hcs) in E2. discriminate E2.
  - cbn [app firstn Py.upper map] in E1.
    assert (H := f_equal (fun l => nth 0 l " "%char) E1). cbn [nth] in H.
    revert H. apply (upper_char_not_N "["); [auto | simpl; auto].
Qed.

Lemma fails_IDENTIFIER (b : bool) (s : str) :
  (forall c r, preParse s = c :: r -> Py.isalpha c = false /\ c <> "["%char) ->
  fails IDENTIFIER b s.
Proof.
  intros H. unfold IDENTIFIER. apply fails_setParseAction, fails_MatchFirst.
  constructor; [|constructor; [|constructor]].
  - apply fails_Word. intros c r E. apply (H c r E).
  - apply fails_QuotedString. intros c r E. apply (H c r E).
Qed.

Lemma fails_TEST_bracket (b : bool) (s r : str) :
  preParse s = "(" ++ r -> fails TEST b s.
Proof.
  intros Hs.
  assert (Hi : fails IDENTIFIER b s).
  { apply fails_IDENTIFIER. intros c r' E. rewrite Hs in E. injection E as <- _.
    split; [reflexivity | discriminate]. }
  unfold TEST. apply fails_MatchFirst.
  repeat constructor; apply fails_setParseAction, fails_And_head; exact Hi.
Qed.

Lemma fails_NOT_bracket (b : bool) (s r : str) :
  preParse s = "(" ++ r -> fails NOT b s.
Proof. intros Hs. unfold NOT. fails_token Hs. Qed.

Lemma yields_AND_OR (b : bool) (s rest : str) (op : str) :
  In op LOGICAL -> preParse s = Py.upper op ++ rest -> boundary rest ->
  yields AND_OR b s [text op] rest.
Proof.
  intros [<- | [<- | []]] Hs Hb; unfold AND_OR.
  - apply yields_MatchFirst_head.
    apply (yields_CaselessKeyword b s "AND" "and" rest); auto.
  - apply (yields_MatchFirst b s [_] _ []).
    + constructor; [|constructor]. fails_token Hs.
    + apply (yields_CaselessKeyword b s "OR" "or" rest); auto.
Qed.

Lemma fails_AND_OR (b : bool) (rest : str) : closes rest -> fails AND_OR b rest.
Proof.
  intros [H | [r H]]; unfold AND_OR; apply fails_MatchFirst;
    repeat constructor; fails_token H.
Qed.

(** ** Operands and chains *)

Lemma preParse_idem (s : str) : preParse (preParse s) = preParse s.
Proof.
  induction s as [|c s IH]; [reflexivity|].
  cbn [preParse]. destruct (whitespace c) eqn:E; [exact IH|].
  cbn [preParse]. rewrite E. reflexivity.
Qed.

(** NOT and the operand it negates. *)
Lemma yields_OPERAND_not (ret : parser) (m : nat) (b : bool) (s tail rest : str)
    (x : node) :
  preParse s = "NOT" ++ " " ++ tail ->
  (forall b', yields (OPERAND_depth m ret) b' (" " ++ tail) [TNode x] rest) ->
  yields (OPERAND_depth (S m) ret) b s [TNode (invert x)] rest.
Proof.
  intros Hs Hx.
  apply (yields_eq _ _ _ _ _ _ (OPERAND_depth_S m ret b s)).
  unfold NOT_body. apply yields_MatchFirst_head.
  assert (Hnot : forall b' s', preParse s' = "NOT" ++ " " ++ tail ->
            yields NOT b' s' [text "not"] (" " ++ tail)).
  { intros b' s' Hs'. unfold NOT.
    apply (yields_CaselessKeyword b' s' "NOT" "not" (" " ++ tail)); auto.
    apply boundary_space. }
  eapply yields_setParseAction.
  - eapply yields_And_cons.
    + eapply yields_FollowedBy. eapply yields_And_cons; [exact (Hnot false s Hs)|].
      eapply yields_And_cons; [exact (Hx false) | apply yields_And_nil].
    + eapply yields_And_cons; [|apply yields_And_nil].
      apply yields_Group. eapply yields_And_cons.
      * apply yields_Optional_some. apply Hnot. rewrite preParse_idem. exact Hs.
      * eapply yields_And_cons; [exact (Hx b) | apply yields_And_nil].
  - reflexivity.
Qed.

(** An operand that does not start with NOT. *)
Lemma yields_OPERAND_last (ret : parser) (m : nat) (b : bool) (s rest : str)
    (t : tokens) :
  fails NOT false s -> yields (ATOM ret) b s t rest ->
  yields (OPERAND_depth (S m) ret) b s t rest.
Proof.
  intros Hn Ha.
  apply (yields_eq _ _ _ _ _ _ (OPERAND_depth_S m ret b s)).
  unfold NOT_body. apply (yields_MatchFirst b s [_] _ []); [|exact Ha].
  constructor; [|constructor].
  apply fails_setParseAction, fails_And_head, fails_FollowedBy, fails_And_head.
  exact Hn.
Qed.

(** A bracketed expression. *)
Lemma yields_ATOM_bracket (ret : parser) (b : bool) (s inner rest1 rest : str)
    (t : tokens) :
  preParse s = "(" ++ inner -> yields ret b inner t rest1 ->
  preParse rest1 = ")" ++ rest ->
  yields (ATOM ret) b s t rest.
Proof.
  intros Hs Hr H1. unfold ATOM.
  apply (yields_MatchFirst b s [_] _ []).
  - constructor; [|constructor]. apply (fails_TEST_bracket b s inner Hs).
  - replace t with ([] ++ t ++ [] ++ []) by (cbn [app]; apply app_nil_r).
    eapply yields_And_cons.
    + apply (yields_Suppress _ _ _ [text "("]). apply yields_Literal. exact Hs.
    + eapply yields_And_cons; [exact Hr|].
      eapply yields_And_cons; [|apply yields_And_nil].
      apply (yields_Suppress _ _ _ [text ")"]). apply yields_Literal. exact H1.
Qed.

(** The tier of AND and OR on a chain of operands. *)
Lemma yields_AND_OR_level (last : parser) (b : bool) (s rest : str) (w0 : node)
    (ps : list (str * node)) :
  (forall b', exists s1, yields last b' s [TNode w0] s1 /\
                         steps (PAIR last) b' s1 ps rest) ->
  (exists s1, yields last b (preParse s) [TNode w0] s1 /\
              steps (PAIR last) b s1 ps rest) ->
  Forall logical_op ps -> closes rest ->
  yields (opLevel last AND_OR_def) b s [TNode (fold_chain w0 ps)] rest.
Proof.
  intros H1 H2 Hps Hc.
  apply (yields_eq _ _ _ _ _ _ (AND_OR_level_unfold last b s)).
  assert (Hf : forall b', fails (PAIR last) b' rest).
  { intros b'. apply fails_And_head, fails_AND_OR. exact Hc. }
  destruct ps as [|[op r] ps].
  - apply (yields_MatchFirst b s [_] _ []).
    + constructor; [|constructor].
      apply fails_setParseAction, fails_And_head, fails_FollowedBy.
      destruct (H1 false) as (s1 & Hy & Hs). cbn [steps] in Hs. subst s1.
      eapply fails_And_after; [exact Hy | exact (Hf false)].
    + destruct (H1 b) as (s1 & Hy & Hs). cbn [steps] in Hs. subst s1. exact Hy.
  - apply yields_MatchFirst_head.
    eapply yields_setParseAction.
    + unfold CHAIN. eapply yields_And_cons.
      * destruct (H1 false) as (s1 & Hy & s' & Hp & _).
        eapply yields_FollowedBy. eapply yields_And_cons; [exact Hy | exact Hp].
      * eapply yields_And_cons; [|apply yields_And_nil].
        destruct H2 as (s1 & Hy & s' & Hp & Hl & Hs).
        apply yields_Group. eapply yields_And_cons; [exact Hy|].
        eapply yields_And_cons; [|apply yields_And_nil].
        eapply yields_OneOrMore; [exact Hp|].
        apply steps_repeat; [apply Hf | exact Hs | apply le_n].
    + cbn [app fst snd]. rewrite !app_nil_r. unfold infix.
      change (text op :: TNode r :: chain_tokens ps) with (chain_tokens ((op, r) :: ps)).
      rewrite (infix_loop_chain _ Hps w0). reflexivity.
Qed.

(** ** Rendered text *)

Lemma reindent_cons (k : nat) (c : ascii) (s : str) :
  reindent k (c :: s) =
  (if Ascii.eqb c Py.nl then Py.nl :: repeat " "%char (4 * k) else [c]) ++ reindent k s.
Proof. reflexivity. Qed.

Lemma token_not_nl (c : ascii) : whitespace c = false -> Ascii.eqb c Py.nl = false.
Proof.
  unfold whitespace. cbn [existsb]. intros H.
  apply orb_false_iff in H. destruct H as [_ H].
  apply orb_false_iff in H. destruct H as [H _]. exact H.
Qed.

Lemma starts_token_app (a b : str) : starts_token a -> starts_token (a ++ b).
Proof. intros (c & t & -> & H). exists c, (t ++ b). split; [reflexivity | exact H]. Qed.

Lemma starts_token_reindent (k : nat) (s : str) :
  starts_token s -> starts_token (reindent k s).
Proof.
  intros (c & t & -> & H). exists c, (reindent k t). split; [|exact H].
  rewrite reindent_cons, (token_not_nl c H). reflexivity.
Qed.

Lemma all_ws_spaces (n : nat) : all_ws (repeat " "%char n).
Proof.
  apply Forall_forall. intros x Hx. apply repeat_spec in Hx. subst. reflexivity.
Qed.

Lemma all_ws_gap (k : nat) : all_ws (Py.nl :: repeat " "%char (4 * k)).
Proof. constructor; [reflexivity | apply all_ws_spaces]. Qed.

Lemma Forall_reindent (k : nat) (s : str) :
  Forall (fun c => c <> Py.cr /\ c <> Py.tab) s ->
  Forall (fun c => c <> Py.cr /\ c <> Py.tab) (reindent k s).
Proof.
  induction 1 as [|c s Hc _ IH]; [constructor|].
  rewrite reindent_cons. apply Forall_app. split; [|exact IH].
  destruct (Ascii.eqb c Py.nl).
  - constructor; [split; discriminate|].
    apply Forall_forall. intros x Hx. apply repeat_spec in Hx. subst.
    split; discriminate.
  - constructor; [exact Hc | constructor].
Qed.

Lemma good_text_plain (t : str) : plain_text t -> starts_token t -> good_text t.
Proof.
  intros Hp Hs. split; [|split; [exact Hs|]].
  - eapply Forall_impl; [|exact Hp]. intros c (_ & H1 & H2). split; assumption.
  - destruct Hs as (c & t' & -> & _).
    destruct (exists_last (l := c :: t')) as (u & x & E); [discriminate|].
    exists u, x. split; [exact E|]. rewrite E in Hp.
    apply Forall_app in Hp. destruct Hp as [_ Hp]. apply Forall_inv in Hp. apply Hp.
Qed.

Lemma good_text_app (a mid b : str) :
  Forall (fun c => c <> Py.cr /\ c <> Py.tab) a -> starts_token a ->
  Forall (fun c => c <> Py.cr /\ c <> Py.tab) mid ->
  good_text b -> good_text (a ++ mid ++ b).
Proof.
  intros Ha Hs Hm (Hb & _ & u & x & -> & Hx). split; [|split].
  - apply Forall_app. split; [exact Ha|]. apply Forall_app. split; assumption.
  - apply starts_token_app. exact Hs.
  - exists (a ++ mid ++ u), x. split; [|exact Hx].
    rewrite <- !app_assoc. reflexivity.
Qed.

Lemma good_text_bracketed (t : str) : good_text t -> good_text (bracketed t).
Proof.
  intros Hg. rewrite (bracketed_reindent t Hg). destruct Hg as (Hf & _ & _).
  split; [|split].
  - unfold indent. cbn [app repeat].
    repeat (constructor; [split; discriminate|]).
    apply Forall_app. split; [apply Forall_reindent; exact Hf|].
    repeat (constructor; [split; discriminate|]). constructor.
  - eexists _, _. split; reflexivity.
  - exists ("(" ++ [Py.nl] ++ indent ++ reindent 1 t ++ [Py.nl]), ")"%char.
    split; [|discriminate]. rewrite <- !app_assoc. reflexivity.
Qed.

Lemma length_bracketed (t : str) : good_text t -> length t < length (bracketed t).
Proof.
  intros Hg. rewrite (bracketed_reindent t Hg). rewrite !length_app.
  pose proof (length_reindent 1 t). cbn [length]. lia.
Qed.

Lemma reindent_bracketed (k : nat) (t : str) :
  good_text t ->
  reindent k (bracketed t) =
  "(" ++ (Py.nl :: repeat " "%char (4 * k)) ++ indent ++ reindent (1 + k) t ++
  (Py.nl :: repeat " "%char (4 * k)) ++ ")".
Proof.
  intros Hg. rewrite (bracketed_reindent t Hg).
  rewrite !reindent_app, reindent_reindent.
  change (reindent k [Py.nl]) with ((Py.nl :: repeat " "%char (4 * k)) ++ []).
  rewrite app_nil_r. reflexivity.
Qed.

Lemma expandtabs_no_tab (s : str) :
  Forall (fun c => c <> Py.cr /\ c <> Py.tab) s ->
  forall col, Py.expandtabs_from col s = s.
Proof.
  induction 1 as [|c s (_ & Hc) _ IH]; intros col; [reflexivity|].
  cbn [Py.expandtabs_from]. apply Ascii.eqb_neq in Hc. rewrite Hc.
  destruct (Ascii.eqb c Py.nl || Ascii.eqb c Py.cr); rewrite IH; reflexivity.
Qed.

Lemma sep_clean (op mid : str) :
  In op LOGICAL -> mid = [Py.nl] \/ mid = " " ->
  Forall (fun c => c <> Py.cr /\ c <> Py.tab) (" " ++ Py.upper op ++ mid).
Proof.
  intros [<- | [<- | []]] [-> | ->]; repeat constructor; discriminate.
Qed.

Lemma format_not_unfold (x : node) (r : option node) (bracket brk : bool) :
  _format (Composite "not" x r) bracket brk =
  (a <- _format x true true ;; Ok ("NOT " ++ a)).
Proof. reflexivity. Qed.

Lemma format_logical_bracket (op : str) (l r : node) (brk : bool) (txt : str) :
  In op LOGICAL ->
  _format (Composite op l (Some r)) false brk = Ok txt ->
  _format (Composite op l (Some r)) true brk = Ok (bracketed txt).
Proof.
  intros Hop. rewrite !(format_logical_unfold op l r _ brk Hop). cbn zeta.
  destruct (if same_op (node_op l) op then _format l false true else _format l true false)
    as [a|e]; cbn [bind]; [|discriminate].
  destruct (_format r true false) as [c|e]; cbn [bind]; [|discriminate].
  intros H. injection H as <-. reflexivity.
Qed.

(** ** The round trip, operand by operand *)

Lemma parses_operand_chain (T : node) (txt : str) :
  parses_operand T txt -> parses_chain T [] txt.
Proof.
  intros H n b ws k rest Hn Hws Hb. exists rest. split; [|reflexivity].
  apply (yields_eq _ _ _ _ _ _ (OPERAND_unfold _ _ _)).
  apply H; auto. rewrite !length_app.
  pose proof (length_reindent k txt). lia.
Qed.

Lemma chain_extend (w0 : node) (ps : list (str * node)) (a op mid c : str)
    (r : node) :
  In op LOGICAL -> mid = [Py.nl] \/ mid = " " ->
  parses_chain w0 ps a -> parses_operand r c ->
  parses_chain w0 (ps ++ [(op, r)]) (a ++ " " ++ Py.upper op ++ mid ++ c).
Proof.
  intros Hop Hmid Ha Hc n b ws k rest Hn Hws Hb.
  assert (Hgap : exists x g, reindent k mid = x :: g /\ all_ws (x :: g)).
  { destruct Hmid as [-> | ->].
    - exists Py.nl, (repeat " "%char (4 * k) ++ []). split; [reflexivity|].
      rewrite app_nil_r. apply all_ws_gap.
    - exists " "%char, []. split; [reflexivity|]. constructor; [reflexivity|constructor]. }
  destruct Hgap as (x & g & Eg & Hg).
  assert (Hup : reindent k (Py.upper op) = Py.upper op /\ starts_token (Py.upper op)).
  { destruct Hop as [<- | [<- | []]]; split; try reflexivity;
      eexists _, _; split; reflexivity. }
  destruct Hup as [Eup Hst].
  assert (E : reindent k (a ++ " " ++ Py.upper op ++ mid ++ c) ++ rest =
              reindent k a ++ " " ++ Py.upper op ++ (x :: g) ++ reindent k c ++ rest).
  { rewrite !reindent_app, Eup, Eg, <- !app_assoc. reflexivity. }
  rewrite E. rewrite !length_app in Hn. cbn [length] in Hn.
  destruct (Ha n b ws k (" " ++ Py.upper op ++ (x :: g) ++ reindent k c ++ rest))
    as (s1 & Hy & Hs); [lia | exact Hws | apply boundary_space |].
  exists s1. split; [exact Hy|].
  apply (steps_app _ _ _ _ _ _ _ Hs). cbn [steps fst snd].
  exists rest. split; [|split; [|reflexivity]].
  - unfold PAIR.
    apply (yields_And_cons b _ ((x :: g) ++ reindent k c ++ rest) rest AND_OR
             [OPERAND (RET n)] [text op] [TNode r]).
    + apply yields_AND_OR; [exact Hop | |].
      * apply preParse_space. exact Hst.
      * apply boundary_ws. inversion Hg; assumption.
    + apply (yields_And_cons b _ rest rest (OPERAND (RET n)) [] [TNode r] []);
        [|apply yields_And_nil].
      apply (yields_eq _ _ _ _ _ _ (OPERAND_unfold _ _ _)).
      apply Hc; auto; [lia|]. rewrite !length_app.
      pose proof (length_reindent k c). lia.
  - rewrite !length_app. cbn [length]. lia.
Qed.

Lemma bracket_operand (w0 : node) (ps : list (str * node)) (txt : str) :
  parses_chain w0 ps txt -> Forall logical_op ps -> good_text txt ->
  parses_operand (fold_chain w0 ps) (bracketed txt).
Proof.
  intros Hc Hps Hg n m b ws k rest Hn Hm Hws Hb.
  pose proof (length_bracketed txt Hg) as Hl.
  rewrite (reindent_bracketed k txt Hg).
  destruct m as [|m]; [lia|]. destruct n as [|n]; [lia|].
  set (gap := Py.nl :: repeat " "%char (4 * k)).
  set (body := reindent (1 + k) txt).
  set (close := gap ++ ")" ++ rest).
  set (inner := (gap ++ indent) ++ body ++ close).
  assert (Hgap : all_ws gap) by apply all_ws_gap.
  assert (Hgi : all_ws (gap ++ indent)).
  { apply Forall_app. split; [exact Hgap | apply all_ws_spaces]. }
  assert (Hst : starts_token body).
  { apply starts_token_reindent. apply Hg. }
  assert (Hclose : preParse close = ")" ++ rest).
  { apply (preParse_token gap ")" rest Hgap). eexists _, _. split; reflexivity. }
  assert (Hbc : boundary close).
  { apply boundary_ws. reflexivity. }
  replace (ws ++ ("(" ++ gap ++ indent ++ body ++ gap ++ ")") ++ rest)
    with (ws ++ "(" ++ inner)
    by (unfold inner, close; rewrite <- !app_assoc; reflexivity).
  assert (HP : preParse (ws ++ "(" ++ inner) = "(" ++ inner).
  { apply (preParse_token ws "(" inner Hws). eexists _, _. split; reflexivity. }
  apply yields_OPERAND_last; [apply (fails_NOT_bracket false _ inner HP)|].
  apply (yields_ATOM_bracket (RET (S n)) b _ inner close rest _ HP); [|exact Hclose].
  apply (yields_eq _ _ _ _ _ _ (RET_S n b inner)). unfold RET_body.
  apply yields_fail.
  apply yields_AND_OR_level; [| | exact Hps | right; exists rest; exact Hclose].
  - intros b'. apply (Hc n b' (gap ++ indent) (1 + k) close); auto. lia.
  - unfold inner. rewrite (preParse_token _ _ _ Hgi Hst).
    apply (Hc n b [] (1 + k) close); auto; [lia | constructor].
Qed.

Lemma test_inv (op n : str) (r : option node) :
  left_name_ok n = true -> test_ok op r = true ->
  operand_inv (Composite op (ColumnRef n) r) /\
  chain_inv (Composite op (ColumnRef n) r).
Proof.
  intros Hleft Ht.
  assert (Hok : name_ok n = true).
  { unfold left_name_ok in Hleft. apply andb_true_iff in Hleft. apply Hleft. }
  destruct (test_roundtrip op n r Hok Ht) as (tail & Hf & Hp & Hy).
  assert (Hst : starts_token (name_text n ++ " " ++ tail)).
  { apply starts_token_app. apply name_text_starts. exact Hok. }
  assert (Hg : good_text (name_text n ++ " " ++ tail)).
  { apply good_text_plain; assumption. }
  assert (Ho : parses_operand (Composite op (ColumnRef n) r)
                 (name_text n ++ " " ++ tail)).
  { intros n0 m b ws k rest Hn Hm Hws Hb. rewrite (reindent_plain k _ Hp).
    destruct m as [|m]; [lia|].
    pose proof (preParse_token ws _ rest Hws Hst) as HP.
    apply yields_OPERAND_last.
    - apply (fails_NOT_name false _ n (tail ++ rest) Hleft).
      rewrite HP, <- !app_assoc. reflexivity.
    - unfold ATOM. apply yields_MatchFirst_head. apply Hy; assumption. }
  split; intros brk.
  - exists (name_text n ++ " " ++ tail). auto.
  - exists (name_text n ++ " " ++ tail), (Composite op (ColumnRef n) r), [].
    repeat split; auto; try apply Hg. apply parses_operand_chain. exact Ho.
Qed.

Lemma not_inv (x : node) :
  operand_inv x ->
  operand_inv (Composite "not" x None) /\ chain_inv (Composite "not" x None).
Proof.
  intros Hx. destruct (Hx true) as (a & Hfa & Hga & Hpa).
  assert (Hf : forall bracket brk,
            _format (Composite "not" x None) bracket brk = Ok ("NOT " ++ a)).
  { intros bracket brk. rewrite format_not_unfold, Hfa. reflexivity. }
  assert (Hg : good_text ("NOT " ++ a)).
  { apply (good_text_app "NOT " [] a); [plain_literal | | constructor | exact Hga].
    eexists _, _. split; reflexivity. }
  assert (Ho : parses_operand (Composite "not" x None) ("NOT " ++ a)).
  { intros n m b ws k rest Hn Hm Hws Hb.
    rewrite length_app in Hn, Hm. cbn [length] in Hn, Hm.
    destruct m as [|m]; [lia|].
    rewrite reindent_app. change (reindent k "NOT ") with "NOT ".
    apply (yields_OPERAND_not (RET n) m b _ (reindent k a ++ rest) rest x).
    - rewrite <- app_assoc.
      apply (preParse_token ws "NOT " (reindent k a ++ rest) Hws).
      eexists _, _. split; reflexivity.
    - intros b'. apply (Hpa n m b' " " k rest); auto; try lia.
      constructor; [reflexivity | constructor]. }
  split; intros brk.
  - exists ("NOT " ++ a). auto.
  - exists ("NOT " ++ a), (Composite "not" x None), [].
    repeat split; auto; try apply Hg. apply parses_operand_chain. exact Ho.
Qed.

Lemma logical_inv (op : str) (l r : node) :
  In op LOGICAL -> operand_inv l -> chain_inv l -> operand_inv r ->
  operand_inv (Composite op l (Some r)) /\ chain_inv (Composite op l (Some r)).
Proof.
  intros Hop Hol Hcl Hor.
  assert (Hc : chain_inv (Composite op l (Some r))).
  { intros brk. destruct (Hor false) as (c & Hfc & Hgc & Hpc).
    assert (H : exists a w0 ps mid,
              (mid = [Py.nl] \/ mid = " ") /\
              _format (Composite op l (Some r)) false brk =
                Ok (a ++ " " ++ Py.upper op ++ mid ++ c) /\
              good_text a /\ fold_chain w0 ps = l /\ Forall logical_op ps /\
              parses_chain w0 ps a).
    { rewrite (format_logical_unfold op l r false brk Hop). cbn zeta.
      destruct (same_op (node_op l) op).
      - destruct (Hcl true) as (a & w0 & ps & Hfa & Hga & Hfold & Hps & Hpa).
        exists a, w0, ps, [Py.nl]. rewrite Hfa, Hfc. cbn [bind]. auto 10.
      - destruct (Hol false) as (a & Hfa & Hga & Hpa).
        exists a, l, [], (if brk then [Py.nl] else " ").
        rewrite Hfa, Hfc. cbn [bind].
        split; [destruct brk; auto|]. split; [destruct brk; reflexivity|].
        split; [exact Hga|]. split; [reflexivity|]. split; [constructor|].
        apply parses_operand_chain. exact Hpa. }
    destruct H as (a & w0 & ps & mid & Hmid & Hf & Hga & Hfold & Hps & Hpa).
    exists (a ++ " " ++ Py.upper op ++ mid ++ c), w0, (ps ++ [(op, r)]).
    split; [exact Hf|]. split; [|split; [|split]].
    - replace (a ++ " " ++ Py.upper op ++ mid ++ c)
        with (a ++ (" " ++ Py.upper op ++ mid) ++ c)
        by (rewrite <- !app_assoc; reflexivity).
      apply good_text_app; [apply Hga | apply Hga | apply sep_clean; assumption | exact Hgc].
    - unfold fold_chain in *. rewrite fold_left_app, Hfold. reflexivity.
    - apply Forall_app. split; [exact Hps|]. constructor; [|constructor].
      unfold logical_op. cbn [fst]. destruct Hop as [<- | [<- | []]]; auto.
    - apply chain_extend; assumption. }
  split; [|exact Hc].
  intros brk. destruct (Hc brk) as (txt & w0 & ps & Hf & Hg & Hfold & Hps & Hp).
  exists (bracketed txt). split; [|split].
  - apply format_logical_bracket; assumption.
  - apply good_text_bracketed. exact Hg.
  - rewrite <- Hfold. apply bracket_operand; assumption.
Qed.

(** Every canonical tree is written as a text that reads back as the tree,
    as an operand and as an expression. *)
Lemma canonical_inv (T : node) : canonical T = true -> operand_inv T /\ chain_inv T.
Proof.
  induction T as [n | v | op l IHl r IHr] using node_ind; try discriminate.
  cbn [canonical]. destruct (Py.eqb op "not") eqn:E1.
  - apply str_eqb_eq in E1. subst op. destruct r as [x|]; [discriminate|].
    intros Hc. apply not_inv. apply IHl. exact Hc.
  - destruct (existsb (Py.eqb op) LOGICAL) eqn:E2.
    + destruct r as [x|]; [|discriminate]. intros Hc.
      apply andb_true_iff in Hc. destruct Hc as [Hl Hx].
      inversion IHr as [x' IHx|]; subst.
      apply logical_inv; [apply existsb_eqb_In; exact E2 | apply IHl | apply IHl
                         | apply IHx]; assumption.
    + destruct l as [n | v | op' l' r']; try discriminate. intros Hc.
      apply andb_true_iff in Hc. destruct Hc as [Hn Ht].
      apply test_inv; assumption.
Qed.

(** ** The round trip *)

(** C1, on the trees that survive the round trip.  A canonical tree is a
    test, NOT of a canonical tree, or AND/OR of two canonical trees; a test
    has a column on the left whose name is a letter followed by letters and
    digits, or holds a space and no [']'], line break or tab, and is not the
    keyword NOT; its operator and right operand are a comparison with a
    string, a machine integer or a column, [like]/[endsWith] with a string
    without [%], [startsWith] with a non-empty string without [%],
    [isNull]/[isNotNull] with [None], or [inlist]/[notinlist] with a
    non-empty list of strings and machine integers.  For every canonical
    tree [T] the formatter returns a text and parsing that text returns
    [T]: [where(formatWhere(T)) = T]. *)
Theorem roundtrip_canonical (T : node) :
  canonical T = true ->
  exists txt, formatWhere T = Ok txt /\ where_ txt = Ok (TNode T).
Proof.
  intros Hc. destruct (canonical_inv T Hc) as [_ Hch].
  destruct (Hch false) as (txt & w0 & ps & Hf & Hg & Hfold & Hps & Hp).
  exists txt. split; [exact Hf|].
  assert (E : forall ws, ws ++ reindent 0 txt ++ [] = ws ++ txt).
  { intros ws. rewrite reindent_0, app_nil_r. reflexivity. }
  assert (HP : preParse txt = txt).
  { destruct Hg as (_ & (c & t & -> & Hw) & _). apply preParse_start. exact Hw. }
  assert (He : yields EXPRESSION true txt [TNode T] []).
  { apply (yields_eq _ _ _ _ _ _ (EXPRESSION_RET true txt)). unfold RET_body.
    apply yields_fail. rewrite <- Hfold.
    apply yields_AND_OR_level; [| | exact Hps | left; reflexivity].
    - intros b'.
      pose proof (Hp (length txt) b' [] 0 [] (le_n _) (Forall_nil _) boundary_nil) as H.
      rewrite (E []) in H. exact H.
    - rewrite HP.
      pose proof (Hp (length txt) true [] 0 [] (le_n _) (Forall_nil _) boundary_nil) as H.
      rewrite (E []) in H. exact H. }
  destruct He as (t & He & Et). specialize (Et eq_refl). subst t.
  unfold where_, parseString, Py.expandtabs.
  rewrite (expandtabs_no_tab txt (proj1 Hg) 0).
  unfold WHEREEXP. cbn [And StringStart bind fst snd]. rewrite He.
  reflexivity.
Qed.

Lemma roundtrip_canonical_witness :
  canonical example_tree = true /\
  exists txt, formatWhere example_tree = Ok txt /\
              where_ txt = Ok (TNode example_tree).
Proof.
  split; [reflexivity | apply (roundtrip_canonical example_tree); reflexivity].
Defined.

(** C1, as stated, fails.  A column alone is a tree of the builder, and
    its text is no expression of the grammar; and the [startsWith] node
    with the string [%x] is written as [a LIKE '%x%'], which reads back as
    the [like] node with the string [x]. *)
Lemma roundtrip_fails :
  let T := Composite "startsWith" (ColumnRef "a") (Some (str_const "%x")) in
  In "startsWith" vocabulary /\
  formatWhere T = Ok "a LIKE '%x%'" /\
  where_ "a LIKE '%x%'" =
    Ok (TNode (Composite "like" (ColumnRef "a") (Some (str_const "x")))) /\
  where_ "a LIKE '%x%'" <> Ok (TNode T) /\
  formatWhere (ColumnRef "a") = Ok "a" /\
  where_ "a" = Raise (ParseFatalException "a" "Expected expression").
Proof.
  cbv zeta. split; [simpl; tauto|].
  split; [reflexivity|]. split; [vm_compute; reflexivity|].
  split; [vm_compute; discriminate|].
  split; [reflexivity | vm_compute; reflexivity].
Qed.

(** * More of the parser and the formatter

    ** The errors of [where] *)

Lemma fail_not_ParseException (p : parser) (name : str) (b : bool) (s r m : str) :
  fail p name b s <> Raise (ParseException r m).
Proof.
  unfold fail, setFailAction.
  destruct (p b s) as [[t s1]|e]; [discriminate|].
  destruct e; cbn [bind]; discriminate.
Qed.

Lemma EXPRESSION_not_ParseException (b : bool) (s r m : str) :
  EXPRESSION b s <> Raise (ParseException r m).
Proof. rewrite EXPRESSION_RET. apply fail_not_ParseException. Qed.

(** X1.  The only ordinary parse error [where] raises is that of trailing
    input: when [where] raises [ParseException], the expression grammar has
    matched a prefix of the (tab-expanded) input, the error is
    ["Expected end of text"], and it carries the text left after that
    prefix, which is not empty.  Every other failure to parse is fatal. *)
Theorem where_parse_error (expr r m : str) :
  where_ expr = Raise (ParseException r m) ->
  exists toks rest,
    EXPRESSION true (Py.expandtabs expr) = Ok (toks, rest) /\
    r = preParse rest /\ r <> [] /\ m = "Expected end of text".
Proof.
  unfold where_, parseString, WHEREEXP. cbn [And StringStart bind fst snd].
  destruct (EXPRESSION true (Py.expandtabs expr)) as [[t rest]|e] eqn:E;
    cbn [bind fst snd].
  - unfold StringEnd. destruct (preParse rest) as [|c r'] eqn:Er; cbn [bind fst snd].
    + rewrite app_nil_r. destruct t; discriminate.
    + intros H. injection H as <- <-. exists t, rest.
      split; [reflexivity|]. split; [symmetry; exact Er|]. split; [discriminate|reflexivity].
  - intros H. injection H as ->. exfalso.
    exact (EXPRESSION_not_ParseException _ _ _ _ E).
Qed.

Lemma where_parse_error_witness :
  where_ "a = 1 extra" = Raise (ParseException "extra" "Expected end of text") /\
  exists toks rest,
    EXPRESSION true (Py.expandtabs "a = 1 extra") = Ok (toks, rest) /\
    "extra" = preParse rest /\ "extra" <> [] /\
    "Expected end of text" = "Expected end of text".
Proof.
  split; [vm_compute; reflexivity|].
  apply (where_parse_error "a = 1 extra" "extra" "Expected end of text").
  vm_compute. reflexivity.
Defined.

(** ** Input that starts with no expression *)

Lemma fails_Suppress (p : parser) (b : bool) (s : str) :
  fails p b s -> fails (Suppress p) b s.
Proof. intros (r & m & H). exists r, m. unfold Suppress. rewrite H. reflexivity. Qed.

Lemma fails_OPERAND (ret : parser) (b : bool) (s : str) :
  fails NOT false s -> fails (ATOM ret) b s -> fails (OPERAND ret) b s.
Proof.
  intros Hn Ha. unfold fails. rewrite OPERAND_unfold, OPERAND_depth_S.
  unfold NOT_body. apply fails_MatchFirst.
  constructor; [|constructor; [exact Ha | constructor]].
  apply fails_setParseAction, fails_And_head, fails_FollowedBy, fails_And_head.
  exact Hn.
Qed.

Lemma fails_AND_OR_level (last : parser) (b : bool) (s : str) :
  fails last false s -> fails last b s -> fails (opLevel last AND_OR_def) b s.
Proof.
  intros Hf Hb. unfold fails. rewrite AND_OR_level_unfold.
  apply fails_MatchFirst.
  constructor; [|constructor; [exact Hb | constructor]].
  apply fails_setParseAction, fails_And_head, fails_FollowedBy, fails_And_head.
  exact Hf.
Qed.

Lemma not_alpha_upper (c : ascii) :
  Py.isalpha c = false -> Py.upper_char c <> "N"%char.
Proof.
  destruct c as [[] [] [] [] [] [] [] []]; vm_compute; intros H;
    first [discriminate H | discriminate].
Qed.

Lemma fails_NOT_start (b : bool) (s : str) :
  (forall c r, preParse s = c :: r -> Py.isalpha c = false) -> fails NOT b s.
Proof.
  intros H. unfold NOT. apply fails_CaselessKeyword.
  destruct (preParse s) as [|c r]; [reflexivity|].
  cbn [length firstn Py.upper map Py.eqb].
  apply andb_false_iff. left. apply Ascii.eqb_neq.
  apply not_alpha_upper. apply (H c r eq_refl).
Qed.

(** X2.  Input that starts with no expression fails at once.  When the
    first character after the leading whitespace (if there is one) is no
    letter, no ['['] and no ['('], [where] raises the fatal error
    ["Expected expression"] at that position; so it does on empty and on
    blank input. *)
Theorem where_no_expression (expr : str) :
  (forall c r, preParse (Py.expandtabs expr) = c :: r ->
     Py.isalpha c = false /\ c <> "["%char /\ c <> "("%char) ->
  where_ expr =
  Raise (ParseFatalException (preParse (Py.expandtabs expr)) "Expected expression").
Proof.
  intros H. set (s := Py.expandtabs expr) in *.
  assert (Hn : forall b, fails NOT b s).
  { intros b. apply fails_NOT_start. intros c r E. apply (H c r E). }
  assert (Ha : forall b ret, fails (ATOM ret) b s).
  { intros b ret. unfold ATOM. apply fails_MatchFirst.
    constructor; [|constructor; [|constructor]].
    - unfold TEST. apply fails_MatchFirst.
      assert (Hi : fails IDENTIFIER b s).
      { apply fails_IDENTIFIER. intros c r E. destruct (H c r E) as (? & ? & ?). auto. }
      repeat constructor; apply fails_setParseAction, fails_And_head; exact Hi.
    - apply fails_And_head, fails_Suppress, fails_Literal.
      destruct (preParse s) as [|c r] eqn:Ep; [reflexivity|].
      rewrite startswith_cons. apply andb_false_iff. left.
      apply Ascii.eqb_neq. intros <-.
      destruct (H _ _ eq_refl) as (_ & _ & Hc). contradiction. }
  assert (He : fails (opLevel (OPERAND (RET (length s))) AND_OR_def) true s).
  { apply fails_AND_OR_level; apply fails_OPERAND; auto. }
  destruct He as (r & m & He).
  unfold where_, parseString, WHEREEXP. fold s. cbn [And StringStart bind fst snd].
  rewrite EXPRESSION_RET. unfold RET_body, fail, setFailAction. rewrite He.
  reflexivity.
Qed.

Lemma where_no_expression_witness :
  (forall c r, preParse (Py.expandtabs "  = 3") = c :: r ->
     Py.isalpha c = false /\ c <> "["%char /\ c <> "("%char) /\
  where_ "  = 3" = Raise (ParseFatalException "= 3" "Expected expression").
Proof.
  assert (H : forall c r, preParse (Py.expandtabs "  = 3") = c :: r ->
     Py.isalpha c = false /\ c <> "["%char /\ c <> "("%char).
  { intros c r E. vm_compute in E. injection E as <- _.
    split; [reflexivity | split; discriminate]. }
  split; [exact H | exact (where_no_expression "  = 3" H)].
Defined.

(** ** What the LIKE compiler returns *)

Lemma startswith_char (s : str) (c : ascii) :
  Py.startswith s [c] = true -> s = c :: tl s.
Proof.
  destruct s as [|x s]; [discriminate|].
  rewrite startswith_cons. intros H. apply andb_true_iff in H.
  destruct H as [H _]. apply Ascii.eqb_eq in H. subst. reflexivity.
Qed.

Lemma endswith_char (s : str) (c : ascii) :
  Py.endswith s [c] = true -> s = removelast s ++ [c].
Proof.
  unfold Py.endswith. cbn [rev app]. intros H. apply startswith_char in H.
  assert (E : s = rev (tl (rev s)) ++ [c]).
  { rewrite <- (rev_involutive s) at 1. rewrite H. reflexivity. }
  remember (rev (tl (rev s))) as u eqn:Eu. clear Eu H. subst s.
  rewrite removelast_last. reflexivity.
Qed.

Lemma count_zero_no_percent (s : str) : Py.count s "%" = 0 -> no_percent s = true.
Proof.
  unfold no_percent. induction s as [|x s IH]; [reflexivity|].
  cbn [Py.count existsb]. rewrite (Ascii.eqb_sym "%" x).
  destruct (Ascii.eqb x "%"); [discriminate|]. exact IH.
Qed.

Lemma apply_op_text (op : str) (a : node) (t : str) :
  apply_op op (TNode a) (text t) = Ok (Composite op a (Some (str_const t))).
Proof. reflexivity. Qed.

Lemma make_like_cases (a : node) (b : tok) (w : node) :
  make_like (TNode a) b = Ok w ->
  exists s, b = text s /\
    ((Py.count s "%" = 0 /\ w = Composite "==" a (Some (str_const s))) \/
     (exists t, s = "%" ++ t /\ no_percent t = true /\
                w = Composite "endsWith" a (Some (str_const t))) \/
     (exists c t, s = (c :: t) ++ "%" /\ no_percent (c :: t) = true /\
                  w = Composite "startsWith" a (Some (str_const (c :: t)))) \/
     (exists t, s = "%" ++ t ++ "%" /\ no_percent t = true /\
                w = Composite "like" a (Some (str_const t)))).
Proof.
  unfold make_like.
  destruct b as [[[| s | z | q] | l] | w' | g]; cbn [negb Py.is_basestring];
    try discriminate.
  intros H. exists s. split; [reflexivity|]. cbv zeta in H.
  unfold operator_eq, endsWith, startsWith, like in H.
  change (TObj (Py.Scalar (Py.VStr s))) with (text s) in H.
  rewrite !apply_op_text in H.
  destruct (Py.count s "%" =? 0) eqn:E0.
  { apply Nat.eqb_eq in E0. left. split; [exact E0|].
    inversion H as [Hw]; clear H; subst w. reflexivity. }
  right. destruct (Py.count s "%" =? 1) eqn:E1.
  - apply Nat.eqb_eq in E1. destruct (Py.startswith s "%") eqn:Es.
    + left. inversion H as [Hw]; clear H; subst w. exists (tl s).
      pose proof (startswith_char s "%" Es) as E. split; [exact E|].
      split; [|reflexivity]. apply count_zero_no_percent.
      rewrite E in E1. cbn [Py.count] in E1. rewrite Ascii.eqb_refl in E1. lia.
    + destruct (Py.endswith s "%") eqn:Ee; [|rewrite E1 in H; discriminate H].
      right. left. inversion H as [Hw]; clear H; subst w.
      pose proof (endswith_char s "%" Ee) as E.
      destruct (removelast s) as [|c t] eqn:Er.
      * rewrite E in Es. discriminate Es.
      * exists c, t. split; [exact E|]. split; [|reflexivity].
        apply count_zero_no_percent. rewrite E, count_app in E1.
        change (Py.count "%" "%") with 1 in E1. lia.
  - destruct (Py.count s "%" =? 2) eqn:E2; [|discriminate].
    apply Nat.eqb_eq in E2.
    destruct (Py.startswith s "%") eqn:Es; [|discriminate].
    destruct (Py.endswith s "%") eqn:Ee; [|discriminate].
    right. right. inversion H as [Hw]; clear H; subst w. exists (removelast (tl s)).
    pose proof (startswith_char s "%" Es) as E.
    pose proof (endswith_char s "%" Ee) as E'.
    destruct (tl s) as [|x u] eqn:Et.
    { rewrite E in E2. discriminate E2. }
    assert (Eu : x :: u = removelast (x :: u) ++ "%").
    { rewrite E in E'. cbn [removelast] in E'. cbn [app] in E'.
      injection E' as E'. exact E'. }
    split; [rewrite E, Eu at 1; reflexivity|]. split; [|reflexivity].
    apply count_zero_no_percent.
    rewrite E, Eu in E2.
    change (Py.count ("%"%char :: removelast (x :: u) ++ "%") "%")
      with (1 + Py.count (removelast (x :: u) ++ "%") "%") in E2.
    rewrite count_app in E2. change (Py.count "%" "%") with 1 in E2. lia.
Qed.

(** X3.  The operand of a node the LIKE compiler returns holds no [%]:
    whenever [make_like] returns a node, its right operand is a string, the
    node is an equality, [endsWith], [startsWith] or [like] node on that
    string, the string holds no [%] (the operand of [startsWith] is not
    empty), and the pattern is the string with the [%] of that kind put
    back. *)
Theorem make_like_strips (a : node) (b : tok) (w : node) :
  make_like (TNode a) b = Ok w ->
  exists op s t,
    b = text s /\ w = Composite op a (Some (str_const t)) /\ no_percent t = true /\
    ((op = "==" /\ s = t) \/ (op = "endsWith" /\ s = "%" ++ t) \/
     (op = "startsWith" /\ s = t ++ "%" /\ t <> []) \/
     (op = "like" /\ s = "%" ++ t ++ "%")).
Proof.
  intros H. destruct (make_like_cases a b w H) as (s & Hb & Hc).
  destruct Hc as [(H0 & ->) | [(t & -> & Ht & ->) | [(c & t & -> & Ht & ->) | (t & -> & Ht & ->)]]].
  - exists "==", s, s. split; [exact Hb|]. split; [reflexivity|].
    split; [apply count_zero_no_percent; exact H0|]. left. split; reflexivity.
  - exists "endsWith", ("%" ++ t), t. split; [exact Hb|]. split; [reflexivity|].
    split; [exact Ht|]. right. left. split; reflexivity.
  - exists "startsWith", ((c :: t) ++ "%"), (c :: t). split; [exact Hb|].
    split; [reflexivity|]. split; [exact Ht|]. right. right. left.
    split; [reflexivity|]. split; [reflexivity | discriminate].
  - exists "like", ("%" ++ t ++ "%"), t. split; [exact Hb|]. split; [reflexivity|].
    split; [exact Ht|]. right. right. right. split; reflexivity.
Qed.

Lemma make_like_strips_witness :
  make_like (TNode (ColumnRef "a")) (text "foo%") =
    Ok (Composite "startsWith" (ColumnRef "a") (Some (str_const "foo"))) /\
  exists op s t,
    text "foo%" = text s /\
    Composite "startsWith" (ColumnRef "a") (Some (str_const "foo")) =
      Composite op (ColumnRef "a") (Some (str_const t)) /\
    no_percent t = true /\
    ((op = "==" /\ s = t) \/ (op = "endsWith" /\ s = "%" ++ t) \/
     (op = "startsWith" /\ s = t ++ "%" /\ t <> []) \/
     (op = "like" /\ s = "%" ++ t ++ "%")).
Proof.
  split; [reflexivity|].
  apply (make_like_strips (ColumnRef "a") (text "foo%")). reflexivity.
Defined.

(** X4.  Formatting gives a LIKE pattern back.  When [make_like] returns a
    node for a column and a pattern that holds a [%], [_format] writes that
    node as the column, [LIKE] and the [repr] of the pattern, whatever the
    flags. *)
Theorem format_make_like (n p : str) (w : node) (bracket brk : bool) :
  make_like (TNode (ColumnRef n)) (text p) = Ok w ->
  Py.count p "%" <> 0 ->
  _format w bracket brk = Ok (name_text n ++ " LIKE " ++ Py.repr_str p).
Proof.
  intros H Hp. destruct (make_like_cases _ _ _ H) as (s & Hb & Hc).
  injection Hb as <-.
  destruct Hc as [(H0 & ->) | [(t & -> & Ht & ->) | [(c & t & -> & Ht & ->) | (t & -> & Ht & ->)]]].
  - contradiction.
  - apply format_like. right. right. split; reflexivity.
  - apply format_like. right. left. split; reflexivity.
  - apply format_like. left. split; reflexivity.
Qed.

Lemma format_make_like_witness :
  make_like (TNode (ColumnRef "some col")) (text "%it's%") =
    Ok (Composite "like" (ColumnRef "some col") (Some (str_const "it's"))) /\
  _format (Composite "like" (ColumnRef "some col") (Some (str_const "it's")))
          false false =
    Ok (name_text "some col" ++ " LIKE " ++ Py.repr_str "%it's%").
Proof.
  split; [reflexivity|].
  apply (format_make_like "some col" "%it's%"); [reflexivity | discriminate].
Defined.

(** ** The tokens of a match *)

Lemma MatchFirst_from_inv (l : list parser) (b : bool) (s : str) (r : tokens * str) :
  forall mx, MatchFirst_from mx l b s = Ok r -> exists p, In p l /\ p b s = Ok r.
Proof.
  induction l as [|p l IH]; intros mx H; cbn [MatchFirst_from] in H.
  - destruct mx as [[? ?]|]; discriminate.
  - destruct (p b s) as [x|e] eqn:E.
    + inversion H; subst. exists p. split; [left; reflexivity | exact E].
    + destruct e; try discriminate.
      apply IH in H. destruct H as (q & Hq & Hr). exists q. split; [right|]; assumption.
Qed.

Lemma MatchFirst_inv (l : list parser) (b : bool) (s : str) (r : tokens * str) :
  MatchFirst l b s = Ok r -> exists p, In p l /\ p b s = Ok r.
Proof. apply MatchFirst_from_inv. Qed.

Lemma setParseAction_Ok (p : parser) (fn : tokens -> res tokens) (s rest : str)
    (t : tokens) :
  setParseAction p fn true s = Ok (t, rest) ->
  exists t0, p true s = Ok (t0, rest) /\ fn t0 = Ok t.
Proof.
  unfold setParseAction. intros H.
  apply bind_Ok in H. destruct H as ([t0 s0] & Hp & H). cbn [fst snd] in H.
  apply bind_Ok in H. destruct H as (t1 & Hf & H). inversion H; subst.
  exists t0. split; assumption.
Qed.

Lemma fail_Ok (p : parser) (name : str) (b : bool) (s : str) (r : tokens * str) :
  fail p name b s = Ok r -> p b s = Ok r.
Proof.
  unfold fail, setFailAction. destruct (p b s) as [x|e]; [exact (fun H => H)|].
  destruct e; cbn [bind]; discriminate.
Qed.

Lemma Optional_Ok (p : parser) (b : bool) (s rest : str) (t : tokens) :
  Optional p b s = Ok (t, rest) -> p b s = Ok (t, rest) \/ t = [].
Proof.
  unfold Optional. destruct (p b s) as [x|e]; [left; assumption|].
  destruct e; try discriminate. intros H. inversion H. right. reflexivity.
Qed.

Lemma Literal_tokens (m : str) (b : bool) (s rest : str) (t : tokens) :
  Literal m b s = Ok (t, rest) -> t = [text m].
Proof.
  unfold Literal. destruct (Py.startswith _ _); intros H; inversion H; reflexivity.
Qed.

Lemma Regex_Ok (r : Re.regex) (b : bool) (s rest : str) (t : tokens) :
  Regex r b s = Ok (t, rest) ->
  exists m, t = [text m] /\ Re.re_match r (preParse s) = Some (m, rest).
Proof.
  unfold Regex. destruct (Re.re_match r (preParse s)) as [[m x]|]; intros H;
    inversion H; subst. exists m. split; reflexivity.
Qed.

Lemma Word_tokens (i bd : ascii -> bool) (b : bool) (s rest : str) (t : tokens) :
  Word i bd b s = Ok (t, rest) -> exists m, t = [text m].
Proof.
  unfold Word. destruct (preParse s) as [|c s']; [discriminate|].
  destruct (i c); [destruct (span bd s')|]; intros H; inversion H; eauto.
Qed.

Lemma QuotedString_tokens (q : ascii) (esc : option ascii) (u : bool) (e : ascii)
    (b : bool) (s rest : str) (t : tokens) :
  QuotedString q esc u e b s = Ok (t, rest) -> exists m, t = [text m].
Proof.
  unfold QuotedString. destruct (Re.re_match _ _) as [[m x]|]; [destruct u|];
    intros H; inversion H; eauto.
Qed.

Lemma eq_re_match (s m rest : str) :
  Re.re_match (Re.Seq (Re.Chr "=") (Re.Opt (Re.Chr "="))) s = Some (m, rest) ->
  m = "=" \/ m = "==".
Proof.
  unfold Re.re_match. cbn [Re.rmatch].
  destruct s as [|x s]; [discriminate|].
  destruct (Ascii.eqb x "=") eqn:Ex; [|discriminate]. apply Ascii.eqb_eq in Ex. subst x.
  destruct s as [|y s].
  - intros H. inversion H. left. reflexivity.
  - destruct (Ascii.eqb y "=") eqn:Ey.
    + apply Ascii.eqb_eq in Ey. subst y. intros H.
      replace (length ("="%char :: "="%char :: s) - length s) with 2 in H
        by (cbn [length]; lia).
      inversion H. right. reflexivity.
    + intros H.
      replace (length ("="%char :: y :: s) - length (y :: s)) with 1 in H
        by (cbn [length]; lia).
      inversion H. left. reflexivity.
Qed.

Lemma OPERATOR_tokens (b : bool) (s rest : str) (t : tokens) :
  OPERATOR b s = Ok (t, rest) -> exists op, t = [text op] /\ In op operators.
Proof.
  unfold OPERATOR. intros H. apply MatchFirst_inv in H.
  destruct H as (p & Hp & H). unfold operators.
  cbn [In] in Hp. decompose [or] Hp; try contradiction; subst p.
  - apply Regex_Ok in H. destruct H as (m & -> & Hm).
    apply eq_re_match in Hm. exists m. split; [reflexivity|].
    destruct Hm as [-> | ->]; simpl; auto.
  - apply Literal_tokens in H. eexists. split; [exact H | simpl; auto 10].
  - apply Literal_tokens in H. eexists. split; [exact H | simpl; auto 10].
  - apply Literal_tokens in H. eexists. split; [exact H | simpl; auto 10].
  - apply Literal_tokens in H. eexists. split; [exact H | simpl; auto 10].
  - apply Literal_tokens in H. eexists. split; [exact H | simpl; auto 10].
  - apply Literal_tokens in H. eexists. split; [exact H | simpl; auto 10].
  - apply CaselessKeyword_tokens in H. eexists. split; [exact H | simpl; auto 10].
Qed.

Lemma IDENTIFIER_tokens (s rest : str) (t : tokens) :
  IDENTIFIER true s = Ok (t, rest) -> exists n, t = [TNode (ColumnRef n)].
Proof.
  unfold IDENTIFIER. intros H. apply setParseAction_Ok in H.
  destruct H as (t0 & H & Hf). apply MatchFirst_inv in H.
  destruct H as (p & Hp & H). cbn [In] in Hp.
  assert (Hm : exists m, t0 = [text m]).
  { decompose [or] Hp; try contradiction; subst p.
    - eapply Word_tokens; eauto.
    - eapply QuotedString_tokens; eauto. }
  destruct Hm as (m & ->). inversion Hf. eauto.
Qed.

Lemma literal_eval_not_None (t : str) : Py.literal_eval t <> Ok Py.VNone.
Proof.
  unfold Py.literal_eval, Py.eval_number. destruct t as [|c t]; [discriminate|].
  destruct (_ || _).
  - destruct (Py.unescape _); discriminate.
  - destruct (Ascii.eqb c "-");
      match goal with
      | |- context [Py.split_at_dot ?x] => destruct (Py.split_at_dot x) as [[ip fp]|]
      end;
      try match goal with
          | |- context [Py.uint_of_chars ?x] => destruct (Py.uint_of_chars x)
          end;
      try match goal with
          | |- context [Py.eval_digits ?x] => destruct (Py.eval_digits x)
          end;
      cbn [bind]; discriminate.
Qed.

Lemma CONSTANT_tokens (s rest : str) (t : tokens) :
  CONSTANT true s = Ok (t, rest) ->
  exists v, t = [TObj (Py.Scalar v)] /\ v <> Py.VNone.
Proof.
  unfold CONSTANT. intros H. apply setParseAction_Ok in H.
  destruct H as (t0 & H & Hf). apply MatchFirst_inv in H.
  destruct H as (p & Hp & H). cbn [In] in Hp.
  assert (Hm : exists m, t0 = [text m]).
  { decompose [or] Hp; try contradiction; subst p.
    - unfold STRING_CONSTANT in H. apply MatchFirst_inv in H.
      destruct H as (q & Hq & H). cbn [In] in Hq.
      decompose [or] Hq; try contradiction; subst q;
        eapply QuotedString_tokens; eauto.
    - apply Regex_Ok in H. destruct H as (m & -> & _). eauto.
    - apply Regex_Ok in H. destruct H as (m & -> & _). eauto. }
  destruct Hm as (m & ->). unfold eval_constant, text in Hf.
  apply bind_Ok in Hf. destruct Hf as (v & Hv & Hf). inversion Hf.
  exists v. split; [reflexivity|]. intros ->.
  exact (literal_eval_not_None m Hv).
Qed.

Lemma VALUE_tokens (s rest : str) (t : tokens) :
  VALUE true s = Ok (t, rest) ->
  (exists v, t = [TObj (Py.Scalar v)] /\ v <> Py.VNone) \/
  (exists n, t = [TNode (ColumnRef n)]).
Proof.
  unfold VALUE. intros H. apply MatchFirst_inv in H.
  destruct H as (p & Hp & H). cbn [In] in Hp.
  decompose [or] Hp; try contradiction; subst p.
  - left. eapply CONSTANT_tokens; eauto.
  - right. eapply IDENTIFIER_tokens; eauto.
Qed.

Lemma more_items_repeat (n : nat) :
  forall s rest toks,
    repeat_expr (And [COMMA; CONSTANT]) n true s = Ok (toks, rest) ->
    exists vs, toks = more_items_tokens vs.
Proof.
  induction n as [|n IH]; intros s rest toks H; cbn [repeat_expr] in H.
  - discriminate.
  - destruct (And [COMMA; CONSTANT] true s) as [[t1 s1]|e1] eqn:E1.
    + destruct (length s1 <? length s); [|discriminate].
      apply bind_Ok in H. destruct H as ([t2 s2] & H2 & H).
      inversion H; subst. cbn [fst].
      apply And_cons_Ok in E1. destruct E1 as (ta & sa & ra & Ha & E1 & ->).
      apply And_cons_Ok in E1. destruct E1 as (tb & sb & rb & Hb & E1 & ->).
      apply And_nil_Ok in E1. destruct E1 as [-> ->].
      apply Literal_tokens in Ha. apply CONSTANT_tokens in Hb.
      destruct Hb as (v & -> & _). subst.
      apply IH in H2. destruct H2 as (vs & ->).
      exists (v :: vs). reflexivity.
    + destruct e1; try discriminate. inversion H; subst. exists []. reflexivity.
Qed.

Lemma comma_separated_items (vs : list Py.value) (trailing : bool) :
  forall v,
    TObj (Py.Scalar v) :: more_items_tokens vs ++ (if trailing then [text ","] else []) =
    comma_separated (v :: vs) trailing.
Proof.
  induction vs as [|v' vs IH]; intros v; [reflexivity|].
  cbn [more_items_tokens flat_map app]. cbn [more_items_tokens] in IH.
  rewrite IH. reflexivity.
Qed.

Lemma LIST_tokens (s rest : str) (t : tokens) :
  LIST true s = Ok (t, rest) -> exists v vs, t = [TObj (Py.PyList (v :: vs))].
Proof.
  unfold LIST. intros H. apply fail_Ok in H. apply setParseAction_Ok in H.
  destruct H as (t0 & H & Hf).
  apply And_cons_Ok in H. destruct H as (ta & sa & ra & Ha & H & ->).
  apply And_cons_Ok in H. destruct H as (tb & sb & rb & Hb & H & ->).
  apply And_cons_Ok in H. destruct H as (tc & sc & rc & Hc & H & ->).
  apply And_cons_Ok in H. destruct H as (td & sd & rd & Hd & H & ->).
  apply And_cons_Ok in H. destruct H as (te & se & re & He & H & ->).
  apply And_nil_Ok in H. destruct H as [-> ->].
  apply Literal_tokens in Ha. apply CONSTANT_tokens in Hb. destruct Hb as (v & -> & _).
  unfold ZeroOrMore in Hc. apply more_items_repeat in Hc. destruct Hc as (vs & ->).
  apply Literal_tokens in He. subst.
  assert (Ht : exists trailing, td = if trailing : bool then [text ","] else []).
  { apply Optional_Ok in Hd. destruct Hd as [Hd | ->].
    - apply Literal_tokens in Hd. exists true. exact Hd.
    - exists false. reflexivity. }
  destruct Ht as (trailing & ->).
  exists v, vs.
  assert (Hf' : parseList (list_tokens (v :: vs) trailing) = Ok t).
  { rewrite <- Hf. f_equal. unfold list_tokens. rewrite <- comma_separated_items.
    cbn [app]. rewrite <- !app_assoc. reflexivity. }
  rewrite parseList_tokens in Hf'. inversion Hf'. reflexivity.
Qed.

(** ** The trees the parser builds *)

Lemma builds_MatchFirst (P : node -> Prop) (l : list parser) :
  Forall (builds P) l -> builds P (MatchFirst l).
Proof.
  intros Hl s toks rest H. apply MatchFirst_inv in H. destruct H as (p & Hp & H).
  rewrite Forall_forall in Hl. exact (Hl p Hp s toks rest H).
Qed.

Lemma builds_Forward_depth (P : node -> Prop) (body : parser -> parser) (n : nat) :
  (forall q, builds P q -> builds P (body q)) -> builds P (Forward_depth n body).
Proof.
  intros Hbody. induction n as [|n IH]; intros s toks rest H; cbn [Forward_depth] in H.
  - discriminate.
  - exact (Hbody _ IH s toks rest H).
Qed.

Lemma builds_Forward (P : node -> Prop) (body : parser -> parser) :
  (forall q, builds P q -> builds P (body q)) -> builds P (Forward body).
Proof.
  intros Hbody s toks rest H. exact (builds_Forward_depth P body _ Hbody s toks rest H).
Qed.

Lemma builds_fail (P : node -> Prop) (p : parser) (name : str) :
  builds P p -> builds P (fail p name).
Proof. intros Hp s toks rest H. apply fail_Ok in H. exact (Hp s toks rest H). Qed.

Lemma builds_bracketed (P : node -> Prop) (ret : parser) :
  builds P ret -> builds P (And [Suppress (Literal "("); ret; Suppress (Literal ")")]).
Proof.
  intros Hret s toks rest H.
  apply And_cons_Ok in H. destruct H as (ta & sa & ra & Ha & H & ->).
  apply And_cons_Ok in H. destruct H as (tb & sb & rb & Hb & H & ->).
  apply And_cons_Ok in H. destruct H as (tc & sc & rc & Hc & H & ->).
  apply And_nil_Ok in H. destruct H as [-> ->].
  apply Suppress_tokens in Ha, Hc. subst.
  apply Hret in Hb. destruct Hb as (w & -> & Hw). exists w. split; [reflexivity | exact Hw].
Qed.

Lemma parsed_comparison (n op : str) (r : tok) (t : tokens) :
  In op ["="; "=="; "!="; "<>"; ">="; "<="; ">"; "<"] ->
  (exists v, r = TObj (Py.Scalar v) /\ v <> Py.VNone) \/
  (exists m, r = TNode (ColumnRef m)) ->
  parseTest [TNode (ColumnRef n); text op; r] = Ok t ->
  exists w, t = [TNode w] /\ parsed w = true.
Proof.
  intros Hop Hr H. cbn [In] in Hop.
  destruct Hr as [(v & -> & Hv) | (m & ->)];
    decompose [or] Hop; try contradiction; subst op;
    vm_compute in H; inversion H; subst; eexists; (split; [reflexivity|]);
    try reflexivity; destruct v; try reflexivity; contradiction.
Qed.

Lemma parsed_like (n : str) (r : tok) (t : tokens) :
  parseTest [TNode (ColumnRef n); text "like"; r] = Ok t ->
  exists w, t = [TNode w] /\ parsed w = true.
Proof.
  change (parseTest [TNode (ColumnRef n); text "like"; r])
    with (w <- make_like (TNode (ColumnRef n)) r ;; Ok [TNode w]).
  intros H. apply bind_Ok in H. destruct H as (w & Hw & H). inversion H; subst.
  exists w. split; [reflexivity|].
  destruct (make_like_cases _ _ _ Hw) as (s & _ & Hc).
  destruct Hc as [(H0 & ->) | [(x & _ & Hx & ->) | [(c & x & _ & Hx & ->) | (x & _ & Hx & ->)]]];
    [reflexivity | exact Hx | exact Hx | exact Hx].
Qed.

Lemma builds_TEST : builds (fun w => parsed w = true) TEST.
Proof.
  intros s toks rest H. unfold TEST in H. apply MatchFirst_inv in H.
  destruct H as (p & Hp & H). cbn [In] in Hp.
  decompose [or] Hp; try contradiction; subst p; clear Hp;
    apply setParseAction_Ok in H; destruct H as (t0 & H & Hf).
  - unfold INFIX_TEST_expr in H.
    apply And_cons_Ok in H. destruct H as (ta & sa & ra & Ha & H & ->).
    apply And_cons_Ok in H. destruct H as (tb & sb & rb & Hb & H & ->).
    apply And_cons_Ok in H. destruct H as (tc & sc & rc & Hc & H & ->).
    apply And_nil_Ok in H. destruct H as [-> ->].
    apply IDENTIFIER_tokens in Ha. destruct Ha as (n & ->).
    apply OPERATOR_tokens in Hb. destruct Hb as (op & -> & Hop).
    apply VALUE_tokens in Hc.
    assert (Hr : exists r, tc = [r] /\
               ((exists v, r = TObj (Py.Scalar v) /\ v <> Py.VNone) \/
                (exists m, r = TNode (ColumnRef m)))).
    { destruct Hc as [(v & -> & Hv) | (m & ->)]; eexists; split; eauto. }
    destruct Hr as (r & -> & Hr). cbn [app] in Hf.
    unfold operators in Hop. cbn [In] in Hop.
    destruct Hop as [<-|[<-|[<-|[<-|[<-|[<-|[<-|[<-|[<-|[]]]]]]]]]];
      first [ apply (parsed_like n r toks Hf)
            | refine (parsed_comparison n _ r toks _ Hr Hf); simpl; auto 10 ].
  - apply And_cons_Ok in H. destruct H as (ta & sa & ra & Ha & H & ->).
    apply IDENTIFIER_tokens in Ha. destruct Ha as (n & ->).
    cbn [app parseNullTest] in Hf. vm_compute in Hf. inversion Hf.
    eexists. split; reflexivity.
  - apply And_cons_Ok in H. destruct H as (ta & sa & ra & Ha & H & ->).
    apply IDENTIFIER_tokens in Ha. destruct Ha as (n & ->).
    cbn [app parseNotNullTest] in Hf. vm_compute in Hf. inversion Hf.
    eexists. split; reflexivity.
  - apply And_cons_Ok in H. destruct H as (ta & sa & ra & Ha & H & ->).
    apply And_cons_Ok in H. destruct H as (tb & sb & rb & Hb & H & ->).
    apply And_cons_Ok in H. destruct H as (tc & sc & rc & Hc & H & ->).
    apply And_nil_Ok in H. destruct H as [-> ->].
    apply IDENTIFIER_tokens in Ha. destruct Ha as (n & ->).
    apply CaselessKeyword_tokens in Hb. subst tb.
    apply LIST_tokens in Hc. destruct Hc as (v & vs & ->).
    vm_compute in Hf. inversion Hf. eexists. split; reflexivity.
  - apply And_cons_Ok in H. destruct H as (ta & sa & ra & Ha & H & ->).
    apply And_cons_Ok in H. destruct H as (tb & sb & rb & Hb & H & ->).
    apply And_cons_Ok in H. destruct H as (tc & sc & rc & Hc & H & ->).
    apply And_cons_Ok in H. destruct H as (td & sd & rd & Hd & H & ->).
    apply And_nil_Ok in H. destruct H as [-> ->].
    apply IDENTIFIER_tokens in Ha. destruct Ha as (n & ->).
    apply CaselessKeyword_tokens in Hb. subst tb.
    apply CaselessKeyword_tokens in Hc. subst tc.
    apply LIST_tokens in Hd. destruct Hd as (v & vs & ->).
    vm_compute in Hf. inversion Hf. eexists. split; reflexivity.
Qed.

Lemma builds_NOT_level (last : parser) :
  builds (fun w => parsed w = true) last ->
  builds (fun w => parsed w = true) (opLevel last NOT_def).
Proof.
  intros Hlast. unfold opLevel, NOT_def. apply builds_Forward. intros this Hthis.
  apply builds_MatchFirst. constructor; [|constructor; [exact Hlast | constructor]].
  intros s toks rest H. apply setParseAction_Ok in H. destruct H as (t0 & H & Hf).
  apply And_cons_Ok in H. destruct H as (ta & sa & ra & Ha & H & ->).
  apply And_cons_Ok in H. destruct H as (tb & sb & rb & Hb & H & ->).
  apply And_nil_Ok in H. destruct H as [-> ->].
  unfold FollowedBy in Ha.
  destruct (And [NOT; this] false s) as [[? ?]|e]; [|destruct e; discriminate].
  inversion Ha; subst. clear Ha.
  unfold Group in Hb. apply bind_Ok in Hb. destruct Hb as ([g sg] & Hg & Hb).
  inversion Hb; subst. clear Hb. cbn [fst app] in Hf.
  apply And_cons_Ok in Hg. destruct Hg as (tc & sc & rc & Hc & Hg & ->).
  apply And_cons_Ok in Hg. destruct Hg as (td & sd & rd & Hd & Hg & ->).
  apply And_nil_Ok in Hg. destruct Hg as [-> ->].
  apply Hthis in Hd. destruct Hd as (x & -> & Hx).
  apply Optional_Ok in Hc. destruct Hc as [Hc | ->].
  - apply CaselessKeyword_tokens in Hc. subst tc.
    cbn [app unary operator_invert bind] in Hf. inversion Hf.
    exists (invert x). split; [reflexivity | exact Hx].
  - discriminate Hf.
Qed.

Lemma parsed_fold_chain (ps : list (str * node)) :
  Forall logical_op ps -> Forall (fun p => parsed (snd p) = true) ps ->
  forall v, parsed v = true -> parsed (fold_chain v ps) = true.
Proof.
  induction 1 as [|[op r] ps Hop _ IH]; intros Hps v Hv; [exact Hv|].
  inversion Hps as [|? ? Hr Hps']; subst. cbn [snd] in Hr.
  unfold fold_chain. cbn [fold_left fst snd]. apply (IH Hps').
  destruct Hop as [Hop | Hop]; cbn [fst] in Hop; subst op;
    change (parsed v && parsed r = true); rewrite Hv, Hr; reflexivity.
Qed.

Section BuildsTier2.

Variable last : parser.
Hypothesis builds_last : builds (fun w => parsed w = true) last.

Lemma builds_pair (s rest : str) (toks : tokens) :
  And [AND_OR; last] true s = Ok (toks, rest) ->
  exists p, toks = chain_tokens [p] /\ logical_op p /\ parsed (snd p) = true.
Proof.
  intros H.
  apply And_cons_Ok in H. destruct H as (ta & sa & ra & Ha & H & ->).
  apply And_cons_Ok in H. destruct H as (tb & sb & rb & Hb & H & ->).
  apply And_nil_Ok in H. destruct H as [-> ->].
  apply builds_last in Hb. destruct Hb as (w & -> & Hw).
  apply AND_OR_tokens in Ha. destruct Ha as [-> | ->].
  - exists ("and", w). split; [reflexivity|]. split; [left; reflexivity | exact Hw].
  - exists ("or", w). split; [reflexivity|]. split; [right; reflexivity | exact Hw].
Qed.

Lemma builds_repeat (n : nat) :
  forall s rest toks,
    repeat_expr (And [AND_OR; last]) n true s = Ok (toks, rest) ->
    exists ps, toks = chain_tokens ps /\ Forall logical_op ps /\
               Forall (fun p => parsed (snd p) = true) ps.
Proof.
  induction n as [|n IH]; intros s rest toks H; cbn [repeat_expr] in H.
  - discriminate.
  - destruct (And [AND_OR; last] true s) as [[t1 s1]|e1] eqn:E1.
    + destruct (length s1 <? length s); [|discriminate].
      apply bind_Ok in H. destruct H as ([t2 s2] & H2 & H).
      inversion H; subst. cbn [fst].
      apply builds_pair in E1. destruct E1 as (p & -> & Hp & Hw).
      apply IH in H2. destruct H2 as (ps & -> & Hps & Hws).
      exists (p :: ps). split; [|split; constructor; assumption].
      destruct p as [o r]. reflexivity.
    + destruct e1; try discriminate. inversion H; subst.
      exists []. split; [reflexivity | split; constructor].
Qed.

Lemma builds_AND_OR_level :
  builds (fun w => parsed w = true) (opLevel last AND_OR_def).
Proof.
  intros s toks rest H. rewrite AND_OR_level_unfold in H.
  apply MatchFirst_inv in H. destruct H as (p & Hp & H). cbn [In] in Hp.
  destruct Hp as [<- | [<- | []]]; [|exact (builds_last s toks rest H)].
  apply setParseAction_Ok in H. destruct H as (t0 & H & Hf). unfold CHAIN in H.
  apply And_cons_Ok in H. destruct H as (ta & sa & ra & Ha & H & ->).
  apply And_cons_Ok in H. destruct H as (tb & sb & rb & Hb & H & ->).
  apply And_nil_Ok in H. destruct H as [-> ->].
  unfold FollowedBy in Ha.
  destruct (And [last; AND_OR; last] false s) as [[? ?]|e]; [|destruct e; discriminate].
  inversion Ha; subst. clear Ha.
  unfold Group in Hb. apply bind_Ok in Hb. destruct Hb as ([g sg] & Hg & Hb).
  inversion Hb; subst. clear Hb. cbn [fst app] in Hf.
  apply And_cons_Ok in Hg. destruct Hg as (tc & sc & rc & Hc & Hg & ->).
  apply And_cons_Ok in Hg. destruct Hg as (td & sd & rd & Hd & Hg & ->).
  apply And_nil_Ok in Hg. destruct Hg as [-> ->].
  apply builds_last in Hc. destruct Hc as (v & -> & Hv).
  unfold OneOrMore, PAIR in Hd.
  apply bind_Ok in Hd. destruct Hd as ([t1 s1] & H1 & Hd).
  apply bind_Ok in Hd. destruct Hd as ([t2 s2] & H2 & Hd).
  inversion Hd; subst. clear Hd. cbn [fst snd] in *.
  apply builds_pair in H1. destruct H1 as (p & -> & Hp & Hw).
  apply builds_repeat in H2. destruct H2 as (ps & -> & Hps & Hws).
  assert (E : [TNode v] ++ (chain_tokens [p] ++ chain_tokens ps) ++ [] =
              TNode v :: chain_tokens (p :: ps)).
  { destruct p as [o r]. cbn [chain_tokens app]. rewrite app_nil_r. reflexivity. }
  rewrite E in Hf. unfold infix in Hf.
  rewrite (infix_loop_chain (p :: ps)) in Hf by (constructor; assumption).
  inversion Hf. exists (fold_chain v (p :: ps)). split; [reflexivity|].
  apply parsed_fold_chain; [constructor; assumption | constructor; assumption | exact Hv].
Qed.

End BuildsTier2.

Lemma builds_EXPRESSION : builds (fun w => parsed w = true) EXPRESSION.
Proof.
  unfold EXPRESSION, operatorPrecedence. apply builds_Forward. intros ret Hret.
  cbn [fold_left]. apply builds_fail.
  apply builds_AND_OR_level. apply builds_NOT_level.
  apply builds_MatchFirst.
  constructor; [exact builds_TEST|].
  constructor; [apply builds_bracketed; exact Hret | constructor].
Qed.

(** X5.  What [where] returns is a tree of the shape the formatter reads.
    Every result of [where] is a tree node, and that tree is built of NOT
    nodes with one operand, AND and OR nodes with two, and tests with a
    column on the left: a comparison ([==], [!=], [<], [>], [<=], [>=];
    never [=] or [<>], which are read as [==] and [!=]) with a constant or a
    column on the right, a [like], [startsWith] or [endsWith] node on a
    string without [%], a null test, or a membership test on a list that is
    not empty. *)
Theorem where_builds_parsed (expr : str) (t : tok) :
  where_ expr = Ok t -> exists w, t = TNode w /\ parsed w = true.
Proof.
  intros H. unfold where_, parseString, WHEREEXP in H.
  cbn [And bind fst snd StringStart] in H.
  destruct (EXPRESSION true (Py.expandtabs expr)) as [[t1 s1]|e1] eqn:E1;
    cbn [bind fst snd] in H; [|discriminate].
  unfold StringEnd in H.
  destruct (preParse s1); cbn [bind fst snd] in H; [|discriminate].
  apply builds_EXPRESSION in E1. destruct E1 as (w & -> & Hw).
  cbn [app] in H. inversion H. exists w. split; [reflexivity | exact Hw].
Qed.

Lemma where_builds_parsed_witness :
  where_ "a <> 1 and not (b like 'x%' or [c d] in [1, 2,])" =
    Ok (TNode (Composite "and" (Composite "!=" (ColumnRef "a") (Some (int_const 1)))
                 (Some (Composite "not"
                          (Composite "or"
                             (Composite "startsWith" (ColumnRef "b")
                                (Some (str_const "x")))
                             (Some (Composite "inlist" (ColumnRef "c d")
                                      (Some (list_const [Py.VInt 1; Py.VInt 2])))))
                          None)))) /\
  exists w,
    TNode (Composite "and" (Composite "!=" (ColumnRef "a") (Some (int_const 1)))
             (Some (Composite "not"
                      (Composite "or"
                         (Composite "startsWith" (ColumnRef "b")
                            (Some (str_const "x")))
                         (Some (Composite "inlist" (ColumnRef "c d")
                                  (Some (list_const [Py.VInt 1; Py.VInt 2])))))
                      None))) = TNode w /\
    parsed w = true.
Proof.
  split; [vm_compute; reflexivity|].
  apply (where_builds_parsed "a <> 1 and not (b like 'x%' or [c d] in [1, 2,])").
  vm_compute. reflexivity.
Defined.

(** ** Formatting what the parser builds *)

Lemma format_column (n : str) (bracket brk : bool) :
  _format (ColumnRef n) bracket brk = Ok (name_text n).
Proof. cbn [_format]. unfold name_text. destruct (Py.contains n " "); reflexivity. Qed.

Lemma repr_items_float (l : list Py.value) :
  (exists xs, Py.repr_items l = Ok xs) \/
  Py.repr_items l = Raise (NotModelled "repr of a float").
Proof.
  induction l as [|v l IH]; [left; eexists; reflexivity|].
  cbn [Py.repr_items].
  destruct v as [| s | z | q]; cbn [Py.repr_value bind];
    try (right; reflexivity);
    destruct IH as [(xs & ->) | ->]; cbn [bind];
    first [left; eexists; reflexivity | right; reflexivity].
Qed.

Lemma format_test_parsed (op n : str) (r : option node) (bracket brk : bool) :
  parsed_test op r = true ->
  (exists txt, _format (Composite op (ColumnRef n) r) bracket brk = Ok txt) \/
  _format (Composite op (ColumnRef n) r) bracket brk =
    Raise (NotModelled "repr of a float").
Proof.
  unfold parsed_test. intros H.
  destruct (existsb (Py.eqb op) comparison_ops) eqn:E1.
  { apply existsb_eqb_In in E1. unfold comparison_ops in E1. cbn [In] in E1.
    destruct r as [[m | [[| s | z | q] | l] | op' l' r']|]; try discriminate;
      decompose [or] E1; try contradiction; subst op;
      cbn [_format]; unfold name_text; destruct (Py.contains n " "); cbn [bind];
      try (left; eexists; reflexivity); try (right; reflexivity);
      destruct (Py.contains m " "); cbn [bind]; left; eexists; reflexivity. }
  destruct (Py.eqb op "like" || Py.eqb op "endsWith") eqn:E2.
  { apply orb_true_iff in E2.
    destruct r as [[m | [[| s | z | q] | l] | op' l' r']|]; try discriminate.
    destruct E2 as [E2 | E2]; apply str_eqb_eq in E2; subst op;
      cbn [_format]; unfold name_text; destruct (Py.contains n " ");
      left; eexists; reflexivity. }
  destruct (Py.eqb op "startsWith") eqn:E3.
  { apply str_eqb_eq in E3. subst op.
    destruct r as [[m | [[| s | z | q] | l] | op' l' r']|]; try discriminate.
    cbn [_format]. unfold name_text. destruct (Py.contains n " ");
      left; eexists; reflexivity. }
  destruct (Py.eqb op "isNull" || Py.eqb op "isNotNull") eqn:E4.
  { apply orb_true_iff in E4.
    destruct E4 as [E4 | E4]; apply str_eqb_eq in E4; subst op;
      cbn [_format]; unfold name_text; destruct (Py.contains n " ");
      left; eexists; reflexivity. }
  destruct (Py.eqb op "inlist" || Py.eqb op "notinlist") eqn:E5; [|discriminate].
  apply orb_true_iff in E5.
  destruct r as [[m | [v | l] | op' l' r']|]; try discriminate.
  destruct E5 as [E5 | E5]; apply str_eqb_eq in E5; subst op;
    cbn [_format right_left Py.repr bind]; unfold name_text;
    destruct (Py.contains n " "); cbn [bind];
    destruct (repr_items_float l) as [(xs & ->) | ->]; cbn [bind];
    first [left; eexists; reflexivity | right; reflexivity].
Qed.

Lemma format_parsed (w : node) :
  parsed w = true ->
  forall bracket brk,
    (exists txt, _format w bracket brk = Ok txt) \/
    _format w bracket brk = Raise (NotModelled "repr of a float").
Proof.
  induction w as [n | v | op l IHl r IHr] using node_ind; try discriminate.
  cbn [parsed]. destruct (Py.eqb op "not") eqn:E1.
  - apply str_eqb_eq in E1. subst op. destruct r as [x|]; [discriminate|].
    intros Hl bracket brk. rewrite format_not_unfold.
    destruct (IHl Hl true true) as [(a & ->) | ->]; cbn [bind];
      [left; eexists; reflexivity | right; reflexivity].
  - destruct (existsb (Py.eqb op) LOGICAL) eqn:E2.
    + destruct r as [x|]; [|discriminate]. intros H bracket brk.
      apply andb_true_iff in H. destruct H as [Hl Hx].
      inversion IHr as [x' IHx|]; subst.
      rewrite (format_logical_unfold op l x bracket brk (existsb_eqb_In _ _ E2)).
      cbn zeta.
      assert (Ha : (exists a, (if same_op (node_op l) op then _format l false true
                               else _format l true false) = Ok a) \/
                   (if same_op (node_op l) op then _format l false true
                    else _format l true false) = Raise (NotModelled "repr of a float")).
      { destruct (same_op (node_op l) op); apply (IHl Hl). }
      destruct Ha as [(a & ->) | ->]; cbn [bind]; [|right; reflexivity].
      destruct (IHx Hx true false) as [(c & ->) | ->]; cbn [bind];
        [|right; reflexivity].
      left. destruct bracket; eexists; reflexivity.
    + destruct l as [n | v | op' l' r']; try discriminate.
      intros H bracket brk. apply format_test_parsed. exact H.
Qed.

(** X6.  The formatter accepts what the parser builds.  On every tree
    [where] returns, [formatWhere] returns a text, unless the tree holds a
    floating-point constant, whose [repr] this development does not
    compute; it never raises the formatter's own errors (an unknown
    operation, an unsupported object, a missing operand). *)
Theorem format_of_parsed (expr : str) (w : node) :
  where_ expr = Ok (TNode w) ->
  (exists txt, formatWhere w = Ok txt) \/
  formatWhere w = Raise (NotModelled "repr of a float").
Proof.
  intros H. unfold where_, parseString, WHEREEXP in H.
  cbn [And bind fst snd StringStart] in H.
  destruct (EXPRESSION true (Py.expandtabs expr)) as [[t1 s1]|e1] eqn:E1;
    cbn [bind fst snd] in H; [|discriminate].
  unfold StringEnd in H.
  destruct (preParse s1); cbn [bind fst snd] in H; [|discriminate].
  apply builds_EXPRESSION in E1. destruct E1 as (w' & -> & Hw).
  cbn [app] in H. inversion H; subst. apply format_parsed. exact Hw.
Qed.

Lemma format_of_parsed_witness :
  where_ "not a like '%x' or b in ['y', 2]" =
    Ok (TNode (Composite "or"
                 (Composite "not"
                    (Composite "endsWith" (ColumnRef "a") (Some (str_const "x"))) None)
                 (Some (Composite "inlist" (ColumnRef "b")
                          (Some (list_const [Py.VStr "y"; Py.VInt 2])))))) /\
  ((exists txt,
      formatWhere (Composite "or"
                     (Composite "not"
                        (Composite "endsWith" (ColumnRef "a") (Some (str_const "x"))) None)
                     (Some (Composite "inlist" (ColumnRef "b")
                              (Some (list_const [Py.VStr "y"; Py.VInt 2]))))) = Ok txt) \/
   formatWhere (Composite "or"
                  (Composite "not"
                     (Composite "endsWith" (ColumnRef "a") (Some (str_const "x"))) None)
                  (Some (Composite "inlist" (ColumnRef "b")
                           (Some (list_const [Py.VStr "y"; Py.VInt 2]))))) =
     Raise (NotModelled "repr of a float")).
Proof.
  split; [vm_compute; reflexivity|].
  apply (format_of_parsed "not a like '%x' or b in ['y', 2]").
  vm_compute. reflexivity.
Defined.

(** ** The integer literal *)

Lemma star_class_stop (p : ascii -> bool) (rest : str) (k : Re.cont) (n : nat) :
  (forall c r, rest = c :: r -> p c = false) ->
  Re.star (Re.rmatch (Re.Cls p)) n rest k = k rest.
Proof.
  intros H. destruct n as [|n]; [reflexivity|]. rewrite star_S.
  destruct rest as [|c r]; [reflexivity|].
  rewrite rmatch_class_cons, (H c r eq_refl). reflexivity.
Qed.

(** The greedy loop gives back one character when the continuation fails
    after all of them. *)
Lemma star_class_backtrack (p : ascii -> bool) (d : ascii) (rest : str)
    (k : Re.cont) (v : str) :
  p d = true -> (forall c r, rest = c :: r -> p c = false) ->
  k rest = None -> k (d :: rest) = Some v ->
  forall xs, Forall (fun c => p c = true) xs ->
  forall n, length (xs ++ d :: rest) <= n ->
    Re.star (Re.rmatch (Re.Cls p)) n (xs ++ d :: rest) k = Some v.
Proof.
  intros Hd Hrest Hk Hkd xs Hxs.
  induction Hxs as [|x xs Hx _ IH]; intros n Hn.
  - cbn [app] in *. destruct n as [|n]; [simpl in Hn; lia|].
    rewrite star_S, rmatch_class_cons, Hd, ltb_length_cons.
    rewrite (star_class_stop p rest k n Hrest), Hk. exact Hkd.
  - cbn [app] in *. destruct n as [|n]; [simpl in Hn; lia|].
    rewrite star_S, rmatch_class_cons, Hx, ltb_length_cons.
    rewrite IH; [reflexivity | simpl in Hn; lia].
Qed.

Lemma int_tail_sound (t w : str) :
  Re.rmatch (Re.Seq (Re.Plus Re.digit) (Re.NotAhead (Re.Chr "."))) t
            (fun s' => Some s') = Some w ->
  exists ds, t = ds ++ w /\ digits ds /\ ds <> [] /\ (forall r, w <> "." ++ r).
Proof.
  intros H. simpl in H.
  destruct t as [|c t]; [discriminate|].
  destruct (Py.isdigit c) eqn:Hc; [|discriminate].
  apply star_class_sound in H. destruct H as (xs & rest & -> & Hxs & H).
  assert (Hw : rest = w /\ forall r, rest <> "." ++ r).
  { destruct rest as [|x r]; [inversion H; split; [reflexivity | discriminate]|].
    destruct (Ascii.eqb x ".") eqn:E; [discriminate|].
    inversion H. split; [reflexivity|]. intros r' E'. injection E' as -> _.
    discriminate E. }
  destruct Hw as [<- Hw]. exists (c :: xs).
  split; [reflexivity|]. split; [constructor; assumption|]. split; [discriminate|].
  exact Hw.
Qed.

Lemma int_tail_backtrack (ds : str) (d : ascii) (r : str) :
  digits ds -> ds <> [] -> Py.isdigit d = true ->
  Re.rmatch (Re.Seq (Re.Plus Re.digit) (Re.NotAhead (Re.Chr ".")))
            (ds ++ d :: "." ++ r) (fun s' => Some s') = Some (d :: "." ++ r).
Proof.
  intros Hds Hne Hd. destruct ds as [|c ds]; [contradiction|].
  inversion Hds as [|? ? Hc Hds']; subst. cbn [app].
  change (Re.rmatch Re.digit (c :: ds ++ d :: "."%char :: r)
            (fun s' => Re.star (Re.rmatch Re.digit) (length s') s'
                         (fun s'' => Re.rmatch (Re.NotAhead (Re.Chr ".")) s''
                                       (fun s3 => Some s3))) =
          Some (d :: "."%char :: r)).
  unfold Re.digit. rewrite rmatch_class_cons, Hc.
  apply (star_class_backtrack Py.isdigit d ("."%char :: r)); auto.
  - intros x y E. injection E as <- _. reflexivity.
  - cbn [Re.rmatch]. destruct (Ascii.eqb d ".") eqn:E; [|reflexivity].
    apply Ascii.eqb_eq in E. subst d. discriminate Hd.
Qed.

Lemma int_tail_short (d : ascii) (r : str) :
  Py.isdigit d = true ->
  Re.rmatch (Re.Seq (Re.Plus Re.digit) (Re.NotAhead (Re.Chr ".")))
            (d :: "." ++ r) (fun s' => Some s') = None.
Proof.
  intros Hd.
  change (Re.rmatch Re.digit (d :: "."%char :: r)
            (fun s' => Re.star (Re.rmatch Re.digit) (length s') s'
                         (fun s'' => Re.rmatch (Re.NotAhead (Re.Chr ".")) s''
                                       (fun s3 => Some s3))) = None).
  unfold Re.digit. rewrite rmatch_class_cons, Hd.
  rewrite star_class_stop; [reflexivity|].
  intros x y E. injection E as <- _. reflexivity.
Qed.

Lemma digit_not_minus (c : ascii) : Py.isdigit c = true -> Ascii.eqb c "-" = false.
Proof.
  intros H. destruct (Ascii.eqb c "-") eqn:E; [|reflexivity].
  apply Ascii.eqb_eq in E. subst c. discriminate H.
Qed.

(** X7.  The integer literal [-?\d+(?!\.)].  A match is an optional [-] and
    one or more digits, it is a prefix of the input, and the text after it
    does not start with a decimal point.  Because the digits are matched
    with backtracking, digits followed by a decimal point are not refused:
    the match gives up its last digit, so two or more digits before a point
    match without the last one, and one digit before a point does not
    match. *)
Theorem int_literal_match :
  (forall s m rest,
     Re.re_match INT_CONSTANT_re s = Some (m, rest) ->
     s = m ++ rest /\
     (exists sign ds, m = sign ++ ds /\ (sign = [] \/ sign = "-") /\
                      digits ds /\ ds <> []) /\
     (forall r, rest <> "." ++ r)) /\
  (forall sign ds d r,
     sign = [] \/ sign = "-" -> digits ds -> ds <> [] -> Py.isdigit d = true ->
     Re.re_match INT_CONSTANT_re (sign ++ ds ++ d :: "." ++ r) =
     Some (sign ++ ds, d :: "." ++ r)) /\
  (forall sign d r,
     sign = [] \/ sign = "-" -> Py.isdigit d = true ->
     Re.re_match INT_CONSTANT_re (sign ++ d :: "." ++ r) = None).
Proof.
  split; [|split].
  - intros s m rest H. unfold Re.re_match in H.
    destruct (Re.rmatch INT_CONSTANT_re s _) as [v|] eqn:E; [|discriminate].
    injection H as <- <-. rewrite int_re_unfold in E.
    assert (Hm : exists sign ds, s = (sign ++ ds) ++ v /\ (sign = [] \/ sign = "-") /\
                   digits ds /\ ds <> [] /\ (forall r, v <> "." ++ r)).
    { destruct (Re.rmatch (Re.Chr "-") s _) as [x|] eqn:Em.
      - injection E as ->. destruct s as [|c s']; [discriminate|].
        cbn [Re.rmatch] in Em. destruct (Ascii.eqb c "-") eqn:Hc; [|discriminate].
        apply Ascii.eqb_eq in Hc. subst c.
        apply int_tail_sound in Em. destruct Em as (ds & -> & H1 & H2 & H3).
        exists "-", ds. auto.
      - apply int_tail_sound in E. destruct E as (ds & -> & H1 & H2 & H3).
        exists [], ds. auto. }
    destruct Hm as (sign & ds & -> & Hs & Hd & Hne & Hv).
    rewrite length_app, Nat.add_sub, firstn_length_app.
    split; [reflexivity|]. split; [|exact Hv]. exists sign, ds. auto.
  - intros sign ds d r Hs Hds Hne Hd.
    replace (sign ++ ds ++ d :: "." ++ r) with ((sign ++ ds) ++ d :: "." ++ r)
      by (rewrite <- app_assoc; reflexivity).
    apply re_match_prefix. rewrite <- app_assoc, int_re_unfold.
    pose proof (int_tail_backtrack ds d r Hds Hne Hd) as Ht.
    destruct Hs as [-> | ->]; cbn [app] in Ht |- *.
    + rewrite Ht. destruct (Re.rmatch (Re.Chr "-") _ _) as [x|] eqn:E; [|reflexivity].
      exfalso. destruct ds as [|c ds]; [contradiction|].
      inversion Hds as [|? ? Hc _]; subst.
      cbn [app Re.rmatch] in E. rewrite (digit_not_minus c Hc) in E. discriminate E.
    + cbn [Re.rmatch]. rewrite Ascii.eqb_refl.
      cbn [Re.rmatch] in Ht. rewrite Ht. reflexivity.
  - intros sign d r Hs Hd. unfold Re.re_match. rewrite int_re_unfold.
    pose proof (int_tail_short d r Hd) as Ht.
    destruct Hs as [-> | ->]; cbn [app] in Ht |- *.
    + rewrite Ht. cbn [Re.rmatch]. rewrite (digit_not_minus d Hd). reflexivity.
    + cbn [Re.rmatch]. rewrite Ascii.eqb_refl.
      cbn [Re.rmatch] in Ht. rewrite Ht. reflexivity.
Qed.

(** ** Whitespace around a formatted expression *)

Lemma expandtabs_from_app (a b : str) :
  forall col, exists col',
    Py.expandtabs_from col (a ++ b) =
    Py.expandtabs_from col a ++ Py.expandtabs_from col' b.
Proof.
  induction a as [|c a IH]; intros col.
  - exists col. reflexivity.
  - cbn [app Py.expandtabs_from].
    destruct (Ascii.eqb c Py.tab).
    + destruct (IH (col + (8 - Nat.modulo col 8))) as (col' & ->).
      exists col'. rewrite <- app_assoc. reflexivity.
    + destruct (Ascii.eqb c Py.nl || Ascii.eqb c Py.cr).
      * destruct (IH 0) as (col' & ->). exists col'. reflexivity.
      * destruct (IH (S col)) as (col' & ->). exists col'. reflexivity.
Qed.

Lemma all_ws_expandtabs (a : str) :
  all_ws a -> forall col, all_ws (Py.expandtabs_from col a).
Proof.
  induction 1 as [|c a Hc _ IH]; intros col; [constructor|].
  cbn [Py.expandtabs_from]. destruct (Ascii.eqb c Py.tab).
  - apply Forall_app. split; [apply all_ws_spaces | apply IH].
  - destruct (Ascii.eqb c Py.nl || Ascii.eqb c Py.cr);
      (constructor; [exact Hc | apply IH]).
Qed.

Lemma preParse_all_ws (ws : str) : all_ws ws -> preParse ws = [].
Proof.
  intros H. rewrite <- (app_nil_r ws). rewrite preParse_ws_app by exact H. reflexivity.
Qed.

Lemma boundary_all_ws (ws : str) : all_ws ws -> boundary ws.
Proof.
  intros H. destruct ws as [|c r]; [apply boundary_nil|].
  apply boundary_ws. inversion H; assumption.
Qed.

(** X8.  The text of a canonical tree is read back whatever whitespace
    stands around it and however deep it is indented: for every canonical
    tree [T], with the text [formatWhere] returns indented by [4 * k] more
    spaces after each line break, between any whitespace [ws] and [ws']
    (tabs included), [where] returns [T]. *)
Theorem reparse_any_layout (T : node) (ws ws' : str) (k : nat) :
  canonical T = true -> all_ws ws -> all_ws ws' ->
  exists txt, formatWhere T = Ok txt /\
              where_ (ws ++ reindent k txt ++ ws') = Ok (TNode T).
Proof.
  intros Hc Hws Hws'. destruct (canonical_inv T Hc) as [_ Hch].
  destruct (Hch false) as (txt & w0 & ps & Hf & Hg & Hfold & Hps & Hp).
  exists txt. split; [exact Hf|].
  assert (Hmid : Forall (fun c => c <> Py.cr /\ c <> Py.tab) (reindent k txt)).
  { apply Forall_reindent. apply Hg. }
  assert (Hst : starts_token (reindent k txt)).
  { apply starts_token_reindent. apply Hg. }
  assert (E : exists w1 w2, Py.expandtabs (ws ++ reindent k txt ++ ws') =
                            w1 ++ reindent k txt ++ w2 /\ all_ws w1 /\ all_ws w2).
  { unfold Py.expandtabs.
    destruct (expandtabs_from_app ws (reindent k txt ++ ws') 0) as (c1 & ->).
    destruct (expandtabs_from_app (reindent k txt) ws' c1) as (c2 & ->).
    rewrite (expandtabs_no_tab _ Hmid c1).
    eexists _, _. split; [reflexivity|]. split; apply all_ws_expandtabs; assumption. }
  destruct E as (w1 & w2 & E & H1 & H2).
  set (s := w1 ++ reindent k txt ++ w2) in *.
  assert (Hlen : length txt <= length s).
  { unfold s. rewrite !length_app. pose proof (length_reindent k txt). lia. }
  assert (He : yields EXPRESSION true s [TNode T] w2).
  { apply (yields_eq _ _ _ _ _ _ (EXPRESSION_RET true s)). unfold RET_body.
    apply yields_fail. rewrite <- Hfold.
    apply yields_AND_OR_level;
      [| | exact Hps | left; apply preParse_all_ws; exact H2].
    - intros b'. apply (Hp (length s) b' w1 k w2); auto using boundary_all_ws.
    - unfold s. rewrite (preParse_token w1 _ w2 H1 Hst).
      apply (Hp (length s) true [] k w2); auto using boundary_all_ws. constructor. }
  destruct He as (t & He & Et). specialize (Et eq_refl). subst t.
  unfold where_, parseString. rewrite E. fold s.
  unfold WHEREEXP. cbn [And StringStart bind fst snd]. rewrite He.
  cbn [bind fst snd]. unfold StringEnd. rewrite (preParse_all_ws w2 H2).
  reflexivity.
Qed.

Lemma reparse_any_layout_witness :
  (canonical example_tree = true /\ all_ws (" " ++ [Py.nl]) /\ all_ws [Py.tab; Py.cr]) /\
  exists txt, formatWhere example_tree = Ok txt /\
              where_ ((" " ++ [Py.nl]) ++ reindent 2 txt ++ [Py.tab; Py.cr]) =
              Ok (TNode example_tree).
Proof.
  assert (H1 : all_ws (" " ++ [Py.nl])) by (repeat constructor).
  assert (H2 : all_ws [Py.tab; Py.cr]) by (repeat constructor).
  split; [split; [reflexivity | split; assumption]|].
  exact (reparse_any_layout example_tree _ _ 2 eq_refl H1 H2).
Defined.

(** ** An expression that is one test *)

Lemma MatchFirst_from_Raise (b : bool) (s : str) (e : exn) (p : parser)
    (l2 : list parser) :
  p b s = Raise e -> escapes e ->
  forall l1, Forall (fun q => fails q b s) l1 ->
  forall mx, MatchFirst_from mx (l1 ++ p :: l2) b s = Raise e.
Proof.
  intros Hp He l1 Hl1. induction Hl1 as [|q l1 (r & m & Hq) _ IH]; intros mx.
  - cbn [app MatchFirst_from]. rewrite Hp.
    destruct e; try reflexivity. exfalso. exact (He _ _ eq_refl).
  - cbn [app MatchFirst_from]. rewrite Hq. apply IH.
Qed.

Lemma MatchFirst_Raise (b : bool) (s : str) (e : exn) (l1 : list parser) (p : parser)
    (l2 : list parser) :
  Forall (fun q => fails q b s) l1 -> p b s = Raise e -> escapes e ->
  MatchFirst (l1 ++ p :: l2) b s = Raise e.
Proof. intros Hl Hp He. apply MatchFirst_from_Raise; assumption. Qed.

Lemma And_Raise_head (b : bool) (s : str) (e : exn) (p : parser) (l : list parser) :
  p b s = Raise e -> And (p :: l) b s = Raise e.
Proof. intros H. cbn [And]. rewrite H. reflexivity. Qed.

Lemma And_Raise_after (b : bool) (s s1 : str) (e : exn) (p : parser)
    (l : list parser) (t : tokens) :
  yields p b s t s1 -> And l b s1 = Raise e -> And (p :: l) b s = Raise e.
Proof.
  intros (u & Hp & _) H. cbn [And]. rewrite Hp. cbn [bind fst snd]. rewrite H.
  reflexivity.
Qed.

Lemma setParseAction_Raise (p : parser) (fn : tokens -> res tokens) (b : bool)
    (s : str) (e : exn) :
  p b s = Raise e -> setParseAction p fn b s = Raise e.
Proof. intros H. unfold setParseAction. rewrite H. reflexivity. Qed.

Lemma setParseAction_action_Raise (p : parser) (fn : tokens -> res tokens)
    (s rest : str) (t : tokens) (e : exn) :
  yields p true s t rest -> fn t = Raise e -> setParseAction p fn true s = Raise e.
Proof.
  intros (u & Hp & Hu) Hf. rewrite (Hu eq_refl) in Hp.
  unfold setParseAction. rewrite Hp. cbn [bind fst snd]. rewrite Hf. reflexivity.
Qed.

Lemma fail_Raise (p : parser) (name : str) (b : bool) (s : str) (e : exn) :
  p b s = Raise e -> escapes e -> fail p name b s = Raise e.
Proof.
  intros H He. unfold fail, setFailAction. rewrite H.
  destruct e; try reflexivity. exfalso. exact (He _ _ eq_refl).
Qed.

Lemma fail_fatal (p : parser) (name : str) (b : bool) (s : str) :
  fails p b s ->
  fail p name b s = Raise (ParseFatalException (preParse s) ("Expected " ++ name)).
Proof.
  intros (r & m & H). unfold fail, setFailAction. rewrite H. reflexivity.
Qed.

Lemma fails_FollowedBy_fatal (e : parser) (b : bool) (s r m : str) :
  e false s = Raise (ParseFatalException r m) -> fails (FollowedBy e) b s.
Proof.
  intros H. unfold fails, FollowedBy. rewrite H. eexists _, _. reflexivity.
Qed.

Lemma yields_OPERAND_test (ret : parser) (b : bool) (s rest : str) (t : tokens) :
  fails NOT false s -> yields TEST b s t rest -> yields (OPERAND ret) b s t rest.
Proof.
  intros Hn Ht. apply (yields_eq _ _ _ _ _ _ (OPERAND_unfold _ _ _)).
  apply yields_OPERAND_last; [exact Hn|].
  unfold ATOM. apply yields_MatchFirst_head. exact Ht.
Qed.

Lemma OPERAND_test_Raise (ret : parser) (b : bool) (s : str) (e : exn) :
  fails NOT false s -> TEST b s = Raise e -> escapes e -> OPERAND ret b s = Raise e.
Proof.
  intros Hn Ht He. rewrite OPERAND_unfold, OPERAND_depth_S. unfold NOT_body.
  apply (MatchFirst_Raise b s e [_] _ []); [| |exact He].
  - constructor; [|constructor].
    apply fails_setParseAction, fails_And_head, fails_FollowedBy, fails_And_head.
    exact Hn.
  - unfold ATOM. apply (MatchFirst_Raise b s e [] _ [_]); [constructor | exact Ht | exact He].
Qed.

(** A text that is one test, read by [where]. *)
Lemma where_single_test (txt : str) (w : node) :
  Forall (fun c => c <> Py.cr /\ c <> Py.tab) txt -> starts_token txt ->
  fails NOT false txt ->
  (forall b, yields TEST b txt [TNode w] []) ->
  where_ txt = Ok (TNode w).
Proof.
  intros Hc (c & t & E & Hw) Hn Ht.
  assert (HP : preParse txt = txt) by (rewrite E; apply preParse_start; exact Hw).
  assert (He : yields EXPRESSION true txt [TNode w] []).
  { apply (yields_eq _ _ _ _ _ _ (EXPRESSION_RET true txt)). unfold RET_body.
    apply yields_fail.
    apply (yields_AND_OR_level _ true txt [] w []);
      [| | constructor | left; reflexivity].
    - intros b'. exists []. split; [|reflexivity].
      apply yields_OPERAND_test; [exact Hn | apply Ht].
    - rewrite HP. exists []. split; [|reflexivity].
      apply yields_OPERAND_test; [exact Hn | apply Ht]. }
  destruct He as (u & He & Eu). specialize (Eu eq_refl). subst u.
  unfold where_, parseString, Py.expandtabs. rewrite (expandtabs_no_tab txt Hc 0).
  unfold WHEREEXP. cbn [And StringStart bind fst snd]. rewrite He. reflexivity.
Qed.

(** A text that is one test whose match or whose action raises. *)
Lemma where_single_test_Raise (txt : str) (e : exn) :
  Forall (fun c => c <> Py.cr /\ c <> Py.tab) txt ->
  fails NOT false txt ->
  TEST true txt = Raise e -> escapes e ->
  (exists r m, TEST false txt = Raise (ParseFatalException r m)) \/
  (exists t rest, yields TEST false txt t rest /\ closes rest) ->
  where_ txt = Raise e.
Proof.
  intros Hc Hn Ht He Hf.
  set (last := OPERAND (RET (length txt))).
  assert (Hchain : fails (setParseAction (CHAIN last) infix) true txt).
  { apply fails_setParseAction, fails_And_head.
    destruct Hf as [(r & m & Hf) | (t & rest & Hy & Hcl)].
    - apply (fails_FollowedBy_fatal _ _ _ r m). apply And_Raise_head.
      apply OPERAND_test_Raise; [exact Hn | exact Hf | discriminate].
    - apply fails_FollowedBy.
      apply (fails_And_after false txt rest last _ t).
      + apply yields_OPERAND_test; assumption.
      + apply fails_And_head, fails_AND_OR. exact Hcl. }
  assert (Hx : EXPRESSION true txt = Raise e).
  { rewrite EXPRESSION_RET. unfold RET_body. apply fail_Raise; [|exact He].
    rewrite AND_OR_level_unfold.
    apply (MatchFirst_Raise true txt e [_] _ []);
      [constructor; [exact Hchain | constructor] | | exact He].
    apply OPERAND_test_Raise; assumption. }
  unfold where_, parseString, Py.expandtabs. rewrite (expandtabs_no_tab txt Hc 0).
  unfold WHEREEXP. cbn [And StringStart bind fst snd]. rewrite Hx. reflexivity.
Qed.

(** ** The aliases of the operators *)

Lemma yields_OPERATOR_alias (b : bool) (s r : str) (op : str) :
  op = "=" \/ op = "<>" -> preParse s = op ++ " " ++ r ->
  yields OPERATOR b s [text op] (" " ++ r).
Proof.
  unfold OPERATOR. intros [-> | ->] Hs.
  - apply yields_MatchFirst_head. apply yields_Regex; [exact Hs | reflexivity].
  - apply (yields_MatchFirst b s [_; _] _); [repeat constructor; fails_token Hs|].
    apply yields_Literal. exact Hs.
Qed.

Lemma yields_TEST_alias (b : bool) (n : str) (r : node) (op op' : str) :
  (op = "=" /\ op' = "==") \/ (op = "<>" /\ op' = "!=") ->
  name_ok n = true -> operand_ok r = true ->
  yields TEST b (name_text n ++ " " ++ op ++ " " ++ operand_text r)
         [TNode (Composite op' (ColumnRef n) (Some r))] [].
Proof.
  intros Hop Hn Hr.
  assert (Hst : starts_token (name_text n)) by (apply name_text_starts; exact Hn).
  assert (HP : preParse (name_text n ++ " " ++ op ++ " " ++ operand_text r) =
               name_text n ++ " " ++ op ++ " " ++ operand_text r).
  { destruct Hst as (c & t & -> & Hw). apply preParse_start. exact Hw. }
  unfold TEST. apply yields_MatchFirst_head. unfold INFIX_TEST.
  apply (yields_setParseAction b _ [] _ _ [TNode (ColumnRef n); text op; operand_token r]).
  - unfold INFIX_TEST_expr.
    apply (yields_name_then b _ [] n _ _ (op ++ " " ++ operand_text r) Hn HP).
    apply (yields_And_cons b _ (" " ++ operand_text r) [] OPERATOR _ [text op]
             [operand_token r]).
    + apply yields_OPERATOR_alias; [tauto|].
      destruct Hop as [[-> _] | [-> _]]; reflexivity.
    + rewrite <- (app_nil_r [operand_token r]).
      apply (yields_And_cons b _ [] [] VALUE []); [|apply yields_And_nil].
      apply yields_VALUE; [exact Hr | | apply boundary_nil].
      rewrite <- (app_nil_r (operand_text r)) at 1.
      rewrite (preParse_space (operand_text r) [] (operand_text_starts r Hr)).
      reflexivity.
  - pose proof (operand_token_operand r Hr) as Ho.
    destruct Hop as [[-> ->] | [-> ->]];
      unfold parseTest, text; cbn [Py.dict_get OPS Py.eqb Ascii.eqb Bool.eqb andb];
      unfold operator_eq, operator_ne, apply_op; rewrite Ho; reflexivity.
Qed.

Lemma comparison_text_plain (n op : str) (r : node) :
  name_ok n = true -> operand_ok r = true -> plain_text op ->
  Forall (fun c => c <> Py.cr /\ c <> Py.tab)
         (name_text n ++ " " ++ op ++ " " ++ operand_text r) /\
  starts_token (name_text n ++ " " ++ op ++ " " ++ operand_text r).
Proof.
  intros Hn Hr Hop. split.
  - assert (Hp : plain_text (name_text n ++ " " ++ op ++ " " ++ operand_text r)).
    { repeat apply plain_text_app; auto using name_text_plain, operand_text_plain;
        plain_literal. }
    eapply Forall_impl; [|exact Hp]. intros c (_ & H1 & H2). split; assumption.
  - apply starts_token_app. apply name_text_starts. exact Hn.
Qed.

(** X9.  The aliases of the comparison operators are read, and not kept:
    for a column and a constant or column operand, [name = value] is read
    as the [==] node and [name <> value] as the [!=] node, and the
    formatter writes them back as [name == value] and [name != value]. *)
Theorem operator_aliases (n : str) (r : node) :
  left_name_ok n = true -> operand_ok r = true ->
  where_ (name_text n ++ " = " ++ operand_text r) =
    Ok (TNode (Composite "==" (ColumnRef n) (Some r))) /\
  where_ (name_text n ++ " <> " ++ operand_text r) =
    Ok (TNode (Composite "!=" (ColumnRef n) (Some r))) /\
  formatWhere (Composite "==" (ColumnRef n) (Some r)) =
    Ok (name_text n ++ " == " ++ operand_text r) /\
  formatWhere (Composite "!=" (ColumnRef n) (Some r)) =
    Ok (name_text n ++ " != " ++ operand_text r).
Proof.
  intros Hleft Hr.
  assert (Hn : name_ok n = true).
  { unfold left_name_ok in Hleft. apply andb_true_iff in Hleft. apply Hleft. }
  assert (Hw : forall op op',
             (op = "=" /\ op' = "==") \/ (op = "<>" /\ op' = "!=") ->
             where_ (name_text n ++ " " ++ op ++ " " ++ operand_text r) =
             Ok (TNode (Composite op' (ColumnRef n) (Some r)))).
  { intros op op' Hop.
    assert (Hpl : plain_text op) by (destruct Hop as [[-> _] | [-> _]]; plain_literal).
    destruct (comparison_text_plain n op r Hn Hr Hpl) as [Hc Hst].
    apply where_single_test; [exact Hc | exact Hst | |].
    - apply (fails_NOT_name false _ n (op ++ " " ++ operand_text r) Hleft).
      destruct Hst as (c & t & -> & Hws). apply preParse_start. exact Hws.
    - intros b. apply yields_TEST_alias; assumption. }
  split; [exact (Hw "=" "==" (or_introl (conj eq_refl eq_refl)))|].
  split; [exact (Hw "<>" "!=" (or_intror (conj eq_refl eq_refl)))|].
  split; apply format_comparison; simpl; auto.
Qed.

Lemma operator_aliases_witness :
  (left_name_ok "total cost" = true /\ operand_ok (str_const "n/a") = true) /\
  where_ (name_text "total cost" ++ " = " ++ operand_text (str_const "n/a")) =
    Ok (TNode (Composite "==" (ColumnRef "total cost") (Some (str_const "n/a")))) /\
  where_ (name_text "total cost" ++ " <> " ++ operand_text (str_const "n/a")) =
    Ok (TNode (Composite "!=" (ColumnRef "total cost") (Some (str_const "n/a")))) /\
  formatWhere (Composite "==" (ColumnRef "total cost") (Some (str_const "n/a"))) =
    Ok (name_text "total cost" ++ " == " ++ operand_text (str_const "n/a")) /\
  formatWhere (Composite "!=" (ColumnRef "total cost") (Some (str_const "n/a"))) =
    Ok (name_text "total cost" ++ " != " ++ operand_text (str_const "n/a")).
Proof.
  split; [split; reflexivity|].
  exact (operator_aliases "total cost" (str_const "n/a") eq_refl eq_refl).
Defined.

(** ** Errors inside a test *)

Lemma make_like_Raise (a : node) (p : str) (e : exn) :
  make_like (TNode a) (text p) = Raise e ->
  e = ValueError ("Unsupported LIKE pattern '" ++ p ++ "'.").
Proof.
  unfold make_like, text. cbn [negb Py.is_basestring]. cbv zeta.
  unfold operator_eq, endsWith, startsWith, like.
  change (TObj (Py.Scalar (Py.VStr p))) with (text p).
  rewrite !apply_op_text.
  destruct (Py.count p "%" =? 0); [discriminate|].
  destruct (Py.count p "%" =? 1).
  { destruct (Py.startswith p "%"); [discriminate|].
    destruct (Py.endswith p "%"); [discriminate|].
    destruct (Py.count p "%" =? 2); [destruct (_ && _); [discriminate|]|];
      intros H; inversion H; reflexivity. }
  destruct (Py.count p "%" =? 2).
  { destruct (Py.startswith p "%" && Py.endswith p "%"); [discriminate|].
    intros H; inversion H; reflexivity. }
  intros H; inversion H; reflexivity.
Qed.

Lemma yields_setParseAction_lookahead (p : parser) (fn : tokens -> res tokens)
    (s rest : str) (t t' : tokens) :
  yields p false s t rest -> yields (setParseAction p fn) false s t' rest.
Proof.
  intros (u & H & _). exists u. unfold setParseAction. rewrite H.
  split; [reflexivity | discriminate].
Qed.

Lemma like_text_plain (n p : str) :
  name_ok n = true ->
  Forall (fun c => c <> Py.cr /\ c <> Py.tab) (name_text n ++ " LIKE " ++ Py.repr_str p) /\
  preParse (name_text n ++ " LIKE " ++ Py.repr_str p) =
  name_text n ++ " LIKE " ++ Py.repr_str p.
Proof.
  intros Hn. split.
  - assert (Hp : plain_text (name_text n ++ " LIKE " ++ Py.repr_str p)).
    { repeat apply plain_text_app; auto using name_text_plain, repr_str_plain_text.
      plain_literal. }
    eapply Forall_impl; [|exact Hp]. intros c (_ & H1 & H2). split; assumption.
  - destruct (proj1 (name_text_starts n Hn)) as (c & t & -> & Hw).
    apply preParse_start. exact Hw.
Qed.

(** X10.  An unsupported LIKE pattern is an error of [where].  When the
    LIKE compiler refuses a pattern, [where] on the column, [LIKE] and the
    quoted pattern raises the compiler's [ValueError], which names the
    pattern; no alternative of the grammar is tried in its place and no
    tree is returned. *)
Theorem like_error_surfaces (n p : str) (e : exn) :
  left_name_ok n = true ->
  make_like (TNode (ColumnRef n)) (text p) = Raise e ->
  where_ (name_text n ++ " LIKE " ++ Py.repr_str p) = Raise e /\
  e = ValueError ("Unsupported LIKE pattern '" ++ p ++ "'.").
Proof.
  intros Hleft Hm.
  assert (Hn : name_ok n = true).
  { unfold left_name_ok in Hleft. apply andb_true_iff in Hleft. apply Hleft. }
  pose proof (make_like_Raise _ _ _ Hm) as He. split; [|exact He].
  destruct (like_text_plain n p Hn) as [Hc HP].
  set (txt := name_text n ++ " LIKE " ++ Py.repr_str p) in *.
  assert (Hexpr : forall b, yields INFIX_TEST_expr b txt
                    [TNode (ColumnRef n); text "like"; TObj (Py.Scalar (Py.VStr p))] []).
  { intros b. apply yields_LIKE_expr; [exact Hn | | apply boundary_nil].
    rewrite HP, app_nil_r. reflexivity. }
  apply where_single_test_Raise.
  - exact Hc.
  - apply (fails_NOT_name false _ n ("LIKE " ++ Py.repr_str p) Hleft). exact HP.
  - unfold TEST. apply (MatchFirst_Raise true txt e [] _ _); [constructor | |].
    + unfold INFIX_TEST.
      apply (setParseAction_action_Raise _ _ _ [] _ _ (Hexpr true)).
      change (parseTest [TNode (ColumnRef n); text "like"; TObj (Py.Scalar (Py.VStr p))])
        with (w <- make_like (TNode (ColumnRef n)) (text p) ;; Ok [TNode w]).
      rewrite Hm. reflexivity.
    + rewrite He. discriminate.
  - rewrite He. discriminate.
  - right. exists [], []. split; [|left; reflexivity].
    unfold TEST. apply yields_MatchFirst_head. unfold INFIX_TEST.
    eapply yields_setParseAction_lookahead. apply (Hexpr false).
Qed.

Lemma like_error_surfaces_witness :
  (left_name_ok "a" = true /\
   make_like (TNode (ColumnRef "a")) (text "f%o%o") =
     Raise (ValueError "Unsupported LIKE pattern 'f%o%o'.")) /\
  where_ (name_text "a" ++ " LIKE " ++ Py.repr_str "f%o%o") =
    Raise (ValueError "Unsupported LIKE pattern 'f%o%o'.") /\
  ValueError "Unsupported LIKE pattern 'f%o%o'." =
    ValueError ("Unsupported LIKE pattern '" ++ "f%o%o" ++ "'.").
Proof.
  split; [split; reflexivity|].
  exact (like_error_surfaces "a" "f%o%o" _ eq_refl eq_refl).
Defined.

(** ** IN without a list *)

Lemma LIST_fatal (b : bool) (s : str) :
  (forall c r, preParse s = c :: r -> c <> "["%char) ->
  LIST b s = Raise (ParseFatalException (preParse s) "Expected list").
Proof.
  intros H. unfold LIST.
  apply (fail_fatal _ "list"). apply fails_setParseAction, fails_And_head, fails_Literal.
  destruct (preParse s) as [|c r]; [reflexivity|].
  rewrite startswith_cons. apply andb_false_iff. left.
  apply Ascii.eqb_neq. intros <-. exact (H _ _ eq_refl eq_refl).
Qed.

Lemma TEST_in_fatal (b : bool) (n tail : str) :
  name_ok n = true ->
  (forall c r, preParse tail = c :: r -> c <> "["%char) ->
  TEST b (name_text n ++ " IN " ++ tail) =
    Raise (ParseFatalException (preParse tail) "Expected list") /\
  TEST b (name_text n ++ " NOT IN " ++ tail) =
    Raise (ParseFatalException (preParse tail) "Expected list").
Proof.
  intros Hn Ht.
  assert (HP : forall x, preParse (name_text n ++ x) = name_text n ++ x).
  { intros x. destruct (proj1 (name_text_starts n Hn)) as (c & t & -> & Hw).
    apply preParse_start. exact Hw. }
  assert (Hl : LIST b (" " ++ tail) =
               Raise (ParseFatalException (preParse tail) "Expected list")).
  { apply (LIST_fatal b (" " ++ tail)). exact Ht. }
  assert (Hid : forall x, yields IDENTIFIER b (name_text n ++ " " ++ x)
                            [TNode (ColumnRef n)] (" " ++ x)).
  { intros x. apply yields_IDENTIFIER; [exact Hn | apply HP | apply boundary_space]. }
  assert (Hkw : forall k m x, length k = length m -> Py.upper k = Py.upper m ->
                  starts_token k ->
                  yields (CaselessKeyword m) b (" " ++ k ++ " " ++ x) [text m] (" " ++ x)).
  { intros k m x H1 H2 H3.
    apply (yields_CaselessKeyword b _ k m (" " ++ x)); auto using boundary_space.
    apply (preParse_space k (" " ++ x) H3). }
  assert (HI : starts_token "IN") by (eexists _, _; split; reflexivity).
  assert (HN : starts_token "NOT") by (eexists _, _; split; reflexivity).
  split; unfold TEST.
  - apply (MatchFirst_Raise b _ _ [_; _; _] _ [_]); [| |discriminate].
    + constructor; [|constructor; [|constructor; [|constructor]]].
      * apply (fails_INFIX_TEST b _ n "I" ("N " ++ tail) Hn); [simpl; auto | apply HP].
      * apply (fails_test_keyword b _ n "is" _ _ ("IN " ++ tail) Hn (HP _)). reflexivity.
      * apply (fails_test_keyword b _ n "is" _ _ ("IN " ++ tail) Hn (HP _)). reflexivity.
    + unfold INLIST_TEST. apply setParseAction_Raise.
      apply (And_Raise_after b _ _ _ _ _ _ (Hid ("IN " ++ tail))).
      apply (And_Raise_after b _ _ _ _ _ _ (Hkw "IN" "in" tail eq_refl eq_refl HI)).
      apply And_Raise_head. exact Hl.
  - apply (MatchFirst_Raise b _ _ [_; _; _; _] _ []); [| |discriminate].
    + constructor; [|constructor; [|constructor; [|constructor; [|constructor]]]].
      * apply (fails_INFIX_TEST b _ n "N" ("OT IN " ++ tail) Hn); [simpl; auto | apply HP].
      * apply (fails_test_keyword b _ n "is" _ _ ("NOT IN " ++ tail) Hn (HP _)). reflexivity.
      * apply (fails_test_keyword b _ n "is" _ _ ("NOT IN " ++ tail) Hn (HP _)). reflexivity.
      * apply (fails_test_keyword b _ n "in" _ _ ("NOT IN " ++ tail) Hn (HP _)). reflexivity.
    + unfold NOT_INLIST_TEST. apply setParseAction_Raise.
      apply (And_Raise_after b _ _ _ _ _ _ (Hid ("NOT IN " ++ tail))).
      apply (And_Raise_after b _ _ _ _ _ _
               (Hkw "NOT" "not" ("IN " ++ tail) eq_refl eq_refl HN)).
      apply (And_Raise_after b _ _ _ _ _ _ (Hkw "IN" "in" tail eq_refl eq_refl HI)).
      apply And_Raise_head. exact Hl.
Qed.

(** X11.  IN and NOT IN must be followed by a list.  For a column name
    followed by [IN] or [NOT IN] and a text that does not start (after
    whitespace) with ['['], [where] raises the fatal error
    ["Expected list"] at that text; the failure is not turned into a
    failure of the test, so no other way to read the input is tried. *)
Theorem in_requires_list (n tail : str) :
  left_name_ok n = true ->
  Forall (fun c => c <> Py.cr /\ c <> Py.tab) tail ->
  (forall c r, preParse tail = c :: r -> c <> "["%char) ->
  where_ (name_text n ++ " IN " ++ tail) =
    Raise (ParseFatalException (preParse tail) "Expected list") /\
  where_ (name_text n ++ " NOT IN " ++ tail) =
    Raise (ParseFatalException (preParse tail) "Expected list").
Proof.
  intros Hleft Hc Ht.
  assert (Hn : name_ok n = true).
  { unfold left_name_ok in Hleft. apply andb_true_iff in Hleft. apply Hleft. }
  assert (Hname : Forall (fun c => c <> Py.cr /\ c <> Py.tab) (name_text n)).
  { eapply Forall_impl; [|exact (name_text_plain n Hn)].
    intros c (_ & H1 & H2). split; assumption. }
  assert (HP : forall x, preParse (name_text n ++ x) = name_text n ++ x).
  { intros x. destruct (proj1 (name_text_starts n Hn)) as (c & t & -> & Hw).
    apply preParse_start. exact Hw. }
  split; apply where_single_test_Raise.
  - apply Forall_app. split; [exact Hname|].
    apply Forall_app. split; [plain_literal | exact Hc].
  - apply (fails_NOT_name false _ n ("IN " ++ tail) Hleft). apply HP.
  - apply (TEST_in_fatal true n tail Hn Ht).
  - discriminate.
  - left. eexists _, _. apply (TEST_in_fatal false n tail Hn Ht).
  - apply Forall_app. split; [exact Hname|].
    apply Forall_app. split; [plain_literal | exact Hc].
  - apply (fails_NOT_name false _ n ("NOT IN " ++ tail) Hleft). apply HP.
  - apply (TEST_in_fatal true n tail Hn Ht).
  - discriminate.
  - left. eexists _, _. apply (TEST_in_fatal false n tail Hn Ht).
Qed.

Lemma in_requires_list_witness :
  (left_name_ok "a" = true /\
   Forall (fun c => c <> Py.cr /\ c <> Py.tab) "(1, 2)" /\
   (forall c r, preParse "(1, 2)" = c :: r -> c <> "["%char)) /\
  where_ (name_text "a" ++ " IN " ++ "(1, 2)") =
    Raise (ParseFatalException (preParse "(1, 2)") "Expected list") /\
  where_ (name_text "a" ++ " NOT IN " ++ "(1, 2)") =
    Raise (ParseFatalException (preParse "(1, 2)") "Expected list").
Proof.
  assert (H1 : Forall (fun c => c <> Py.cr /\ c <> Py.tab) "(1, 2)") by plain_literal.
  assert (H2 : forall c r, preParse "(1, 2)" = c :: r -> c <> "["%char).
  { intros c r E. vm_compute in E. injection E as <- _. discriminate. }
  split; [split; [reflexivity | split; assumption]|].
  exact (in_requires_list "a" "(1, 2)" eq_refl H1 H2).
Defined.

(** ** Quoted strings *)






(** ** Bracketed names *)

(** X13.  A name in square brackets is taken as it stands: for every text
    [n] without [']'] and line break (a keyword, digits, the empty text),
    the identifier ['[' n ']'] is the column named [n], and the match ends
    after the closing bracket. *)
Theorem bracketed_identifier (n rest : str) :
  Forall (fun c => c <> "]"%char /\ c <> Py.nl /\ c <> Py.cr) n ->
  IDENTIFIER true ("[" ++ n ++ "]" ++ rest) = Ok ([TNode (ColumnRef n)], rest).
Proof.
  intros Hn.
  assert (HP : preParse ("[" ++ n ++ "]" ++ rest) = ("[" ++ n ++ "]") ++ rest).
  { rewrite <- !app_assoc. reflexivity. }
  assert (Hy : yields IDENTIFIER true ("[" ++ n ++ "]" ++ rest)
                 [TNode (ColumnRef n)] rest).
  { unfold IDENTIFIER.
    apply (yields_setParseAction true _ rest _ _ [text n]); [|reflexivity].
    apply (yields_MatchFirst true _ [_] _ []).
    - constructor; [|constructor]. apply fails_Word.
      intros c r E. rewrite HP in E. injection E as <- _. reflexivity.
    - exists [text n]. split; [|reflexivity].
      unfold QuotedString. rewrite HP.
      assert (Hm : Re.rmatch (quoted_pattern "[" None "]") (("[" ++ n ++ "]") ++ rest)
                     (fun s' => Some s') = Some rest).
      { rewrite <- !app_assoc. cbn [app].
        change (Re.star (Re.rmatch (Re.NoneOf ("]"%char :: Py.nl :: Py.cr :: [])))
                  (length (n ++ "]" ++ rest)) (n ++ "]" ++ rest)
                  (fun s' => Re.rmatch (Re.Chr "]") s' (fun s'' => Some s''))
                = Some rest).
        apply star_class_greedy; auto.
        - eapply Forall_impl; [|exact Hn]. intros c (H1 & H2 & H3).
          unfold Re.NoneOf. cbn [existsb].
          apply Ascii.eqb_neq in H1, H2, H3. rewrite H1, H2, H3. reflexivity.
        - intros c r E. injection E as <- _. reflexivity. }
      rewrite (re_match_prefix _ _ _ Hm).
      cbn [app tl]. rewrite removelast_last. reflexivity. }
  destruct Hy as (t & Hy & Et). rewrite (Et eq_refl) in Hy. exact Hy.
Qed.

Lemma bracketed_identifier_witness :
  Forall (fun c => c <> "]"%char /\ c <> Py.nl /\ c <> Py.cr) "not 1st" /\
  IDENTIFIER true ("[" ++ "not 1st" ++ "]" ++ " = 2") =
    Ok ([TNode (ColumnRef "not 1st")], " = 2").
Proof.
  assert (H : Forall (fun c => c <> "]"%char /\ c <> Py.nl /\ c <> Py.cr) "not 1st")
    by (repeat constructor; discriminate).
  split; [exact H | exact (bracketed_identifier "not 1st" " = 2" H)].
Defined.

(** ** Chains of AND and OR *)

Lemma join_snoc (sep x : str) (l : list str) (y : str) :
  Py.join sep ((x :: l) ++ [y]) = Py.join sep (x :: l) ++ sep ++ y.
Proof.
  revert x. induction l as [|z l IH]; intros x; [reflexivity|].
  change (Py.join sep ((x :: z :: l) ++ [y])) with (x ++ sep ++ Py.join sep ((z :: l) ++ [y])).
  change (Py.join sep (x :: z :: l)) with (x ++ sep ++ Py.join sep (z :: l)).
  rewrite IH, <- !app_assoc. reflexivity.
Qed.

Lemma chain_of_snoc (op : str) (w0 : node) (ws : list node) (w : node) :
  chain_of op w0 (ws ++ [w]) = Composite op (chain_of op w0 ws) (Some w).
Proof. unfold chain_of, fold_chain. rewrite map_app, fold_left_app. reflexivity. Qed.

Lemma node_op_chain (op : str) (w0 : node) (ws : list node) :
  ws <> [] -> node_op (chain_of op w0 ws) = Some op.
Proof.
  intros Hne. destruct (exists_last Hne) as (ws' & w & ->).
  rewrite chain_of_snoc. reflexivity.
Qed.

Lemma format_chain_break (op : str) (w0 : node) (t0 : str) :
  In op LOGICAL -> node_op w0 <> Some op -> _format w0 true false = Ok t0 ->
  forall ws ts,
    Forall2 (fun w t => _format w true false = Ok t) ws ts -> ws <> [] ->
    _format (chain_of op w0 ws) false true =
    Ok (Py.join (" " ++ Py.upper op ++ [Py.nl]) (t0 :: ts)).
Proof.
  intros Hop Hw0 Ht0 ws. induction ws as [|w ws IH] using rev_ind; intros ts Hts Hne.
  - contradiction.
  - apply Forall2_app_inv_l in Hts. destruct Hts as (ts' & tl & Hts' & Hl & ->).
    inversion Hl as [|? t ? ? Ht Hnil]; subst. inversion Hnil; subst.
    rewrite chain_of_snoc, (format_logical_unfold op _ w false true Hop). cbn zeta.
    rewrite Ht. destruct ws as [|w1 ws].
    + inversion Hts'; subst.
      change (chain_of op w0 []) with w0. rewrite (same_op_false w0 op Hw0), Ht0.
      cbn [bind app Py.join]. rewrite <- !app_assoc. reflexivity.
    + rewrite (same_op_true _ op (node_op_chain op w0 (w1 :: ws) ltac:(discriminate))).
      rewrite (IH ts' Hts' ltac:(discriminate)). cbn [bind].
      rewrite (join_snoc _ t0 ts' t), <- !app_assoc. reflexivity.
Qed.

(** X14.  A chain is written one operand to a line.  For [and] or [or], a
    first operand that does not carry the operator itself and two or more
    further operands, [_format] without brackets writes the left-nested
    chain as the operands, each as it is written with brackets requested,
    joined by the operator and a line break: every line but the last ends
    in the operator, whatever the line-break flag. *)
Theorem format_chain (op : str) (w0 : node) (ws : list node) (t0 : str)
    (ts : list str) (brk : bool) :
  In op LOGICAL -> node_op w0 <> Some op -> _format w0 true false = Ok t0 ->
  Forall2 (fun w t => _format w true false = Ok t) ws ts -> 2 <= length ws ->
  _format (chain_of op w0 ws) false brk =
  Ok (Py.join (" " ++ Py.upper op ++ [Py.nl]) (t0 :: ts)).
Proof.
  intros Hop Hw0 Ht0 Hts Hlen.
  destruct (exists_last (l := ws)) as (ws' & w & ->).
  { intros ->. simpl in Hlen. lia. }
  assert (Hne : ws' <> []).
  { intros ->. simpl in Hlen. lia. }
  apply Forall2_app_inv_l in Hts. destruct Hts as (ts' & tl & Hts' & Hl & ->).
  inversion Hl as [|? t ? ? Ht Hnil]; subst. inversion Hnil; subst.
  rewrite chain_of_snoc, (format_logical_unfold op _ w false brk Hop). cbn zeta.
  rewrite (same_op_true _ op (node_op_chain op w0 ws' Hne)).
  rewrite (format_chain_break op w0 t0 Hop Hw0 Ht0 ws' ts' Hts' Hne), Ht. cbn [bind].
  rewrite (join_snoc _ t0 ts' t), <- !app_assoc. reflexivity.
Qed.

Lemma format_chain_witness :
  (In "or" LOGICAL /\ node_op (eq_int "a" 1) <> Some "or" /\
   _format (eq_int "a" 1) true false = Ok "a == 1" /\
   Forall2 (fun w t => _format w true false = Ok t)
           [eq_int "b" 2; eq_int "c" 3] ["b == 2"; "c == 3"] /\
   2 <= length [eq_int "b" 2; eq_int "c" 3]) /\
  _format (chain_of "or" (eq_int "a" 1) [eq_int "b" 2; eq_int "c" 3]) false false =
  Ok (Py.join (" " ++ Py.upper "or" ++ [Py.nl]) ["a == 1"; "b == 2"; "c == 3"]).
Proof.
  assert (H1 : In "or" LOGICAL) by (simpl; auto).
  assert (H2 : node_op (eq_int "a" 1) <> Some "or") by discriminate.
  assert (H3 : Forall2 (fun w t => _format w true false = Ok t)
                 [eq_int "b" 2; eq_int "c" 3] ["b == 2"; "c == 3"])
    by (repeat constructor).
  assert (H4 : 2 <= length [eq_int "b" 2; eq_int "c" 3]) by (simpl; lia).
  split; [repeat split; assumption|].
  exact (format_chain "or" (eq_int "a" 1) _ "a == 1" _ false H1 H2 eq_refl H3 H4).
Defined.

(** ** No expression inside brackets *)

Lemma OPERAND_Raise (ret : parser) (b : bool) (s : str) (e : exn) :
  fails NOT false s -> ATOM ret b s = Raise e -> escapes e ->
  OPERAND ret b s = Raise e.
Proof.
  intros Hn Ha He. rewrite OPERAND_unfold, OPERAND_depth_S. unfold NOT_body.
  apply (MatchFirst_Raise b s e [_] _ []); [| exact Ha | exact He].
  constructor; [|constructor].
  apply fails_setParseAction, fails_And_head, fails_FollowedBy, fails_And_head.
  exact Hn.
Qed.

Lemma AND_OR_level_Raise_fatal (last : parser) (b : bool) (s r m : str) :
  (forall b', last b' s = Raise (ParseFatalException r m)) ->
  opLevel last AND_OR_def b s = Raise (ParseFatalException r m).
Proof.
  intros H. rewrite AND_OR_level_unfold.
  apply (MatchFirst_Raise b s _ [_] _ []); [| apply H | discriminate].
  constructor; [|constructor].
  apply fails_setParseAction, fails_And_head.
  apply (fails_FollowedBy_fatal _ _ _ r m). apply And_Raise_head. apply H.
Qed.

Lemma RET_body_no_expression (ret : parser) (b : bool) (s : str) :
  (forall c r, preParse s = c :: r ->
     Py.isalpha c = false /\ c <> "["%char /\ c <> "("%char) ->
  RET_body ret b s = Raise (ParseFatalException (preParse s) "Expected expression").
Proof.
  intros H. unfold RET_body. apply (fail_fatal _ "expression").
  assert (Hn : forall b', fails NOT b' s).
  { intros b'. apply fails_NOT_start. intros c r E. apply (H c r E). }
  assert (Ha : forall b', fails (ATOM ret) b' s).
  { intros b'. unfold ATOM. apply fails_MatchFirst.
    constructor; [|constructor; [|constructor]].
    - unfold TEST. apply fails_MatchFirst.
      assert (Hi : fails IDENTIFIER b' s).
      { apply fails_IDENTIFIER. intros c r E. destruct (H c r E) as (? & ? & ?). auto. }
      repeat constructor; apply fails_setParseAction, fails_And_head; exact Hi.
    - apply fails_And_head, fails_Suppress, fails_Literal.
      destruct (preParse s) as [|c r] eqn:Ep; [reflexivity|].
      rewrite startswith_cons. apply andb_false_iff. left.
      apply Ascii.eqb_neq. intros <-.
      destruct (H _ _ eq_refl) as (_ & _ & Hc). contradiction. }
  apply fails_AND_OR_level; apply fails_OPERAND; auto.
Qed.

Lemma RET_body_brackets (tail : str) :
  (forall c r, preParse tail = c :: r ->
     Py.isalpha c = false /\ c <> "["%char /\ c <> "("%char) ->
  forall k n b, k <= n ->
    RET_body (RET n) b (repeat "("%char k ++ tail) =
    Raise (ParseFatalException (preParse tail) "Expected expression").
Proof.
  intros H. induction k as [|k IH]; intros n b Hk.
  - apply RET_body_no_expression. exact H.
  - destruct n as [|n]; [lia|].
    set (s' := repeat "("%char k ++ tail).
    change (repeat "("%char (S k) ++ tail) with ("(" ++ s').
    assert (HP : preParse ("(" ++ s') = "(" ++ s') by reflexivity.
    assert (Ho : forall b', OPERAND (RET (S n)) b' ("(" ++ s') =
                   Raise (ParseFatalException (preParse tail) "Expected expression")).
    { intros b'. apply OPERAND_Raise; [| |discriminate].
      - apply (fails_NOT_bracket false _ s' HP).
      - unfold ATOM. apply (MatchFirst_Raise b' _ _ [_] _ []); [| |discriminate].
        + constructor; [|constructor]. apply (fails_TEST_bracket b' _ s' HP).
        + apply (And_Raise_after b' _ s' _ _ _ []).
          * apply (yields_Suppress _ _ _ [text "("]). apply yields_Literal. exact HP.
          * apply And_Raise_head. rewrite RET_S. apply IH. lia. }
    unfold RET_body. apply fail_Raise; [|discriminate].
    apply AND_OR_level_Raise_fatal. exact Ho.
Qed.

(** X15.  A bracket that holds no expression is reported where the
    expression is missing.  After any number of opening brackets, when the
    text that follows starts (after whitespace) with no letter, no ['[']
    and no ['('], or is empty, [where] raises the fatal error
    ["Expected expression"] at that text, inside the innermost bracket. *)
Theorem where_no_expression_in_brackets (k : nat) (tail : str) :
  Forall (fun c => c <> Py.cr /\ c <> Py.tab) tail ->
  (forall c r, preParse tail = c :: r ->
     Py.isalpha c = false /\ c <> "["%char /\ c <> "("%char) ->
  where_ (repeat "("%char k ++ tail) =
  Raise (ParseFatalException (preParse tail) "Expected expression").
Proof.
  intros Hc H.
  assert (Hs : Forall (fun c => c <> Py.cr /\ c <> Py.tab) (repeat "("%char k ++ tail)).
  { apply Forall_app. split; [|exact Hc].
    apply Forall_forall. intros x Hx. apply repeat_spec in Hx. subst.
    split; discriminate. }
  unfold where_, parseString, Py.expandtabs. rewrite (expandtabs_no_tab _ Hs 0).
  unfold WHEREEXP. cbn [And StringStart bind fst snd].
  rewrite EXPRESSION_RET, (RET_body_brackets tail H k).
  - reflexivity.
  - rewrite length_app, repeat_length. lia.
Qed.

Lemma where_no_expression_in_brackets_witness :
  (Forall (fun c => c <> Py.cr /\ c <> Py.tab) " )" /\
   (forall c r, preParse " )" = c :: r ->
      Py.isalpha c = false /\ c <> "["%char /\ c <> "("%char)) /\
  where_ (repeat "("%char 2 ++ " )") =
  Raise (ParseFatalException (preParse " )") "Expected expression").
Proof.
  assert (H1 : Forall (fun c => c <> Py.cr /\ c <> Py.tab) " )") by plain_literal.
  assert (H2 : forall c r, preParse " )" = c :: r ->
                 Py.isalpha c = false /\ c <> "["%char /\ c <> "("%char).
  { intros c r E. vm_compute in E. injection E as <- _.
    split; [reflexivity | split; discriminate]. }
  split; [split; assumption|].
  exact (where_no_expression_in_brackets 2 " )" H1 H2).
Defined.
